(** * Monikhao worker service: session / agent state machine

    A shallow embedding of the state-aggregation core of
    [scripts/worker-service.cjs]: the session map, the per-session agent
    list, tool-call tracking, the statistics counters with their carry-over
    bucket, the periodic pruner and the totals of the public snapshot.

    Conventions of the embedding.
    - JavaScript numbers that the core only adds and compares (timestamps,
      counters) are integers [Z]; a field that may hold [undefined] is an
      [option].  A comparison or subtraction involving [undefined] yields
      [NaN], and every test on [NaN] is false; the helpers [js_truthy_lt] and
      [js_idle_gt] write that out.
    - The module-level registries ([sessions], [agentIdCounter],
      [carryOverStats], [usedNames]) are the fields of one [State] record
      that every operation takes and returns.
    - [sessions] is a JavaScript [Map], iterated in insertion order; it is
      a [gmap] here, which does not keep that order.  The loops over it
      that are modelled (pruner, totals) add to counters and delete from
      sets, which does not depend on the order.  The lists of the snapshot
      hold the entries of the source's lists in the order of the [gmap]:
      they are a rearrangement of the source's, and what is stated about
      their order is stated for every rearrangement.
    - The readings of [Date.now()] and [Math.random()] made while one event
      is processed are the fields of an [Env] record supplied by the caller.
    - A session object is mutated in place by the source; here it is read
      from the map, transformed, and written back under its key.
    - Presentational agent attributes (colour, shape, spawn time, last
      response text) and the textual summaries stored in tool calls and
      timeline entries are never read back by the core and are left out.
      What is kept of [summarizeInput] and [summarizeOutput] is whether
      they throw: the exception leaves [processEvent] half-way, and the
      state reached by then stays ([POST /api/events] catches it and
      answers with an error).
    - Property values have the type the worker expects of them: the
      tool name is a string, and the properties that the worker reads
      from a tool input as strings, and the [message] of a notification,
      are strings when present.  A tool response is arbitrary JSON, seen
      through the observations the worker makes of it. *)

From stdpp Require Import gmap strings list fin_maps.
From Stdlib Require Import ZArith Lia.

Local Open Scope Z_scope.

(** ** Data model *)

Inductive SessionStatus := SActive | SEnded.
Inductive AgentStatus := AActive | ACompleted.
Inductive AgentType := Main | Subagent.
Inductive ToolStatus := Executing | Completed | Error.

Inductive Phase :=
| SessionStart | SessionEnd | Pre | Post | Notification
| Unrecognized. (* any other value of [event.phase] *)

#[global] Instance SessionStatus_eq_dec : EqDecision SessionStatus.
Proof. solve_decision. Defined.
#[global] Instance AgentStatus_eq_dec : EqDecision AgentStatus.
Proof. solve_decision. Defined.
#[global] Instance AgentType_eq_dec : EqDecision AgentType.
Proof. solve_decision. Defined.
#[global] Instance ToolStatus_eq_dec : EqDecision ToolStatus.
Proof. solve_decision. Defined.
#[global] Instance Phase_eq_dec : EqDecision Phase.
Proof. solve_decision. Defined.

(** A tool-call identifier is the template string
    [`tc-${Date.now()}-${Math.random().toString(36).slice(2, 6)}`]: it is
    determined by, and determines, the clock reading and the random
    suffix, so the pair stands for the string. *)
Definition ToolCallId : Type := Z * string.

Record ToolCall := mkToolCall {
  tc_id : ToolCallId;
  tc_tool : string;
  tc_startedAt : option Z;
  tc_completedAt : option Z;
  tc_status : ToolStatus
}.

(** An agent identifier [`agent-${agentIdCounter++}`] is represented by
    the counter value it was built from. *)
Record Agent := mkAgent {
  a_id : nat;
  a_name : string;
  a_type : AgentType;
  a_subagentType : option string;
  a_model : option string;
  a_parentId : option nat;
  a_sessionId : string;
  a_source : string;
  a_status : AgentStatus;
  a_completedAt : option Z;
  a_toolCalls : list ToolCall;
  a_toolCallCount : Z
}.

(** The seven counters shared by [ss.stats] and [carryOverStats]. *)
Record Stats := mkStats {
  toolCalls : Z;
  filesAccessed : Z;
  estimatedTokens : Z;
  linesAdded : Z;
  linesRemoved : Z;
  turns : Z;
  errors : Z
}.

Record FileInfo := mkFileInfo {
  f_accessCount : Z;
  f_lastAccessed : option Z;
  f_tool : string
}.

Inductive TimelineKind := AgentSpawn | ToolStart | ToolEnd | AgentResponse.

Record TimelineEvent := mkTimelineEvent {
  tl_timestamp : option Z;
  tl_type : TimelineKind;
  tl_agentId : nat
}.

(** [ss.session] *)
Record SessionInfo := mkSessionInfo {
  s_id : string;
  s_startedAt : option Z;
  s_status : SessionStatus;
  s_endedAt : option Z;
  s_source : string;
  s_model : option string
}.

Record SessionState := mkSessionState {
  session : SessionInfo;
  agents : list Agent;
  timeline : list TimelineEvent;
  files : gmap string FileInfo;
  stats : Stats;
  stats_startedAt : option Z;
  pendingToolCalls : gmap string ToolCallId;
  lastActivity : option Z
}.

Record State := mkState {
  sessions : gmap string SessionState;
  agentIdCounter : nat;
  carryOverStats : Stats;
  usedNames : gset string
}.

(** The parts of [config] the core reads. [None] is an absent (or falsy)
    entry. *)
Record Config := mkConfig {
  staleTimeout : option Z;
  maxTimelineEvents : option nat
}.

(** A tool input as the worker sees it: its serialization (the string
    itself, or [JSON.stringify] of the object) and the string properties it
    reads.  An absent property is [None]. *)
Record ToolInput := mkToolInput {
  ti_text : string;
  ti_file_path : option string;
  ti_path : option string;
  ti_pattern : option string;
  ti_content : option string;
  ti_old_string : option string;
  ti_new_string : option string;
  ti_subagent_type : option string;
  ti_description : option string;
  ti_model : option string
}.

(** A tool response: whether it is an object carrying [is_error === true],
    [isError === true] or a truthy [error]; its serialization; and whether
    [summarizeOutput] throws on it, which it does for an object whose
    [content] is an array holding [null] (the [c.text] of
    [output.content.map(c => c.text || '')]) or whose [content], or a
    [text] inside it, cannot be converted to a string. *)
Record ToolResponse := mkToolResponse {
  tr_error_flag : bool;
  tr_text : string;
  tr_summary_throws : bool
}.

(** The inbound record.  An absent [timestamp] is [None]; a falsy
    [tool_input] / [tool_response] ([null], absent) is [None].
    [tool_name] is the string sent with [pre] and [post] events; lifecycle
    events do not read it. *)
Record Event := mkEvent {
  ev_phase : Phase;
  ev_timestamp : option Z;
  ev_session_id : option string;
  ev_source : option string;
  ev_tool_name : string;
  ev_tool_input : option ToolInput;
  ev_tool_response : option ToolResponse;
  ev_model : option string
}.

(** Readings of the clock and of the random generator during one call of
    [processEvent]. *)
Record Env := mkEnv {
  env_name_draw : nat;   (* decides the index drawn by [pickAgentName] *)
  env_clock : Z;         (* [Date.now()] in the tool-call id *)
  env_suffix : string    (* [Math.random().toString(36).slice(2, 6)] *)
}.

(** ** JavaScript truthiness and comparisons *)

(** [x || null] on an optional string: the empty string is falsy. *)
Definition truthy_str (o : option string) : option string :=
  match o with
  | Some s => if decide (s = EmptyString) then None else Some s
  | None => None
  end.

Definition or_str (a b : option string) : option string :=
  match truthy_str a with
  | Some s => Some s
  | None => truthy_str b
  end.

(** [x && x < y] with [x] possibly undefined: false when [x] is undefined
    or zero. *)
Definition js_truthy_lt (x : option Z) (y : Z) : bool :=
  match x with
  | Some v => negb (v =? 0) && (v <? y)
  | None => false
  end.

(** [(now - x) > d] with [x] possibly undefined ([NaN > d] is false). *)
Definition js_idle_gt (now : Z) (x : option Z) (d : Z) : bool :=
  match x with
  | Some v => d <? now - v
  | None => false
  end.

(** ** Record updates *)

Definition set_status (v : SessionStatus) (s : SessionInfo) : SessionInfo :=
  mkSessionInfo (s_id s) (s_startedAt s) v (s_endedAt s) (s_source s) (s_model s).
Definition set_endedAt (v : option Z) (s : SessionInfo) : SessionInfo :=
  mkSessionInfo (s_id s) (s_startedAt s) (s_status s) v (s_source s) (s_model s).
Definition set_source (v : string) (s : SessionInfo) : SessionInfo :=
  mkSessionInfo (s_id s) (s_startedAt s) (s_status s) (s_endedAt s) v (s_model s).
Definition set_model (v : option string) (s : SessionInfo) : SessionInfo :=
  mkSessionInfo (s_id s) (s_startedAt s) (s_status s) (s_endedAt s) (s_source s) v.

Definition with_session (v : SessionInfo) (ss : SessionState) : SessionState :=
  mkSessionState v (agents ss) (timeline ss) (files ss) (stats ss)
    (stats_startedAt ss) (pendingToolCalls ss) (lastActivity ss).
Definition with_agents (v : list Agent) (ss : SessionState) : SessionState :=
  mkSessionState (session ss) v (timeline ss) (files ss) (stats ss)
    (stats_startedAt ss) (pendingToolCalls ss) (lastActivity ss).
Definition with_timeline (v : list TimelineEvent) (ss : SessionState) : SessionState :=
  mkSessionState (session ss) (agents ss) v (files ss) (stats ss)
    (stats_startedAt ss) (pendingToolCalls ss) (lastActivity ss).
Definition with_files (v : gmap string FileInfo) (ss : SessionState) : SessionState :=
  mkSessionState (session ss) (agents ss) (timeline ss) v (stats ss)
    (stats_startedAt ss) (pendingToolCalls ss) (lastActivity ss).
Definition with_stats (v : Stats) (ss : SessionState) : SessionState :=
  mkSessionState (session ss) (agents ss) (timeline ss) (files ss) v
    (stats_startedAt ss) (pendingToolCalls ss) (lastActivity ss).
Definition with_pending (v : gmap string ToolCallId) (ss : SessionState) : SessionState :=
  mkSessionState (session ss) (agents ss) (timeline ss) (files ss) (stats ss)
    (stats_startedAt ss) v (lastActivity ss).
Definition with_lastActivity (v : option Z) (ss : SessionState) : SessionState :=
  mkSessionState (session ss) (agents ss) (timeline ss) (files ss) (stats ss)
    (stats_startedAt ss) (pendingToolCalls ss) v.

Definition agent_set_status (st : AgentStatus) (done : option Z) (a : Agent) : Agent :=
  mkAgent (a_id a) (a_name a) (a_type a) (a_subagentType a) (a_model a)
    (a_parentId a) (a_sessionId a) (a_source a) st done
    (a_toolCalls a) (a_toolCallCount a).
Definition agent_set_model (m : option string) (a : Agent) : Agent :=
  mkAgent (a_id a) (a_name a) (a_type a) (a_subagentType a) m
    (a_parentId a) (a_sessionId a) (a_source a) (a_status a) (a_completedAt a)
    (a_toolCalls a) (a_toolCallCount a).
Definition agent_set_toolCalls (l : list ToolCall) (a : Agent) : Agent :=
  mkAgent (a_id a) (a_name a) (a_type a) (a_subagentType a) (a_model a)
    (a_parentId a) (a_sessionId a) (a_source a) (a_status a) (a_completedAt a)
    l (a_toolCallCount a).
(** [agent.toolCalls.push(toolCall); agent.toolCallCount++] *)
Definition agent_push_toolCall (tc : ToolCall) (a : Agent) : Agent :=
  mkAgent (a_id a) (a_name a) (a_type a) (a_subagentType a) (a_model a)
    (a_parentId a) (a_sessionId a) (a_source a) (a_status a) (a_completedAt a)
    (a_toolCalls a ++ [tc]) (a_toolCallCount a + 1).

Definition with_sessions (m : gmap string SessionState) (st : State) : State :=
  mkState m (agentIdCounter st) (carryOverStats st) (usedNames st).
Definition with_carryOver (c : Stats) (st : State) : State :=
  mkState (sessions st) (agentIdCounter st) c (usedNames st).
Definition with_usedNames (u : gset string) (st : State) : State :=
  mkState (sessions st) (agentIdCounter st) (carryOverStats st) u.

Definition upd_toolCalls (f : Z → Z) (s : Stats) : Stats :=
  mkStats (f (toolCalls s)) (filesAccessed s) (estimatedTokens s)
    (linesAdded s) (linesRemoved s) (turns s) (errors s).
Definition upd_filesAccessed (f : Z → Z) (s : Stats) : Stats :=
  mkStats (toolCalls s) (f (filesAccessed s)) (estimatedTokens s)
    (linesAdded s) (linesRemoved s) (turns s) (errors s).
Definition upd_estimatedTokens (f : Z → Z) (s : Stats) : Stats :=
  mkStats (toolCalls s) (filesAccessed s) (f (estimatedTokens s))
    (linesAdded s) (linesRemoved s) (turns s) (errors s).
Definition upd_linesAdded (f : Z → Z) (s : Stats) : Stats :=
  mkStats (toolCalls s) (filesAccessed s) (estimatedTokens s)
    (f (linesAdded s)) (linesRemoved s) (turns s) (errors s).
Definition upd_linesRemoved (f : Z → Z) (s : Stats) : Stats :=
  mkStats (toolCalls s) (filesAccessed s) (estimatedTokens s)
    (linesAdded s) (f (linesRemoved s)) (turns s) (errors s).
Definition upd_turns (f : Z → Z) (s : Stats) : Stats :=
  mkStats (toolCalls s) (filesAccessed s) (estimatedTokens s)
    (linesAdded s) (linesRemoved s) (f (turns s)) (errors s).
Definition upd_errors (f : Z → Z) (s : Stats) : Stats :=
  mkStats (toolCalls s) (filesAccessed s) (estimatedTokens s)
    (linesAdded s) (linesRemoved s) (turns s) (f (errors s)).

Definition zeroStats : Stats := mkStats 0 0 0 0 0 0 0.

(** Counter-wise sum: the seven [carryOverStats.x += s.stats.x || 0]
    lines.  A counter is always a number, so [|| 0] changes nothing. *)
Definition addStats (c s : Stats) : Stats :=
  mkStats (toolCalls c + toolCalls s) (filesAccessed c + filesAccessed s)
    (estimatedTokens c + estimatedTokens s) (linesAdded c + linesAdded s)
    (linesRemoved c + linesRemoved s) (turns c + turns s) (errors c + errors s).

(** ** Names *)

Definition AGENT_NAMES : list string :=
  [ "Nova"; "Cipher"; "Pulse"; "Drift"; "Flux"; "Spark"; "Haze"; "Bolt";
    "Shade"; "Prism"; "Ghost"; "Rune"; "Jinx"; "Nyx"; "Echo"; "Blitz";
    "Vex"; "Onyx"; "Wren"; "Ash"; "Hex"; "Arc"; "Lux"; "Sable";
    "Zephyr"; "Ember"; "Pixel"; "Glitch"; "Dusk"; "Crux"; "Iris"; "Opal";
    "Volt"; "Cobalt"; "Radix"; "Strobe"; "Nebula"; "Apex"; "Flint"; "Sage";
    "Aether"; "Nimbus"; "Vesper"; "Solace"; "Quasar"; "Tempest"; "Wraith";
    "Spectre"; "Homie" ]%string.

(** [pickAgentName]: [draw] stands for the random number; the index
    [Math.floor(Math.random() * pool.length)] is some index of the pool. *)
Definition pickAgentName (draw : nat) (used : gset string) : string * gset string :=
  let available := filter (λ n, n ∉ used) AGENT_NAMES in
  let pool := match available with [] => AGENT_NAMES | _ => available end in
  let name := default EmptyString (pool !! (draw mod length pool)%nat) in
  (name, {[name]} ∪ used).

(** ** Source detection *)

Definition detectSource (event : Event) : string :=
  match truthy_str (ev_source event) with
  | Some s => s
  | None =>
      let sid := default EmptyString (truthy_str (ev_session_id event)) in
      if String.prefix "oc-" sid then "opencode"%string else "claudecode"%string
  end.

(** ** Session store *)

Definition createSessionState (sessionId : string) (timestamp : option Z)
    (source : string) : SessionState :=
  {| session := {| s_id := sessionId; s_startedAt := timestamp;
                   s_status := SActive; s_endedAt := None;
                   s_source := default "unknown"%string (truthy_str (Some source));
                   s_model := None |};
     agents := [];
     timeline := [];
     files := ∅;
     stats := zeroStats;
     stats_startedAt := timestamp;
     pendingToolCalls := ∅;
     lastActivity := timestamp |}.

Definition getSession (sessionId : string) (st : State) : option SessionState :=
  sessions st !! sessionId.

(** [getOrCreateSession] returns the session object; the caller writes it
    back with [putSession], which is where a creation becomes visible in
    the map. *)
Definition getOrCreateSession (sessionId : string) (timestamp : option Z)
    (source : string) (st : State) : SessionState :=
  let ss := match sessions st !! sessionId with
            | Some ss => ss
            | None => createSessionState sessionId timestamp source
            end in
  if bool_decide (source ≠ EmptyString) && bool_decide (s_source (session ss) = "unknown"%string)
  then with_session (set_source source (session ss)) ss
  else ss.

Definition putSession (sessionId : string) (ss : SessionState) (st : State) : State :=
  with_sessions (<[sessionId := ss]> (sessions st)) st.

(** [ss.agents.find(a => a.type === 'main')]: first match, with its index. *)
Definition findMain (l : list Agent) : option (nat * Agent) :=
  list_find (λ a, a_type a = Main) l.

Definition reactivateIfEnded (ss : SessionState) (timestamp : option Z) : SessionState :=
  let ss1 :=
    if decide (s_status (session ss) = SEnded) then
      let ss' := with_session (set_endedAt None (set_status SActive (session ss))) ss in
      match findMain (agents ss') with
      | Some (i, main) =>
          if decide (a_status main = ACompleted)
          then with_agents (alter (agent_set_status AActive None) i (agents ss')) ss'
          else ss'
      | None => ss'
      end
    else ss in
  with_lastActivity timestamp ss1.

(** ** Lifecycle pruner *)

(** [STALE_TIMEOUT = config.staleTimeout || 5 * 60 * 1000] *)
Definition STALE_TIMEOUT (config : Config) : Z :=
  match staleTimeout config with
  | Some t => if t =? 0 then 300000 else t
  | None => 300000
  end.

(** [for (const a of s.agents) { if (a.type === 'main') usedNames.delete(a.name); }] *)
Definition releaseMainNames (l : list Agent) (used : gset string) : gset string :=
  foldl (λ u a, if decide (a_type a = Main) then u ∖ {[a_name a]} else u) used l.

(** [if (agent.status === 'active') { agent.status = 'completed'; agent.completedAt = t; }] *)
Definition completeIfActive (t : option Z) (a : Agent) : Agent :=
  if decide (a_status a = AActive) then agent_set_status ACompleted t a else a.

Definition endSession (t : option Z) (s : SessionState) : SessionState :=
  with_agents (completeIfActive t <$> agents s)
    (with_session (set_endedAt t (set_status SEnded (session s))) s).

(** The three tests of the loop body, in the order the source makes them. *)
Definition retentionDue (now : Z) (s : SessionState) : bool :=
  bool_decide (s_status (session s) = SEnded)
  && js_truthy_lt (s_endedAt (session s)) (now - 2 * 60 * 1000).

Definition ghostDue (now : Z) (s : SessionState) : bool :=
  bool_decide (s_status (session s) = SActive)
  && (toolCalls (stats s) =? 0)
  && js_idle_gt now (lastActivity s) 15000.

Definition staleDue (config : Config) (now : Z) (s : SessionState) : bool :=
  bool_decide (s_status (session s) = SActive)
  && js_idle_gt now (lastActivity s) (STALE_TIMEOUT config).

(** One iteration of [for (const [id, s] of sessions)]. *)
Definition pruneOne (config : Config) (now : Z) (st : State)
    (entry : string * SessionState) : State :=
  let '(id, s) := entry in
  if retentionDue now s then
    mkState (delete id (sessions st)) (agentIdCounter st)
      (addStats (carryOverStats st) (stats s))
      (releaseMainNames (agents s) (usedNames st))
  else if ghostDue now s then
    mkState (delete id (sessions st)) (agentIdCounter st)
      (carryOverStats st)
      (releaseMainNames (agents s) (usedNames st))
  else if staleDue config now s then
    with_sessions (<[id := endSession (Some now) s]> (sessions st)) st
  else st.

(** [now] is the reading of [Date.now()] at the start of the sweep. *)
Definition pruneStaleAndEndedSessions (config : Config) (now : Z) (st : State) : State :=
  foldl (pruneOne config now) st (map_to_list (sessions st)).

(** ** Agent management *)

Definition getOrCreateMainAgent (env : Env) (st : State) (ss : SessionState)
    : State * SessionState * (nat * Agent) :=
  match findMain (agents ss) with
  | Some im => (st, ss, im)
  | None =>
      let '(name, used) := pickAgentName (env_name_draw env) (usedNames st) in
      let main :=
        {| a_id := agentIdCounter st; a_name := name; a_type := Main;
           a_subagentType := None; a_model := None; a_parentId := None;
           a_sessionId := s_id (session ss);
           a_source := default "unknown"%string (truthy_str (Some (s_source (session ss))));
           a_status := AActive; a_completedAt := None;
           a_toolCalls := []; a_toolCallCount := 0 |} in
      (mkState (sessions st) (S (agentIdCounter st)) (carryOverStats st) used,
       with_agents (agents ss ++ [main]) ss,
       (length (agents ss), main))
  end.

Definition spawnSubagent (st : State) (ss : SessionState) (parentId : nat)
    (taskInput : option ToolInput) : State * SessionState * Agent :=
  let subType := default "general-purpose"%string
                   (truthy_str (taskInput ≫= ti_subagent_type)) in
  let desc := default "Subagent"%string (truthy_str (taskInput ≫= ti_description)) in
  let agent :=
    {| a_id := agentIdCounter st; a_name := desc; a_type := Subagent;
       a_subagentType := Some subType;
       a_model := truthy_str (taskInput ≫= ti_model);
       a_parentId := Some parentId;
       a_sessionId := s_id (session ss);
       a_source := default "unknown"%string (truthy_str (Some (s_source (session ss))));
       a_status := AActive; a_completedAt := None;
       a_toolCalls := []; a_toolCallCount := 0 |} in
  (mkState (sessions st) (S (agentIdCounter st)) (carryOverStats st) (usedNames st),
   with_agents (agents ss ++ [agent]) ss,
   agent).

(** Index of the last element satisfying [P]: what a scan from the end of
    the list, stopping at the first hit, returns. *)
Fixpoint findLastIndex {A} (P : A → bool) (l : list A) : option nat :=
  match l with
  | [] => None
  | x :: r =>
      match findLastIndex P r with
      | Some i => Some (S i)
      | None => if P x then Some 0%nat else None
      end
  end.

(** [findActiveAgent] as an index into [ss.agents]: the last active agent,
    else [ss.agents[0]] when there is one, else [null]. *)
Definition findActiveAgentIndex (l : list Agent) : option nat :=
  match findLastIndex (λ a, bool_decide (a_status a = AActive)) l with
  | Some i => Some i
  | None => match l with [] => None | _ => Some 0%nat end
  end.

Definition findActiveAgentAt (l : list Agent) : option (nat * Agent) :=
  i ← findActiveAgentIndex l; a ← l !! i; Some (i, a).

Definition findActiveAgent (ss : SessionState) : option Agent :=
  snd <$> findActiveAgentAt (agents ss).

(** ** Statistics helpers *)

Fixpoint countNewlines (s : string) : nat :=
  match s with
  | EmptyString => 0%nat
  | String c r => ((if Ascii.eqb c (Ascii.ascii_of_nat 10) then 1 else 0) + countNewlines r)%nat
  end.

(** [countLines(str)]: [0] for a falsy argument, else newlines plus one. *)
Definition countLines (str : option string) : Z :=
  match truthy_str str with
  | Some s => Z.of_nat (countNewlines s) + 1
  | None => 0
  end.

(** [Math.ceil(str.length / 4)] *)
Definition ceilDiv4 (len : nat) : Z := (Z.of_nat len + 3) / 4.

Definition estimateTokens (text : option string) : Z :=
  match text with
  | Some s => ceilDiv4 (String.length s)
  | None => 0
  end.

Definition lowerAscii (c : Ascii.ascii) : Ascii.ascii :=
  let n := Ascii.nat_of_ascii c in
  if ((65 <=? n) && (n <=? 90))%nat then Ascii.ascii_of_nat (n + 32) else c.

Fixpoint toLowerCase (s : string) : string :=
  match s with
  | EmptyString => EmptyString
  | String c r => String (lowerAscii c) (toLowerCase r)
  end.

Fixpoint includes (s pat : string) : bool :=
  String.prefix pat s ||
  match s with
  | EmptyString => false
  | String _ r => includes r pat
  end.

Definition detectError (response : option ToolResponse) : bool :=
  match response with
  | None => false
  | Some r =>
      if tr_error_flag r then true
      else if (2000 <? String.length (tr_text r))%nat then false
      else
        let lower := toLowerCase (String.substring 0 500 (tr_text r)) in
        includes lower "command failed" || includes lower "exit code"
        || includes lower "error:" || includes lower "fatal:"
        || includes lower "traceback (most recent"
  end.

Definition addTimelineEvent (config : Config) (ss : SessionState)
    (timestamp : option Z) (type : TimelineKind) (agentId : nat) : SessionState :=
  let tl := timeline ss ++ [mkTimelineEvent timestamp type agentId] in
  let max := match maxTimelineEvents config with
             | Some (S m) => S m
             | _ => 1000%nat
             end in
  with_timeline (if (max <? length tl)%nat then drop (length tl - max) tl else tl) ss.

Definition trackedPath (toolName : string) (toolInput : option ToolInput) : option string :=
  if bool_decide (toolName ∈ ["Read"; "Edit"; "Write"]%string)
  then or_str (toolInput ≫= ti_file_path) (toolInput ≫= ti_path)
  else if bool_decide (toolName = "Glob"%string) then truthy_str (toolInput ≫= ti_pattern)
  else if bool_decide (toolName = "Grep"%string) then truthy_str (toolInput ≫= ti_path)
  else None.

Definition trackLines (toolName : string) (toolInput : option ToolInput) (s : Stats) : Stats :=
  match toolInput with
  | None => s
  | Some inp =>
      if bool_decide (toolName = "Write"%string)
         && bool_decide (is_Some (truthy_str (ti_content inp)))
      then upd_linesAdded (λ n, n + countLines (ti_content inp)) s
      else if bool_decide (toolName = "Edit"%string) then
        let oldLines := countLines (ti_old_string inp) in
        let newLines := countLines (ti_new_string inp) in
        if oldLines <? newLines then upd_linesAdded (λ n, n + (newLines - oldLines)) s
        else if newLines <? oldLines then upd_linesRemoved (λ n, n + (oldLines - newLines)) s
        else s
      else s
  end.

Definition trackFileAccess (ss : SessionState) (toolName : string)
    (toolInput : option ToolInput) (timestamp : option Z) : SessionState :=
  let ss1 := with_stats (trackLines toolName toolInput (stats ss)) ss in
  match trackedPath toolName toolInput with
  | None => ss1
  | Some filePath =>
      match files ss1 !! filePath with
      | Some existing =>
          with_files (<[filePath := mkFileInfo (f_accessCount existing + 1) timestamp
                                      (f_tool existing)]> (files ss1)) ss1
      | None =>
          with_stats (upd_filesAccessed (λ n, n + 1) (stats ss1))
            (with_files (<[filePath := mkFileInfo 1 timestamp toolName]> (files ss1)) ss1)
      end
  end.

(** ** Summaries that throw *)

(** [summarizeInput] looks the tool name up in an object literal,
    [const fn = cases[toolName]], and calls what it finds, [fn()].  For the
    name of a member that a plain object inherits from [Object.prototype]
    it finds that member.  Called without a receiver, [valueOf],
    [hasOwnProperty], [propertyIsEnumerable], [toLocaleString] and the four
    [__defineGetter__], [__defineSetter__], [__lookupGetter__],
    [__lookupSetter__] throw a [TypeError] (they convert [this] to an
    object), and [__proto__] yields the prototype object, which is not a
    function.  The other inherited members return a value:
    [constructor] an empty object, [toString] a string, [isPrototypeOf]
    [false]. *)
Definition THROWING_MEMBERS : list string :=
  [ "valueOf"; "hasOwnProperty"; "propertyIsEnumerable"; "toLocaleString";
    "__proto__"; "__defineGetter__"; "__defineSetter__";
    "__lookupGetter__"; "__lookupSetter__" ]%string.

(** Whether [summarizeInput(toolName, input)] throws.  [if (!input) return
    null] comes first. *)
Definition summarizeInputThrows (toolName : string) (input : option ToolInput) : bool :=
  bool_decide (is_Some input) && bool_decide (toolName ∈ THROWING_MEMBERS).

(** Whether [summarizeOutput(toolName, output)] throws.  [if (!output)
    return null] comes first. *)
Definition summarizeOutputThrows (response : option ToolResponse) : bool :=
  match response with
  | Some r => tr_summary_throws r
  | None => false
  end.

(** ** Completion of a pending tool call *)

Definition completeCall (timestamp : option Z) (isError : bool) (tc : ToolCall) : ToolCall :=
  mkToolCall (tc_id tc) (tc_tool tc) (tc_startedAt tc) timestamp
    (if isError then Error else Completed).

(** [toolCall.completedAt = timestamp] alone: what has been done to the
    call when [summarizeOutput], on the next line, throws. *)
Definition stampCall (timestamp : option Z) (tc : ToolCall) : ToolCall :=
  mkToolCall (tc_id tc) (tc_tool tc) (tc_startedAt tc) timestamp (tc_status tc).

(** [a.toolCalls.find(tc => tc.id === pendingId)], as an index. *)
Definition findCall (pendingId : ToolCallId) (l : list ToolCall) : option nat :=
  fst <$> list_find (λ tc, tc_id tc = pendingId) l.

(** The loop [for (const a of ss.agents) { toolCall = a.toolCalls.find(..);
    if (toolCall) break; }]: position (agent index, call index) of the
    first call carrying the id. *)
Fixpoint locateCall (pendingId : ToolCallId) (l : list Agent) : option (nat * nat) :=
  match l with
  | [] => None
  | a :: r =>
      match findCall pendingId (a_toolCalls a) with
      | Some j => Some (0%nat, j)
      | None => prod_map S Datatypes.id <$> locateCall pendingId r
      end
  end.

(** ** Event processing *)

(** [const sid = session_id || 'unknown'] *)
Definition eventSid (event : Event) : string :=
  default "unknown"%string (truthy_str (ev_session_id event)).

(** [if (model && !mainAgent.model) { mainAgent.model = model; ss.session.model = model; }] *)
Definition captureModel (model : option string) (mi : nat) (mainAgent : Agent)
    (ss : SessionState) : SessionState :=
  match truthy_str model with
  | Some m =>
      if bool_decide (truthy_str (a_model mainAgent) = None)
      then with_session (set_model (Some m) (session ss))
             (with_agents (alter (agent_set_model (Some m)) mi (agents ss)) ss)
      else ss
  | None => ss
  end.

(** The body of [if (agent) { ... }] in [case 'pre'].  The tool-call
    object is built first, and building it calls [summarizeInput]: when
    that throws, nothing of the body has been done. *)
Definition recordToolStart (config : Config) (env : Env) (event : Event)
    (i : nat) (agent : Agent) (ss : SessionState) : SessionState :=
  let tool_name := ev_tool_name event in
  let timestamp := ev_timestamp event in
  if summarizeInputThrows tool_name (ev_tool_input event) then ss else
  let toolCall :=
    {| tc_id := (env_clock env, env_suffix env); tc_tool := tool_name;
       tc_startedAt := timestamp; tc_completedAt := None;
       tc_status := Executing |} in
  let ss1 := with_agents (alter (agent_push_toolCall toolCall) i (agents ss)) ss in
  let ss2 := with_stats (upd_toolCalls (λ n, n + 1) (stats ss1)) ss1 in
  let ss3 := with_stats (upd_estimatedTokens
                 (λ n, n + estimateTokens (ti_text <$> ev_tool_input event)) (stats ss2)) ss2 in
  let ss4 := with_pending (<[tool_name := tc_id toolCall]> (pendingToolCalls ss3)) ss3 in
  let ss5 := trackFileAccess ss4 tool_name (ev_tool_input event) timestamp in
  addTimelineEvent config ss5 timestamp ToolStart (a_id agent).

(** The lookup and completion of the pending call in [case 'post']:
    the state it leaves, whether it runs to its end or is cut short.  The
    marker is deleted as soon as it has been read; when a call is found its
    completion time is stamped, then [summarizeOutput] is called, and only
    after it the status is set and the error counted. *)
Definition settlePending (event : Event) (ss : SessionState) : SessionState :=
  let tool_name := ev_tool_name event in
  match pendingToolCalls ss !! tool_name with
  | None => ss
  | Some pendingId =>
      let ss1 := with_pending (delete tool_name (pendingToolCalls ss)) ss in
      match locateCall pendingId (agents ss) with
      | None => ss1
      | Some (i, j) =>
          if summarizeOutputThrows (ev_tool_response event) then
            with_agents
              (alter (λ a, agent_set_toolCalls
                             (alter (stampCall (ev_timestamp event)) j
                                    (a_toolCalls a)) a)
                     i (agents ss1)) ss1
          else
          let isError := detectError (ev_tool_response event) in
          let ss2 :=
            with_agents
              (alter (λ a, agent_set_toolCalls
                             (alter (completeCall (ev_timestamp event) isError) j
                                    (a_toolCalls a)) a)
                     i (agents ss1)) ss1 in
          if isError then with_stats (upd_errors (λ n, n + 1) (stats ss2)) ss2 else ss2
      end
  end.

(** [[...ss.agents].reverse().find(a => a.type === 'subagent' && a.status === 'active')]
    followed by its completion. *)
Definition completeLastSubagent (timestamp : option Z) (ss : SessionState) : SessionState :=
  match findLastIndex
          (λ a, bool_decide (a_type a = Subagent) && bool_decide (a_status a = AActive))
          (agents ss) with
  | Some k => with_agents (alter (agent_set_status ACompleted timestamp) k (agents ss)) ss
  | None => ss
  end.

(** Whether [settlePending] is cut short: [summarizeOutput] is called
    only when a pending call has been found. *)
Definition settleThrows (event : Event) (ss : SessionState) : bool :=
  match pendingToolCalls ss !! ev_tool_name event with
  | None => false
  | Some pendingId =>
      bool_decide (is_Some (locateCall pendingId (agents ss)))
      && summarizeOutputThrows (ev_tool_response event)
  end.

(** The body of [if (agent) { ... }] in [case 'post'].  When the
    completion is cut short, the token estimate, the completion of the
    subagent and the timeline entry that follow it are not reached. *)
Definition recordToolEnd (config : Config) (event : Event) (agent : Agent)
    (ss : SessionState) : SessionState :=
  let ss1 := settlePending event ss in
  if settleThrows event ss then ss1 else
  let ss2 := with_stats (upd_estimatedTokens
                 (λ n, n + estimateTokens (tr_text <$> ev_tool_response event)) (stats ss1)) ss1 in
  let ss3 := if bool_decide (ev_tool_name event = "Task"%string)
             then completeLastSubagent (ev_timestamp event) ss2 else ss2 in
  addTimelineEvent config ss3 (ev_timestamp event) ToolEnd (a_id agent).

Definition processEvent (config : Config) (env : Env) (event : Event) (st : State) : State :=
  let timestamp := ev_timestamp event in
  let tool_name := ev_tool_name event in
  let sid := eventSid event in
  let source := detectSource event in
  match ev_phase event with
  | SessionStart =>
      let st0 :=
        match sessions st !! sid with
        | Some old =>
            mkState (delete sid (sessions st)) (agentIdCounter st)
              (addStats (carryOverStats st) (stats old)) (usedNames st)
        | None => st
        end in
      let ss := getOrCreateSession sid timestamp source st0 in
      let '(st1, ss1, _) := getOrCreateMainAgent env st0 ss in
      putSession sid ss1 st1
  | SessionEnd =>
      match getSession sid st with
      | Some ss => putSession sid (endSession timestamp ss) st
      | None => st
      end
  | Pre =>
      let ss := getOrCreateSession sid timestamp source st in
      let ss1 := reactivateIfEnded ss timestamp in
      let '(st1, ss2, (mi, mainAgent)) := getOrCreateMainAgent env st ss1 in
      let ss3 := captureModel (ev_model event) mi mainAgent ss2 in
      let '(st2, ss4) :=
        if bool_decide (tool_name = "Task"%string) then
          let '(st', ss', sub) := spawnSubagent st1 ss3 (a_id mainAgent) (ev_tool_input event) in
          (st', addTimelineEvent config ss' timestamp AgentSpawn (a_id sub))
        else (st1, ss3) in
      let ss5 :=
        match findActiveAgentAt (agents ss4) with
        | Some (i, agent) => recordToolStart config env event i agent ss4
        | None => ss4
        end in
      putSession sid ss5 st2
  | Post =>
      let ss := getOrCreateSession sid timestamp source st in
      let ss1 := reactivateIfEnded ss timestamp in
      let ss2 :=
        match findActiveAgentAt (agents ss1) with
        | Some (_, agent) => recordToolEnd config event agent ss1
        | None => ss1
        end in
      putSession sid ss2 st
  | Notification =>
      let ss := getOrCreateSession sid timestamp source st in
      let ss1 := reactivateIfEnded ss timestamp in
      let ss2 := with_stats (upd_turns (λ n, n + 1) (stats ss1)) ss1 in
      let ss3 :=
        match findActiveAgentAt (agents ss2) with
        | Some (_, agent) => addTimelineEvent config ss2 timestamp AgentResponse (a_id agent)
        | None => ss2
        end in
      putSession sid ss3 st
  | Unrecognized => st
  end.

(** Whether [processEvent] throws.  In [case 'pre'] an agent is always
    found, the main agent having just been looked up or created. *)
Definition processEventThrows (event : Event) (st : State) : bool :=
  match ev_phase event with
  | Pre => summarizeInputThrows (ev_tool_name event) (ev_tool_input event)
  | Post =>
      let ss := getOrCreateSession (eventSid event) (ev_timestamp event)
                  (detectSource event) st in
      let ss1 := reactivateIfEnded ss (ev_timestamp event) in
      match findActiveAgentAt (agents ss1) with
      | Some _ => settleThrows event ss1
      | None => false
      end
  | _ => false
  end.

(** ** Public state *)

Record PublicState := mkPublicState {
  ps_sessions : list SessionInfo;
  ps_agents : list Agent;
  ps_stats : Stats;
  ps_activeTools : nat;
  ps_sessionCount : nat
}.

(** The part of [getPublicState] that the statistics and the session list
    are built from: the loop over [sessions] starts from the carry-over
    counters and adds every live session's.  [ps_sessions] and [ps_agents]
    hold the entries the source pushes, session by session, but in the
    order of the [gmap] and not in the insertion order of the [Map]. *)
Definition getPublicState (st : State) : PublicState :=
  let l := map_to_list (sessions st) in
  {| ps_sessions := (λ e, session e.2) <$> l;
     ps_agents := l ≫= (λ e, (λ a, agent_set_toolCalls
                                      (drop (length (a_toolCalls a) - 50) (a_toolCalls a)) a)
                               <$> agents e.2);
     ps_stats := foldl (λ acc e, addStats acc (stats e.2)) (carryOverStats st) l;
     ps_activeTools := foldl (λ n e, (n + size (pendingToolCalls e.2))%nat) 0%nat l;
     ps_sessionCount := size (sessions st) |}.

Definition initialState : State := mkState ∅ 0 zeroStats ∅.

(** ** Vocabulary of the statements *)

(** Every tool call recorded in a session, agent by agent. *)
Definition allToolCalls (l : list Agent) : list ToolCall := l ≫= a_toolCalls.
Arguments allToolCalls : simpl never.

Definition sessionToolCalls (st : State) (sid : string) : list ToolCall :=
  match sessions st !! sid with
  | Some ss => allToolCalls (agents ss)
  | None => []
  end.

(** The pending markers of session [sid]; none when there is no such
    session. *)
Definition sessionPending (st : State) (sid : string) : gmap string ToolCallId :=
  match sessions st !! sid with
  | Some ss => pendingToolCalls ss
  | None => ∅
  end.

(** What [case 'post'] has done to the call it found when it stops:
    stamped and given its final status, or only stamped when
    [summarizeOutput] threw in between. *)
Definition settleCall (event : Event) (tc : ToolCall) : ToolCall :=
  if summarizeOutputThrows (ev_tool_response event)
  then stampCall (ev_timestamp event) tc
  else completeCall (ev_timestamp event) (detectError (ev_tool_response event)) tc.

(** Number of calls of tool [t] in state [executing]. *)
Definition executingCount (t : string) (l : list ToolCall) : nat :=
  length (filter (λ tc, tc_tool tc = t ∧ tc_status tc = Executing) l).

(** The counters of session [sid]; all zero when there is no such session. *)
Definition sessionStats (st : State) (sid : string) : Stats :=
  match sessions st !! sid with
  | Some s => stats s
  | None => zeroStats
  end.

(** Counter-wise order on statistics. *)
Definition stats_le (a b : Stats) : Prop :=
  toolCalls a ≤ toolCalls b ∧ filesAccessed a ≤ filesAccessed b ∧
  estimatedTokens a ≤ estimatedTokens b ∧ linesAdded a ≤ linesAdded b ∧
  linesRemoved a ≤ linesRemoved b ∧ turns a ≤ turns b ∧ errors a ≤ errors b.

(** Sum of the counters of a list of map entries. *)
Definition sumStats (l : list (string * SessionState)) : Stats :=
  foldr (λ e acc, addStats (stats e.2) acc) zeroStats l.

(** The totals reported in the public state. *)
Definition totals (st : State) : Stats := ps_stats (getPublicState st).

(** What one pass of the pruner does to a session: [None] when it is
    deleted. *)
Definition pruneSession (config : Config) (now : Z) (s : SessionState)
    : option SessionState :=
  if retentionDue now s || ghostDue now s then None
  else if staleDue config now s then Some (endSession (Some now) s)
  else Some s.

(** Counters folded into the carry-over by one pass over the entries [l]. *)
Definition foldedStats (now : Z) (l : list (string * SessionState)) : Stats :=
  foldr (λ e acc, if retentionDue now e.2 then addStats (stats e.2) acc else acc)
    zeroStats l.

(** Every session is stored under its own identifier. *)
Definition keysMatch (st : State) : Prop :=
  map_Forall (λ k ss, s_id (session ss) = k) (sessions st).

(** Agents related position by position, keeping identifier, type, parent
    and status. *)
Definition sameIdentity (a a' : Agent) : Prop :=
  a_id a' = a_id a ∧ a_type a' = a_type a ∧ a_parentId a' = a_parentId a ∧
  a_status a' = a_status a.

(** ** Runs of the core *)

(** One operation of the core: an event is processed, or the pruner makes
    a pass.  The configuration may differ from one operation to the next. *)
Inductive step : State → State → Prop :=
| step_event config env event st :
    step st (processEvent config env event st)
| step_prune config now st :
    step st (pruneStaleAndEndedSessions config now st).

Definition reachable (st : State) : Prop := rtc step initialState st.

(** Agent [a] is at position [i] of session [sid]. *)
Definition holdsAgent (st : State) (sid : string) (i : nat) (a : Agent) : Prop :=
  ∃ ss, sessions st !! sid = Some ss ∧ agents ss !! i = Some a.

(** What an operation may do to an agent it keeps: identifier and type are
    kept, and a completed subagent stays completed. *)
Definition agentEvolves (a a' : Agent) : Prop :=
  a_id a' = a_id a ∧ a_type a' = a_type a ∧
  (a_type a = Subagent → a_status a = ACompleted → a_status a' = ACompleted).

(** [l'] is [l] with its agents evolved, followed by new agents whose
    identifiers are drawn from the counter, going from [c] to [c']. *)
Definition extends (c : nat) (l l' : list Agent) (c' : nat) : Prop :=
  ∃ kept new,
    l' = kept ++ new ∧ Forall2 agentEvolves l kept ∧
    a_id <$> new = seq c (length new) ∧ c' = (c + length new)%nat.

(** Identifiers are below the counter and identify one position. *)
Definition idsBelowCounter (st : State) : Prop :=
  ∀ sid i a, holdsAgent st sid i a → (a_id a < agentIdCounter st)%nat.

Definition idsUnique (st : State) : Prop :=
  ∀ sid1 i1 a1 sid2 i2 a2,
    holdsAgent st sid1 i1 a1 → holdsAgent st sid2 i2 a2 →
    a_id a1 = a_id a2 → sid1 = sid2 ∧ i1 = i2.

(** Every agent carrying identifier [n] is a completed subagent. *)
Definition completedSubagent (n : nat) (st : State) : Prop :=
  ∀ sid i a, holdsAgent st sid i a → a_id a = n →
             a_type a = Subagent ∧ a_status a = ACompleted.

(** ** The disconnect command *)

(** Modelled from the spec: the handler of the administrative command
    [POST /api/admin/disconnect?source=X].  The worker source at hand has
    no such route; only its caller [cmdOff] is present.  Following the
    administrative boundary of the specification (remove only the sessions
    matching the source tag, leave the others untouched) and its
    [delete(sessionId)] operation (fold the statistics into the carry-over,
    release the main agent's name, remove the session), one deletion is
    made for every session carrying the tag. *)
Definition disconnectOne (platform : string) (st : State)
    (entry : string * SessionState) : State :=
  let '(id, s) := entry in
  if bool_decide (s_source (session s) = platform) then
    mkState (delete id (sessions st)) (agentIdCounter st)
      (addStats (carryOverStats st) (stats s))
      (releaseMainNames (agents s) (usedNames st))
  else st.

Definition disconnectSource (platform : string) (st : State) : State :=
  foldl (disconnectOne platform) st (map_to_list (sessions st)).

(** ** Sample inputs *)

Definition cfg0 : Config := mkConfig None None.

Definition mkEv (p : Phase) (ts : option Z) (sid tool : string) : Event :=
  mkEvent p ts (Some sid) None tool None None None.

(** Lifecycle events carry no tool name; the field is not read for them. *)
Definition mkSessionEv (p : Phase) (ts : option Z) (sid : string) : Event :=
  mkEv p ts sid EmptyString.

Definition envA : Env := mkEnv 0 1000 "k3f9".
Definition envB : Env := mkEnv 0 1001 "q7zd".
Definition envC : Env := mkEnv 0 1002 "m2xa".

(** Scenario A of the specification: [session_start] for ["s1"], then a
    [pre] event of tool ["Read"]. *)
Definition stStarted : State :=
  processEvent cfg0 envA (mkSessionEv SessionStart (Some 5) "s1") initialState.
Definition stRead : State :=
  processEvent cfg0 envA (mkEv Pre (Some 10) "s1" "Read") stStarted.

(** A second [pre] of the same tool, with no [post] in between. *)
Definition stReadTwice : State :=
  processEvent cfg0 envB (mkEv Pre (Some 11) "s1" "Read") stRead.

(** The first call completed. *)
Definition stReadDone : State :=
  processEvent cfg0 envB (mkEv Post (Some 12) "s1" "Read") stRead.

(** The completed call again, all in the millisecond of the first [pre]:
    the clock reads 1000 throughout. *)
Definition stReadDoneSameMs : State :=
  processEvent cfg0 envA (mkEv Post (Some 10) "s1" "Read") stRead.

(** A new [pre] in that same millisecond for which the random suffix
    repeats: the new call carries the identifier of the completed one. *)
Definition stReadAgainSameId : State :=
  processEvent cfg0 envA (mkEv Pre (Some 10) "s1" "Read") stReadDoneSameMs.
Definition stReadAgainPost : State :=
  processEvent cfg0 envA (mkEv Post (Some 11) "s1" "Read") stReadAgainSameId.

(** Scenario B: a [pre] of the spawn tool. *)
Definition stTask : State :=
  processEvent cfg0 envB (mkEv Pre (Some 11) "s1" "Task") stRead.

(** A second spawn while the first subagent is still the active agent. *)
Definition stTaskNested : State :=
  processEvent cfg0 envC (mkEv Pre (Some 12) "s1" "Task") stTask.

(** Scenario C: the [post] of the spawn tool completes the subagent. *)
Definition stTaskDone : State :=
  processEvent cfg0 envC (mkEv Post (Some 12) "s1" "Task") stTask.

(** The session is ended, then revived by a further [pre] event. *)
Definition stRevived : State :=
  processEvent cfg0 envC (mkEv Pre (Some 40) "s1" "Bash")
    (processEvent cfg0 envC (mkSessionEv SessionEnd (Some 30) "s1") stTaskDone).


(** A session started and then left alone: no tool call recorded. *)
Definition stGhost : State :=
  processEvent cfg0 envB (mkSessionEv SessionStart (Some 7) "g1") stRead.

(** An ended session, next to a live one: ["s1"] ended at 20 and ["g1"]
    started at 120000. *)
Definition stEnded : State :=
  processEvent cfg0 envC (mkSessionEv SessionStart (Some 120000) "g1")
    (processEvent cfg0 envB (mkSessionEv SessionEnd (Some 20) "s1") stRead).

(** [session_start] for ["s1"] again, while ["s1"] exists with a main agent
    named ["Nova"] and one recorded tool call. *)
Definition stRestarted : State :=
  processEvent cfg0 envB (mkSessionEv SessionStart (Some 20) "s1") stRead.

(** Sessions of both platforms side by side. *)
Definition stTwoPlatforms : State :=
  processEvent cfg0 envC
    (mkEvent Pre (Some 30) (Some "oc-7"%string) None "Bash"%string None None None) stRead.

(** An ended session whose main agent is completed, with a completed
    subagent. *)
Definition sampleEnded : SessionState :=
  {| session := mkSessionInfo "s1" (Some 5) SEnded (Some 30) "claudecode" None;
     agents :=
       [ mkAgent 0 "Nova" Main None None None "s1" "claudecode"
           ACompleted (Some 30) [] 0;
         mkAgent 1 "explore" Subagent (Some "general-purpose"%string) None (Some 0%nat)
           "s1" "claudecode" ACompleted (Some 12) [] 0 ];
     timeline := []; files := ∅; stats := zeroStats; stats_startedAt := Some 5;
     pendingToolCalls := ∅; lastActivity := Some 30 |}.

(** ** Invariants of the reachable states *)

(** The agents of a session form a flat tree: no agent at all, or a main
    agent first, followed by subagents whose parent is that main agent. *)
Definition agentTree (ss : SessionState) : Prop :=
  agents ss = [] ∨
  ∃ main subs,
    agents ss = main :: subs ∧ a_type main = Main ∧ a_parentId main = None ∧
    Forall (λ a, a_type a = Subagent ∧ a_parentId a = Some (a_id main)) subs.

(** Agents related position by position, keeping identifier, type and
    parent. *)
Definition sameShape (a a' : Agent) : Prop :=
  a_id a' = a_id a ∧ a_type a' = a_type a ∧ a_parentId a' = a_parentId a.

(** Per-agent bookkeeping: the running count is the number of recorded
    calls, the agent names the session that holds it, and its source tag
    is not empty. *)
Definition agentBooked (sid : string) (a : Agent) : Prop :=
  a_toolCallCount a = Z.of_nat (length (a_toolCalls a)) ∧ a_sessionId a = sid ∧
  a_source a ≠ EmptyString.

Definition agentsBooked (ss : SessionState) : Prop :=
  Forall (agentBooked (s_id (session ss))) (agents ss).

(** The session counters agree with what the session holds. *)
Definition countersAgree (ss : SessionState) : Prop :=
  toolCalls (stats ss) = Z.of_nat (length (allToolCalls (agents ss))) ∧
  filesAccessed (stats ss) = Z.of_nat (size (files ss)).

(** Every pending marker names a recorded call of its tool. *)
Definition pendingRecorded (ss : SessionState) : Prop :=
  ∀ tool pid, pendingToolCalls ss !! tool = Some pid →
    ∃ tc, tc ∈ allToolCalls (agents ss) ∧ tc_id tc = pid ∧ tc_tool tc = tool.

(** Status of the session against its agents and its end timestamp. *)
Definition statusCoherent (ss : SessionState) : Prop :=
  (s_status (session ss) = SEnded →
     Forall (λ a, a_status a = ACompleted) (agents ss)) ∧
  (s_status (session ss) = SActive → s_endedAt (session ss) = None).

(** No counter of the session is negative. *)
Definition countersNonneg (ss : SessionState) : Prop := stats_le zeroStats (stats ss).

(** An agent that is active has no completion timestamp. *)
Definition stampsCoherent (ss : SessionState) : Prop :=
  Forall (λ a, a_status a = AActive → a_completedAt a = None) (agents ss).

(** Sum of the running counts of the agents. *)
Definition sumCounts (l : list Agent) : Z :=
  foldr (λ a n, a_toolCallCount a + n) 0 l.

(** The counters of recorded work: all but the turn count and the token
    estimate, which are set to zero. *)
Definition workStats (s : Stats) : Stats :=
  mkStats (toolCalls s) (filesAccessed s) 0 (linesAdded s) (linesRemoved s) 0 (errors s).

(** Until its first tool call a session has recorded no work. *)
Definition quietBeforeFirstCall (ss : SessionState) : Prop :=
  0 ≤ toolCalls (stats ss) ∧
  (toolCalls (stats ss) = 0 →
   allToolCalls (agents ss) = [] ∧ workStats (stats ss) = zeroStats).

(** ** The agents of the public snapshot *)

(** [{ ...a, sessionId: ss.session.id,
       source: a.source || ss.session.source || 'unknown',
       toolCalls: a.toolCalls.slice(-50) }] *)
Definition publicAgent (ss : SessionState) (a : Agent) : Agent :=
  mkAgent (a_id a) (a_name a) (a_type a) (a_subagentType a) (a_model a)
    (a_parentId a) (s_id (session ss))
    (default "unknown"%string
       (or_str (Some (a_source a)) (Some (s_source (session ss)))))
    (a_status a) (a_completedAt a)
    (drop (length (a_toolCalls a) - 50) (a_toolCalls a)) (a_toolCallCount a).

(** ** Between a [pre] and its [post] *)

(** An operation of the core that leaves the call [pid] of tool [T],
    pending in session [sid], waiting for its [post].  It is an event for
    another session, or an event for the session itself that is neither a
    [session_start], nor a [pre] or [post] of tool [T], nor a [pre] for
    which the identifier [pid] is drawn again; or it is a pass of the
    pruner that does not delete the session. *)
Inductive keepsWaiting (sid T : string) (pid : ToolCallId) : State → State → Prop :=
| waiting_event config env event st :
    (eventSid event = sid →
     ev_phase event ≠ SessionStart ∧
     (ev_phase event = Pre ∨ ev_phase event = Post → ev_tool_name event ≠ T) ∧
     (ev_phase event = Pre → (env_clock env, env_suffix env) ≠ pid)) →
    keepsWaiting sid T pid st (processEvent config env event st)
| waiting_prune config now st :
    is_Some (sessions (pruneStaleAndEndedSessions config now st) !! sid) →
    keepsWaiting sid T pid st (pruneStaleAndEndedSessions config now st).

(** The call [tc] is pending in session [sid] under its tool name: the
    marker of that name, and no other, holds its identifier, and it is the
    first call of the session with that identifier, at position [k] of the
    session's calls. *)
Definition waiting (sid : string) (tc : ToolCall) (k : nat) (st : State) : Prop :=
  sessionPending st sid !! tc_tool tc = Some (tc_id tc) ∧
  (∀ T', sessionPending st sid !! T' = Some (tc_id tc) → T' = tc_tool tc) ∧
  list_find (λ c, tc_id c = tc_id tc) (sessionToolCalls st sid) = Some (k, tc).

(** ** Further sample inputs *)

(** The double-quote character, as a string. *)
Definition quote : string := String (Ascii.ascii_of_nat 34) EmptyString.

(** A tool input naming a file, the object [{file_path: path}], for a
    path that [JSON.stringify] leaves as it is. *)
Definition fileInput (path : string) : ToolInput :=
  mkToolInput
    ("{" +:+ quote +:+ "file_path" +:+ quote +:+ ":" +:+ quote +:+ path +:+ quote +:+ "}")
    (Some path) None None None None None None None None.

(** A second [Read], this time of a named file. *)
Definition stReadFile : State :=
  processEvent cfg0 envB
    (mkEvent Pre (Some 11) (Some "s1"%string) None "Read"%string
       (Some (fileInput "/src/a.js")) None None) stRead.

(** A [pre] whose tool name is a member inherited from
    [Object.prototype], with an input: [summarizeInput] throws. *)
Definition evValueOf : Event :=
  mkEvent Pre (Some 11) (Some "s1"%string) None "valueOf"%string
    (Some (fileInput "/src/a.js")) None None.
Definition stValueOf : State := processEvent cfg0 envB evValueOf stRead.

(** A tool response on which [summarizeOutput] throws, the object
    [{content: [null]}]. *)
Definition nullContent : ToolResponse :=
  mkToolResponse false ("{" +:+ quote +:+ "content" +:+ quote +:+ ":[null]}") true.

(** The [post] of the first [Read], with that response. *)
Definition evReadCut : Event :=
  mkEvent Post (Some 12) (Some "s1"%string) None "Read"%string None
    (Some nullContent) None.
Definition stReadCut : State := processEvent cfg0 envB evReadCut stRead.

(** Between the first [Read] and its [post]: a [pre] of another tool and
    a [notification] for the same session. *)
Definition stReadBash : State :=
  processEvent cfg0 envB (mkEv Pre (Some 11) "s1" "Bash") stRead.
Definition stReadBashTurn : State :=
  processEvent cfg0 envC (mkSessionEv Notification (Some 12) "s1") stReadBash.
Definition stReadBashDone : State :=
  processEvent cfg0 envC (mkEv Post (Some 13) "s1" "Read") stReadBashTurn.

(** Between the first [Read] and its [post]: [session_start] for the same
    session. *)
Definition stReadRestartedPost : State :=
  processEvent cfg0 envC (mkEv Post (Some 21) "s1" "Read") stRestarted.

(** While a session is active its main agent is active. *)
Definition mainAwake (ss : SessionState) : Prop :=
  s_status (session ss) = SActive →
  ∀ i main, findMain (agents ss) = Some (i, main) → a_status main = AActive.

(** Agents related position by position, keeping the type, and the status
    of a main agent. *)
Definition keepsMain (a a' : Agent) : Prop :=
  a_type a' = a_type a ∧ (a_type a = Main → a_status a' = a_status a).

(** [config.maxTimelineEvents || 1000] *)
Definition timelineCap (config : Config) : nat :=
  match maxTimelineEvents config with
  | Some (S m) => S m
  | _ => 1000%nat
  end.

(** The texts [detectError] looks for in a response. *)
Definition ERROR_MARKERS : list string :=
  [ "command failed"; "exit code"; "error:"; "fatal:";
    "traceback (most recent" ]%string.

(** Net number of lines a tool call adds, as [trackFileAccess] counts
    them: the lines of the content for a [Write] with content, the new
    lines minus the old lines for an [Edit], nothing otherwise. *)
Definition lineDelta (toolName : string) (toolInput : option ToolInput) : Z :=
  match toolInput with
  | None => 0
  | Some inp =>
      if bool_decide (toolName = "Write"%string)
         && bool_decide (is_Some (truthy_str (ti_content inp)))
      then countLines (ti_content inp)
      else if bool_decide (toolName = "Edit"%string)
      then countLines (ti_new_string inp) - countLines (ti_old_string inp)
      else 0
  end.

(** The agents of session [sid]; none when there is no such session. *)
Definition sessionAgents (st : State) (sid : string) : list Agent :=
  match sessions st !! sid with
  | Some s => agents s
  | None => []
  end.

(** ** Summaries and the figures of the public snapshot *)

(** [truncate(str, max)] for a string argument: [null] for a falsy one,
    else the string, cut to [max] characters followed by ["..."] when it
    is longer. *)
Definition truncate (str : option string) (max : nat) : option string :=
  match truthy_str str with
  | None => None
  | Some s =>
      Some (if (max <? String.length s)%nat
            then String.substring 0 max s +:+ "..."
            else s)
  end.

(** [sessionList.find(s => s.status === 'active')
     || sessionList[sessionList.length - 1] || null] *)
Definition currentSession (l : list SessionInfo) : option SessionInfo :=
  match list_find (λ s, s_status s = SActive) l with
  | Some (_, s) => Some s
  | None => last l
  end.

(** [allAgents], and the figures [agentCount], [activeAgents] and
    [activeSessionCount] computed from it and from [sessionList]. *)
Definition publicAgents (st : State) : list Agent :=
  map_to_list (sessions st) ≫= (λ e, publicAgent e.2 <$> agents e.2).

Definition agentCount (st : State) : nat := length (publicAgents st).

Definition activeAgents (st : State) : nat :=
  length (filter (λ a, a_status a = AActive) (publicAgents st)).

Definition activeSessionCount (st : State) : nat :=
  length (filter (λ s, s_status s = SActive) (ps_sessions (getPublicState st))).

(** [earliestStart]: the loop
    [if (ss.stats.startedAt && (!earliestStart || ss.stats.startedAt < earliestStart))
       earliestStart = ss.stats.startedAt]. *)
Definition earlier (acc : option Z) (e : string * SessionState) : option Z :=
  match stats_startedAt e.2 with
  | Some t =>
      if negb (t =? 0)
         && match acc with None => true | Some m => (m =? 0) || (t <? m) end
      then Some t else acc
  | None => acc
  end.

Definition earliestStart (st : State) : option Z :=
  foldl earlier None (map_to_list (sessions st)).

(** The start time kept with the counters is the start time of the
    session. *)
Definition startsAgree (ss : SessionState) : Prop :=
  stats_startedAt ss = s_startedAt (session ss).

(** ** Producers of events *)

(** The events built by the hooks of Claude Code ([event-hook.cjs],
    [session-stop-hook.cjs], [notification-hook.cjs]) and by [makeEvent] of
    the two OpenCode plugins ([monikhao.js], [opencode.js]).  [now] is the
    reading of [Date.now()].  A [null] tool name is the empty string: every
    producer writes [name || null], so none sends the empty string as a
    name. *)

(** What a hook reads from its standard input. *)
Record HookData := mkHookData {
  hd_session_id : option string;
  hd_tool_name : option string;
  hd_tool_input : option ToolInput;
  hd_tool_response : option ToolResponse
}.

(** [event-hook.cjs]; [model] is what the transcript yielded. *)
Definition eventHookPayload (phase : Phase) (now : Z) (model : option string)
    (d : HookData) : Event :=
  {| ev_phase := phase; ev_timestamp := Some now;
     ev_session_id := truthy_str (hd_session_id d);
     ev_source := Some "claudecode"%string;
     ev_tool_name := default EmptyString (truthy_str (hd_tool_name d));
     ev_tool_input := hd_tool_input d;
     ev_tool_response := if decide (phase = Post) then hd_tool_response d else None;
     ev_model := if decide (phase = Pre) then model else None |}.

(** [session-stop-hook.cjs] *)
Definition stopHookPayload (now : Z) (sessionId : option string) : Event :=
  {| ev_phase := SessionEnd; ev_timestamp := Some now;
     ev_session_id := truthy_str sessionId;
     ev_source := Some "claudecode"%string;
     ev_tool_name := EmptyString; ev_tool_input := None;
     ev_tool_response := None; ev_model := None |}.

(** [notification-hook.cjs]: nothing is sent for an empty message. *)
Definition notificationHookPayload (now : Z) (sessionId message : option string)
    : option Event :=
  match truthy_str message with
  | None => None
  | Some _ =>
      Some {| ev_phase := Notification; ev_timestamp := Some now;
              ev_session_id := truthy_str sessionId;
              ev_source := Some "claudecode"%string;
              ev_tool_name := EmptyString; ev_tool_input := None;
              ev_tool_response := None; ev_model := None |}
  end.

(** [getSessionId] of the OpenCode plugins: the identifier in use, or a
    fresh one [`oc-${Date.now()}-${random}`]; [fresh] stands for what
    follows the prefix. *)
Definition getSessionId (fresh : string) (sessionId : option string) : string :=
  match truthy_str sessionId with
  | Some s => s
  | None => "oc-" +:+ fresh
  end.

(** [makeEvent] of [monikhao.js], with the fields an [extra] sets. *)
Definition bootstrapEvent (phase : Phase) (now : Z) (fresh : string)
    (sessionId detectedModel tool : option string)
    (input : option ToolInput) (response : option ToolResponse) : Event :=
  {| ev_phase := phase; ev_timestamp := Some now;
     ev_session_id := Some (getSessionId fresh sessionId);
     ev_source := Some "opencode"%string;
     ev_tool_name := default EmptyString (truthy_str tool);
     ev_tool_input := input; ev_tool_response := response;
     ev_model := detectedModel |}.

(** [makeEvent] of [opencode.js]: no [source] and no [model]. *)
Definition adapterEvent (phase : Phase) (now : Z) (fresh : string)
    (sessionId tool : option string)
    (input : option ToolInput) (response : option ToolResponse) : Event :=
  {| ev_phase := phase; ev_timestamp := Some now;
     ev_session_id := Some (getSessionId fresh sessionId);
     ev_source := None;
     ev_tool_name := default EmptyString (truthy_str tool);
     ev_tool_input := input; ev_tool_response := response;
     ev_model := None |}.

(** The tools whose calls are tracked as file accesses. *)
Definition FILE_TOOLS : list string := ["Read"; "Edit"; "Write"; "Glob"; "Grep"]%string.

(** Every entry of the file map stands for at least one access by a
    file tool, under a path that is not empty. *)
Definition filesCoherent (ss : SessionState) : Prop :=
  map_Forall (λ p fi, p ≠ EmptyString ∧ 1 ≤ f_accessCount fi ∧ f_tool fi ∈ FILE_TOOLS)
    (files ss).

(** * Properties *)

(** *** Finding agents *)

Lemma findLastIndex_lt {A} (P : A → bool) (l : list A) i :
  findLastIndex P l = Some i → (i < length l)%nat.
Proof.
  revert i. induction l as [|x l IH]; intros i; simpl; [done|].
  destruct (findLastIndex P l) as [k|].
  - intros [= <-]. specialize (IH _ eq_refl). lia.
  - destruct (P x); intros [= <-]. lia.
Qed.

Lemma findLastIndex_Some {A} (P : A → bool) (l : list A) i :
  findLastIndex P l = Some i →
  ∃ x, l !! i = Some x ∧ P x = true ∧
       ∀ j y, l !! j = Some y → (i < j)%nat → P y = false.
Proof.
  revert i. induction l as [|x l IH]; intros i; simpl; [done|].
  destruct (findLastIndex P l) as [k|] eqn:Hk.
  - intros [= <-]. destruct (IH _ eq_refl) as (y & Hy & HP & Hlast).
    exists y. repeat split; try done.
    intros [|j] z Hz Hlt; [lia|]. simpl in Hz. eapply Hlast; [done|lia].
  - destruct (P x) eqn:HPx; intros [= <-].
    exists x. repeat split; try done.
    intros [|j] z Hz Hlt; [lia|]. simpl in Hz.
    clear -Hk Hz. revert j Hz. induction l as [|w l IHl]; intros j Hz; [done|].
    simpl in Hk. destruct (findLastIndex P l) eqn:E; [done|].
    destruct (P w) eqn:HPw; [done|].
    destruct j as [|j]; simpl in Hz; [by simplify_eq|]. by eapply IHl.
Qed.

Lemma findLastIndex_None {A} (P : A → bool) (l : list A) :
  findLastIndex P l = None → ∀ x, x ∈ l → P x = false.
Proof.
  induction l as [|w l IH]; simpl; intros H x Hx; [by apply elem_of_nil in Hx|].
  destruct (findLastIndex P l) eqn:E; [done|].
  destruct (P w) eqn:HPw; [done|].
  apply elem_of_cons in Hx as [->|Hx]; [done|]. by apply IH.
Qed.

Lemma findActiveAgentAt_nonempty (l : list Agent) :
  l ≠ [] → ∃ i a, findActiveAgentAt l = Some (i, a) ∧ l !! i = Some a.
Proof.
  intros Hne. unfold findActiveAgentAt, findActiveAgentIndex.
  destruct (findLastIndex _ l) as [i|] eqn:E.
  - destruct (findLastIndex_Some _ _ _ E) as (a & Ha & _).
    exists i, a. simpl. rewrite Ha. done.
  - destruct l as [|a l]; [done|]. exists 0%nat, a. done.
Qed.

Lemma findActiveAgentAt_lookup (l : list Agent) i a :
  findActiveAgentAt l = Some (i, a) → l !! i = Some a.
Proof.
  unfold findActiveAgentAt. intros H.
  destruct (findActiveAgentIndex l) as [k|]; simpl in H; [|done].
  destruct (l !! k) eqn:E; simpl in H; [|done]. by simplify_eq.
Qed.

(** *** The flattened list of tool calls under the list operations *)

Lemma allToolCalls_app (l1 l2 : list Agent) :
  allToolCalls (l1 ++ l2) = allToolCalls l1 ++ allToolCalls l2.
Proof. unfold allToolCalls. apply bind_app. Qed.

Lemma allToolCalls_cons (a : Agent) (l : list Agent) :
  allToolCalls (a :: l) = a_toolCalls a ++ allToolCalls l.
Proof. done. Qed.

Lemma allToolCalls_alter_same (f : Agent → Agent) (i : nat) (l : list Agent) :
  (∀ a, a_toolCalls (f a) = a_toolCalls a) →
  allToolCalls (alter f i l) = allToolCalls l.
Proof.
  intros Hf. revert i. induction l as [|a l IH]; intros [|i]; try done.
  - change (alter f 0%nat (a :: l)) with (f a :: l).
    by rewrite !allToolCalls_cons, Hf.
  - change (alter f (S i) (a :: l)) with (a :: alter f i l).
    by rewrite !allToolCalls_cons, IH.
Qed.

Lemma allToolCalls_fmap_same (f : Agent → Agent) (l : list Agent) :
  (∀ a, a_toolCalls (f a) = a_toolCalls a) →
  allToolCalls (f <$> l) = allToolCalls l.
Proof.
  intros Hf. induction l as [|a l IH]; [done|].
  rewrite fmap_cons, !allToolCalls_cons, Hf, IH. done.
Qed.

Lemma allToolCalls_push (tc : ToolCall) (i : nat) (a : Agent) (l : list Agent) :
  l !! i = Some a →
  ∃ l1 l2, allToolCalls l = l1 ++ l2 ∧
           allToolCalls (alter (agent_push_toolCall tc) i l) = l1 ++ tc :: l2.
Proof.
  revert i. induction l as [|x l IH]; intros [|i] H; simplify_eq/=.
  - exists (a_toolCalls a), (allToolCalls l).
    split; [done|]. rewrite allToolCalls_cons. simpl. by rewrite <- app_assoc.
  - destruct (IH _ H) as (l1 & l2 & E1 & E2).
    exists (a_toolCalls x ++ l1), l2.
    change (list_alter (agent_push_toolCall tc) i l)
      with (alter (agent_push_toolCall tc) i l).
    rewrite !allToolCalls_cons, E1, E2. by rewrite !app_assoc.
Qed.

Lemma locateCall_flat (pid : ToolCallId) (g : ToolCall → ToolCall) (l : list Agent) k tc :
  list_find (λ c, tc_id c = pid) (allToolCalls l) = Some (k, tc) →
  ∃ i j, locateCall pid l = Some (i, j) ∧
    allToolCalls (alter (λ a, agent_set_toolCalls (alter g j (a_toolCalls a)) a) i l)
    = alter g k (allToolCalls l).
Proof.
  revert k. induction l as [|a l IH]; intros k; [done|].
  rewrite allToolCalls_cons. intros H.
  apply list_find_app_Some in H as [H|(Hlen & Hnone & H)].
  - exists 0%nat, k. simpl. unfold findCall. rewrite H. simpl. split; [done|].
    apply list_find_Some in H as (Hk & _).
    rewrite allToolCalls_cons. simpl.
    apply lookup_lt_Some in Hk. by rewrite alter_app_l.
  - destruct (IH _ H) as (i & j & Hloc & Halt).
    exists (S i), j. simpl. unfold findCall. rewrite Hnone. simpl.
    rewrite Hloc. simpl. split; [done|].
    match goal with |- context [list_alter ?f i l] =>
      change (list_alter f i l) with (alter f i l) end.
    rewrite allToolCalls_cons, Halt. rewrite alter_app_r_alt by done. done.
Qed.

Lemma find_fresh_middle (pid : ToolCallId) (l1 l2 : list ToolCall) (tc : ToolCall) :
  tc_id tc = pid →
  (∀ c, c ∈ l1 → tc_id c ≠ pid) →
  list_find (λ c, tc_id c = pid) (l1 ++ tc :: l2) = Some (length l1, tc).
Proof.
  intros Hid Hfresh. apply list_find_Some. repeat split.
  - by rewrite list_lookup_middle.
  - done.
  - intros j y Hy Hlt. rewrite lookup_app_l in Hy by done.
    apply Hfresh. by eapply list_elem_of_lookup_2.
Qed.

(** *** Writing a session back *)

Lemma lookup_putSession sid ss st : sessions (putSession sid ss st) !! sid = Some ss.
Proof. apply lookup_insert_eq. Qed.

Lemma lookup_putSession_ne sid sid' ss st :
  sid ≠ sid' → sessions (putSession sid ss st) !! sid' = sessions st !! sid'.
Proof. intros. by apply lookup_insert_ne. Qed.

(** *** Fields left alone by the per-session helpers *)

Lemma addTimelineEvent_fields config ss ts k aid :
  let ss' := addTimelineEvent config ss ts k aid in
  session ss' = session ss ∧ agents ss' = agents ss ∧ files ss' = files ss ∧
  stats ss' = stats ss ∧ stats_startedAt ss' = stats_startedAt ss ∧
  pendingToolCalls ss' = pendingToolCalls ss ∧ lastActivity ss' = lastActivity ss.
Proof. done. Qed.

Lemma trackFileAccess_fields ss tool inp ts :
  let ss' := trackFileAccess ss tool inp ts in
  session ss' = session ss ∧ agents ss' = agents ss ∧
  timeline ss' = timeline ss ∧ stats_startedAt ss' = stats_startedAt ss ∧
  pendingToolCalls ss' = pendingToolCalls ss ∧ lastActivity ss' = lastActivity ss.
Proof. unfold trackFileAccess. simpl. repeat case_match; done. Qed.

Lemma reactivateIfEnded_fields ss ts :
  let ss' := reactivateIfEnded ss ts in
  s_id (session ss') = s_id (session ss) ∧
  s_source (session ss') = s_source (session ss) ∧
  s_startedAt (session ss') = s_startedAt (session ss) ∧
  s_status (session ss') = SActive ∧
  timeline ss' = timeline ss ∧ files ss' = files ss ∧ stats ss' = stats ss ∧
  stats_startedAt ss' = stats_startedAt ss ∧
  pendingToolCalls ss' = pendingToolCalls ss ∧ lastActivity ss' = ts ∧
  length (agents ss') = length (agents ss) ∧
  allToolCalls (agents ss') = allToolCalls (agents ss).
Proof.
  unfold reactivateIfEnded. simpl.
  destruct (decide (s_status (session ss) = SEnded)) as [He|He]; simpl.
  - destruct (findMain (agents ss)) as [[i main]|]; simpl; [|done].
    destruct (decide (a_status main = ACompleted)); simpl; [|done].
    rewrite length_alter, allToolCalls_alter_same; done.
  - destruct (s_status (session ss)); done.
Qed.

Lemma getOrCreateSession_fields sid ts source st :
  let ss := getOrCreateSession sid ts source st in
  agents ss = match sessions st !! sid with Some s => agents s | None => [] end ∧
  stats ss = match sessions st !! sid with Some s => stats s | None => zeroStats end ∧
  pendingToolCalls ss
    = match sessions st !! sid with Some s => pendingToolCalls s | None => ∅ end.
Proof.
  unfold getOrCreateSession. simpl.
  destruct (sessions st !! sid); case_match; done.
Qed.

Lemma getOrCreateMainAgent_fields env st ss st' ss' mi main :
  getOrCreateMainAgent env st ss = (st', ss', (mi, main)) →
  session ss' = session ss ∧ timeline ss' = timeline ss ∧ files ss' = files ss ∧
  stats ss' = stats ss ∧ stats_startedAt ss' = stats_startedAt ss ∧
  pendingToolCalls ss' = pendingToolCalls ss ∧ lastActivity ss' = lastActivity ss ∧
  sessions st' = sessions st ∧ carryOverStats st' = carryOverStats st ∧
  agents ss' !! mi = Some main ∧ a_type main = Main ∧
  findMain (agents ss') = Some (mi, main) ∧
  allToolCalls (agents ss') = allToolCalls (agents ss) ∧
  (agents ss' = agents ss ∧ st' = st ∨
   agents ss' = agents ss ++ [main] ∧ a_id main = agentIdCounter st ∧
   a_status main = AActive ∧ a_toolCalls main = [] ∧
   agentIdCounter st' = S (agentIdCounter st)).
Proof.
  unfold getOrCreateMainAgent.
  destruct (findMain (agents ss)) as [[i m]|] eqn:Hfind.
  - intros [= <- <- <- <-]. pose proof Hfind as Hfind'.
    apply list_find_Some in Hfind as (Hi & Hm & _).
    repeat split; try done. by left.
  - destruct (pickAgentName _ _) as [name used]. intros [= <- <- <- <-]. simpl.
    repeat split; try done.
    + by rewrite lookup_app_r, Nat.sub_diag.
    + unfold findMain. apply list_find_Some. split; [|split; [done|]].
      * by rewrite lookup_app_r, Nat.sub_diag.
      * intros j y Hy Hlt. rewrite lookup_app_l in Hy by done.
        unfold findMain in Hfind. rewrite list_find_None in Hfind.
        rewrite Forall_forall in Hfind. apply Hfind.
        by eapply list_elem_of_lookup_2.
    + rewrite allToolCalls_app. unfold allToolCalls at 2. simpl.
      by rewrite !app_nil_r.
    + right. done.
Qed.

Lemma captureModel_fields model mi mainAgent ss :
  let ss' := captureModel model mi mainAgent ss in
  s_id (session ss') = s_id (session ss) ∧
  s_status (session ss') = s_status (session ss) ∧
  s_source (session ss') = s_source (session ss) ∧
  s_startedAt (session ss') = s_startedAt (session ss) ∧
  timeline ss' = timeline ss ∧ files ss' = files ss ∧ stats ss' = stats ss ∧
  stats_startedAt ss' = stats_startedAt ss ∧
  pendingToolCalls ss' = pendingToolCalls ss ∧ lastActivity ss' = lastActivity ss ∧
  length (agents ss') = length (agents ss) ∧
  allToolCalls (agents ss') = allToolCalls (agents ss).
Proof.
  unfold captureModel. simpl. repeat case_match; simpl; try done.
  rewrite length_alter, allToolCalls_alter_same; done.
Qed.

Lemma getOrCreateSession_session sid ts source st :
  let ss := getOrCreateSession sid ts source st in
  s_startedAt (session ss)
    = match sessions st !! sid with Some s => s_startedAt (session s) | None => ts end ∧
  s_id (session ss)
    = match sessions st !! sid with Some s => s_id (session s) | None => sid end ∧
  s_status (session ss)
    = match sessions st !! sid with Some s => s_status (session s) | None => SActive end.
Proof.
  unfold getOrCreateSession. simpl.
  destruct (sessions st !! sid); case_match; done.
Qed.

(** *** The pipeline of [case 'pre'] *)

Lemma spawn_fields st ss parentId inp st' ss' sub :
  spawnSubagent st ss parentId inp = (st', ss', sub) →
  agents ss' = agents ss ++ [sub] ∧
  a_id sub = agentIdCounter st ∧ a_type sub = Subagent ∧
  a_parentId sub = Some parentId ∧ a_status sub = AActive ∧ a_toolCalls sub = [] ∧
  agentIdCounter st' = S (agentIdCounter st) ∧
  sessions st' = sessions st ∧ carryOverStats st' = carryOverStats st ∧
  usedNames st' = usedNames st ∧
  session ss' = session ss ∧ timeline ss' = timeline ss ∧ files ss' = files ss ∧
  stats ss' = stats ss ∧ stats_startedAt ss' = stats_startedAt ss ∧
  pendingToolCalls ss' = pendingToolCalls ss ∧ lastActivity ss' = lastActivity ss.
Proof. unfold spawnSubagent. intros [= <- <- <-]. done. Qed.

(** [case 'pre'] step by step: the main agent is found or created, the
    model is captured, a subagent is spawned for tool ["Task"], and an
    agent is always found to record the tool call on. *)
Lemma processEvent_pre config env event st :
  ev_phase event = Pre →
  ∃ st1 ss2 mi mainAgent st2 ss4 i agent,
    getOrCreateMainAgent env st
      (reactivateIfEnded
         (getOrCreateSession (eventSid event) (ev_timestamp event) (detectSource event) st)
         (ev_timestamp event))
    = (st1, ss2, (mi, mainAgent)) ∧
    (if bool_decide (ev_tool_name event = "Task"%string) then
       ∃ st' ss' sub,
         spawnSubagent st1 (captureModel (ev_model event) mi mainAgent ss2)
           (a_id mainAgent) (ev_tool_input event) = (st', ss', sub) ∧
         st2 = st' ∧
         ss4 = addTimelineEvent config ss' (ev_timestamp event) AgentSpawn (a_id sub)
     else st2 = st1 ∧ ss4 = captureModel (ev_model event) mi mainAgent ss2) ∧
    findActiveAgentAt (agents ss4) = Some (i, agent) ∧
    processEvent config env event st
    = putSession (eventSid event) (recordToolStart config env event i agent ss4) st2.
Proof.
  intros Hph. unfold processEvent. rewrite Hph.
  destruct (getOrCreateMainAgent env st _) as [[st1 ss2] [mi mainAgent]] eqn:Hmain.
  pose proof (getOrCreateMainAgent_fields _ _ _ _ _ _ _ Hmain) as Hf.
  destruct Hf as (_ & _ & _ & _ & _ & _ & _ & _ & _ & Hmi & _).
  pose proof (captureModel_fields (ev_model event) mi mainAgent ss2) as Hc.
  cbv zeta in Hc. destruct Hc as (_ & _ & _ & _ & _ & _ & _ & _ & _ & _ & Hlen & _).
  assert (agents (captureModel (ev_model event) mi mainAgent ss2) ≠ []) as Hne.
  { intros E. rewrite E in Hlen. apply lookup_lt_Some in Hmi. simpl in Hlen. lia. }
  exists st1, ss2, mi, mainAgent.
  destruct (bool_decide (ev_tool_name event = "Task"%string)) eqn:Htask.
  - destruct (spawnSubagent st1 _ (a_id mainAgent) (ev_tool_input event))
      as [[st' ss'] sub] eqn:Hsp.
    pose proof (spawn_fields _ _ _ _ _ _ _ Hsp) as (Hag & _).
    set (ss4 := addTimelineEvent config ss' (ev_timestamp event) AgentSpawn (a_id sub)).
    destruct (findActiveAgentAt_nonempty (agents ss4)) as (i & agent & Hfa & _).
    { subst ss4. simpl. rewrite Hag. intros E. by apply app_eq_nil in E as [_ ?]. }
    exists st', ss4, i, agent. split; [done|]. split; [by exists st', ss', sub|].
    split; [done|]. by rewrite Hfa.
  - destruct (findActiveAgentAt_nonempty _ Hne) as (i & agent & Hfa & _).
    exists st1, (captureModel (ev_model event) mi mainAgent ss2), i, agent.
    split; [done|]. split; [done|]. split; [done|]. by rewrite Hfa.
Qed.

(** The spawn tool is not one of the names on which [summarizeInput]
    throws. *)
Lemma summarizeInputThrows_Task inp : summarizeInputThrows "Task" inp = false.
Proof. unfold summarizeInputThrows. apply andb_false_r. Qed.

Lemma recordToolStart_thrown config env event i agent ss :
  summarizeInputThrows (ev_tool_name event) (ev_tool_input event) = true →
  recordToolStart config env event i agent ss = ss.
Proof. intros H. unfold recordToolStart. cbv zeta. by rewrite H. Qed.

Lemma recordToolStart_fields config env event i agent ss :
  summarizeInputThrows (ev_tool_name event) (ev_tool_input event) = false →
  let ss' := recordToolStart config env event i agent ss in
  session ss' = session ss ∧
  agents ss' =
    alter (agent_push_toolCall
             (mkToolCall (env_clock env, env_suffix env) (ev_tool_name event)
                (ev_timestamp event) None Executing)) i (agents ss) ∧
  pendingToolCalls ss'
    = <[ev_tool_name event := (env_clock env, env_suffix env)]> (pendingToolCalls ss) ∧
  stats_startedAt ss' = stats_startedAt ss ∧
  lastActivity ss' = lastActivity ss.
Proof.
  intros Hok. unfold recordToolStart. cbv zeta. rewrite Hok. simpl.
  match goal with |- context [trackFileAccess ?s ?t ?inp ?ts] =>
    pose proof (trackFileAccess_fields s t inp ts) as H; simpl in H;
    destruct H as (-> & -> & _ & -> & -> & ->) end.
  done.
Qed.

(** What the recording of a tool call keeps, cut short or not. *)
Lemma recordToolStart_kept config env event i agent ss :
  let ss' := recordToolStart config env event i agent ss in
  session ss' = session ss ∧ stats_startedAt ss' = stats_startedAt ss ∧
  lastActivity ss' = lastActivity ss ∧ length (agents ss') = length (agents ss).
Proof.
  cbv zeta.
  destruct (summarizeInputThrows (ev_tool_name event) (ev_tool_input event)) eqn:Hthrow.
  - by rewrite recordToolStart_thrown.
  - pose proof (recordToolStart_fields config env event i agent ss Hthrow) as H.
    cbv zeta in H. destruct H as (-> & -> & _ & -> & ->). by rewrite length_alter.
Qed.

(** The session of the event when [case 'pre'] reaches the recording of
    the tool call. *)
Lemma pre_before config env event st :
  ev_phase event = Pre →
  ∃ st2 ss4 i agent,
    processEvent config env event st
    = putSession (eventSid event) (recordToolStart config env event i agent ss4) st2 ∧
    findActiveAgentAt (agents ss4) = Some (i, agent) ∧
    s_status (session ss4) = SActive ∧
    lastActivity ss4 = ev_timestamp event ∧
    allToolCalls (agents ss4) = sessionToolCalls st (eventSid event) ∧
    pendingToolCalls ss4
    = pendingToolCalls (getOrCreateSession (eventSid event) (ev_timestamp event)
                          (detectSource event) st).
Proof.
  intros Hph.
  destruct (processEvent_pre config env event st Hph)
    as (st1 & ss2 & mi & mainAgent & st2 & ss4 & i & agent & Hmain & Hsp & Hfa & ->).
  pose proof (getOrCreateMainAgent_fields _ _ _ _ _ _ _ Hmain) as Hm.
  destruct Hm as (Hs2 & _ & _ & _ & _ & Hp2 & Hla2 & _ & _ & _ & _ & _ & Hcalls2 & _).
  pose proof (reactivateIfEnded_fields
    (getOrCreateSession (eventSid event) (ev_timestamp event) (detectSource event) st)
    (ev_timestamp event)) as Hr. cbv zeta in Hr.
  destruct Hr as (_ & _ & _ & Hst & _ & _ & _ & _ & Hp1 & Hla1 & _ & Hcalls1).
  pose proof (getOrCreateSession_fields (eventSid event) (ev_timestamp event)
    (detectSource event) st) as Hg. cbv zeta in Hg. destruct Hg as (Hag0 & _ & _).
  pose proof (captureModel_fields (ev_model event) mi mainAgent ss2) as Hc.
  cbv zeta in Hc. destruct Hc as (_ & Hst3 & _ & _ & _ & _ & _ & _ & Hp3 & Hla3 & _ & Hcalls3).
  exists st2, ss4, i, agent. split; [done|]. split; [done|].
  assert (allToolCalls (agents (captureModel (ev_model event) mi mainAgent ss2))
          = sessionToolCalls st (eventSid event)) as E.
  { rewrite Hcalls3, Hcalls2, Hcalls1, Hag0. unfold sessionToolCalls.
    by destruct (sessions st !! eventSid event). }
  destruct (bool_decide (ev_tool_name event = "Task"%string)).
  - destruct Hsp as (st' & ss' & sub & Hsp & -> & ->).
    apply spawn_fields in Hsp.
    destruct Hsp as (Hag & _ & _ & _ & _ & Hnil & _ & _ & _ & _ & Hs & _ & _ & _ & _ & Hp & Hla).
    simpl. rewrite Hs, Hla, Hag, allToolCalls_app, E, Hst3, Hs2, Hst, Hla3, Hla2, Hla1,
      Hp, Hp3, Hp2, Hp1.
    repeat split; try done.
    rewrite <- (app_nil_r (sessionToolCalls _ _)) at 2. f_equal.
    unfold allToolCalls. simpl. by rewrite Hnil.
  - destruct Hsp as (-> & ->). rewrite Hst3, Hs2, Hst, Hla3, Hla2, Hla1, Hp3, Hp2, Hp1. done.
Qed.

(** What [case 'pre'] leaves in the session of the event when
    [summarizeInput] throws: the session is awake and its activity time
    set, and no call and no marker has been recorded. *)
Lemma pre_thrown config env event st :
  ev_phase event = Pre →
  summarizeInputThrows (ev_tool_name event) (ev_tool_input event) = true →
  ∃ ss', sessions (processEvent config env event st) !! eventSid event = Some ss' ∧
    s_status (session ss') = SActive ∧
    lastActivity ss' = ev_timestamp event ∧
    pendingToolCalls ss'
    = pendingToolCalls (getOrCreateSession (eventSid event) (ev_timestamp event)
                          (detectSource event) st) ∧
    allToolCalls (agents ss') = sessionToolCalls st (eventSid event).
Proof.
  intros Hph Hthrow.
  destruct (pre_before config env event st Hph)
    as (st2 & ss4 & i & agent & -> & Hfa & Hst4 & Hla4 & Hcalls4 & Hp4).
  rewrite recordToolStart_thrown by done.
  eexists. split; [apply lookup_putSession|]. done.
Qed.

(** What [case 'pre'] leaves in the session of the event when it runs to
    its end. *)
Lemma pre_effect config env event st :
  ev_phase event = Pre →
  summarizeInputThrows (ev_tool_name event) (ev_tool_input event) = false →
  let tc := mkToolCall (env_clock env, env_suffix env) (ev_tool_name event)
              (ev_timestamp event) None Executing in
  ∃ ss', sessions (processEvent config env event st) !! eventSid event = Some ss' ∧
    s_status (session ss') = SActive ∧
    lastActivity ss' = ev_timestamp event ∧
    pendingToolCalls ss' !! ev_tool_name event = Some (tc_id tc) ∧
    agents ss' ≠ [] ∧
    ∃ l1 l2, sessionToolCalls st (eventSid event) = l1 ++ l2 ∧
             allToolCalls (agents ss') = l1 ++ tc :: l2.
Proof.
  intros Hph Hok tc.
  destruct (pre_before config env event st Hph)
    as (st2 & ss4 & i & agent & -> & Hfa & Hst4 & Hla4 & Hcalls4 & Hp4).
  pose proof (recordToolStart_fields config env event i agent ss4 Hok) as Hrec.
  cbv zeta in Hrec. destruct Hrec as (Hs5 & Hag5 & Hp5 & _ & Hla5).
  eexists. split; [apply lookup_putSession|].
  rewrite Hs5, Hp5, Hag5, Hla5. repeat split; try done.
  - by rewrite lookup_insert_eq.
  - apply findActiveAgentAt_lookup in Hfa. intros E.
    apply (f_equal length) in E. rewrite length_alter in E.
    apply lookup_lt_Some in Hfa. simpl in E. lia.
  - apply findActiveAgentAt_lookup in Hfa.
    destruct (allToolCalls_push tc i agent (agents ss4) Hfa) as (l1 & l2 & E1 & E2).
    exists l1, l2. by rewrite <- Hcalls4.
Qed.

(** What [case 'pre'] leaves in the session of the event in either
    case. *)
Lemma pre_session config env event st :
  ev_phase event = Pre →
  ∃ ss', sessions (processEvent config env event st) !! eventSid event = Some ss' ∧
    s_status (session ss') = SActive ∧
    lastActivity ss' = ev_timestamp event.
Proof.
  intros Hph.
  destruct (summarizeInputThrows (ev_tool_name event) (ev_tool_input event)) eqn:Hthrow.
  - destruct (pre_thrown config env event st Hph Hthrow) as (ss' & Hl & Hs & Ha & _).
    by exists ss'.
  - destruct (pre_effect config env event st Hph Hthrow) as (ss' & Hl & Hs & Ha & _).
    by exists ss'.
Qed.

Lemma pre_pending config env event st :
  ev_phase event = Pre →
  summarizeInputThrows (ev_tool_name event) (ev_tool_input event) = false →
  sessionPending (processEvent config env event st) (eventSid event)
  = <[ev_tool_name event := (env_clock env, env_suffix env)]>
      (sessionPending st (eventSid event)).
Proof.
  intros Hph Hok.
  destruct (pre_before config env event st Hph)
    as (st2 & ss4 & i & agent & -> & Hfa & Hst4 & Hla4 & Hcalls4 & Hp4).
  pose proof (recordToolStart_fields config env event i agent ss4 Hok) as Hrec.
  cbv zeta in Hrec. destruct Hrec as (_ & _ & Hp5 & _).
  unfold sessionPending at 1. rewrite lookup_putSession, Hp5, Hp4.
  pose proof (getOrCreateSession_fields (eventSid event) (ev_timestamp event)
    (detectSource event) st) as Hg. cbv zeta in Hg. destruct Hg as (_ & _ & ->). done.
Qed.

(** Case split on whether the recording of the tool call is cut short;
    in that case the recording is rewritten to the state it started from. *)
Ltac start_cases config env event i agent ss Hok :=
  destruct (summarizeInputThrows (ev_tool_name event) (ev_tool_input event)) eqn:Hok;
  [rewrite (recordToolStart_thrown config env event i agent ss Hok)|].

(** *** The pipeline of [case 'post'] *)

Lemma locateCall_None (pid : ToolCallId) (l : list Agent) :
  list_find (λ c, tc_id c = pid) (allToolCalls l) = None → locateCall pid l = None.
Proof.
  induction l as [|a l IH]; [done|].
  rewrite allToolCalls_cons. intros H.
  apply list_find_app_None in H as [H1 H2].
  simpl. unfold findCall. rewrite H1. simpl. by rewrite IH.
Qed.

Lemma settlePending_fields event ss :
  let ss' := settlePending event ss in
  session ss' = session ss ∧ timeline ss' = timeline ss ∧ files ss' = files ss ∧
  stats_startedAt ss' = stats_startedAt ss ∧ lastActivity ss' = lastActivity ss ∧
  pendingToolCalls ss' = delete (ev_tool_name event) (pendingToolCalls ss) ∧
  length (agents ss') = length (agents ss).
Proof.
  unfold settlePending. simpl.
  destruct (pendingToolCalls ss !! ev_tool_name event) as [pid|] eqn:E; simpl.
  - destruct (locateCall pid (agents ss)) as [[i j]|]; simpl; [|done].
    destruct (summarizeOutputThrows _); simpl; [by rewrite length_alter|].
    destruct (detectError _); simpl; rewrite length_alter; done.
  - repeat split; try done. symmetry. by apply delete_id.
Qed.

Lemma settlePending_calls event ss :
  allToolCalls (agents (settlePending event ss)) =
  match pendingToolCalls ss !! ev_tool_name event with
  | Some pid =>
      match list_find (λ c, tc_id c = pid) (allToolCalls (agents ss)) with
      | Some (k, _) => alter (settleCall event) k (allToolCalls (agents ss))
      | None => allToolCalls (agents ss)
      end
  | None => allToolCalls (agents ss)
  end.
Proof.
  unfold settlePending.
  destruct (pendingToolCalls ss !! ev_tool_name event) as [pid|]; [|done].
  destruct (list_find _ (allToolCalls (agents ss))) as [[k tc]|] eqn:Hfind.
  - destruct (locateCall_flat pid (settleCall event) _ _ _ Hfind) as (i & j & -> & Halt).
    simpl. rewrite <- Halt. unfold settleCall.
    destruct (summarizeOutputThrows _); simpl; [done|].
    destruct (detectError _); simpl; done.
  - by rewrite (locateCall_None _ _ Hfind).
Qed.

Lemma settleCall_id event tc :
  tc_id (settleCall event tc) = tc_id tc ∧ tc_tool (settleCall event tc) = tc_tool tc ∧
  tc_startedAt (settleCall event tc) = tc_startedAt tc ∧
  tc_completedAt (settleCall event tc) = ev_timestamp event.
Proof. unfold settleCall. by destruct (summarizeOutputThrows _). Qed.

(** [settleThrows] in terms of the flat list of calls. *)
Lemma settleThrows_spec event ss :
  settleThrows event ss = true ↔
  summarizeOutputThrows (ev_tool_response event) = true ∧
  ∃ pid, pendingToolCalls ss !! ev_tool_name event = Some pid ∧
         is_Some (list_find (λ c, tc_id c = pid) (allToolCalls (agents ss))).
Proof.
  unfold settleThrows.
  destruct (pendingToolCalls ss !! ev_tool_name event) as [pid|];
    [|split; [done|by intros [_ (pid & ? & _)]]].
  rewrite andb_true_iff, bool_decide_eq_true. split.
  - intros [Hl Hs]. split; [done|]. exists pid. split; [done|].
    destruct (list_find _ (allToolCalls (agents ss))) as [[k tc]|] eqn:Hfind; [done|].
    rewrite (locateCall_None _ _ Hfind) in Hl. by destruct Hl.
  - intros [Hs (pid' & [= <-] & [[k tc] Hfind])]. split; [|done].
    destruct (locateCall_flat pid id _ _ _ Hfind) as (i & j & -> & _). done.
Qed.

Lemma completeLastSubagent_fields ts ss :
  let ss' := completeLastSubagent ts ss in
  session ss' = session ss ∧ timeline ss' = timeline ss ∧ files ss' = files ss ∧
  stats ss' = stats ss ∧ stats_startedAt ss' = stats_startedAt ss ∧
  pendingToolCalls ss' = pendingToolCalls ss ∧ lastActivity ss' = lastActivity ss ∧
  length (agents ss') = length (agents ss) ∧
  allToolCalls (agents ss') = allToolCalls (agents ss).
Proof.
  unfold completeLastSubagent. simpl. case_match; simpl; [|done].
  rewrite length_alter, allToolCalls_alter_same; done.
Qed.

Lemma recordToolEnd_calls config event agent ss :
  allToolCalls (agents (recordToolEnd config event agent ss))
  = allToolCalls (agents (settlePending event ss)).
Proof.
  unfold recordToolEnd. cbv zeta. destruct (settleThrows event ss); [done|].
  simpl. case_match; [|done].
  match goal with |- context [completeLastSubagent ?t ?s] =>
    pose proof (completeLastSubagent_fields t s) as Hc; cbv zeta in Hc end.
  destruct Hc as (_ & _ & _ & _ & _ & _ & _ & _ & ->). done.
Qed.

Lemma processEvent_post config env event st :
  ev_phase event = Post →
  processEvent config env event st =
  let ss1 := reactivateIfEnded
               (getOrCreateSession (eventSid event) (ev_timestamp event)
                  (detectSource event) st) (ev_timestamp event) in
  putSession (eventSid event)
    (match findActiveAgentAt (agents ss1) with
     | Some (_, agent) => recordToolEnd config event agent ss1
     | None => ss1
     end) st.
Proof. intros Hph. unfold processEvent. by rewrite Hph. Qed.

Lemma post_calls config env event st :
  ev_phase event = Post →
  ∃ ss', sessions (processEvent config env event st) !! eventSid event = Some ss' ∧
    allToolCalls (agents ss') =
    match sessions st !! eventSid event with
    | None => []
    | Some ss =>
        match agents ss with
        | [] => []
        | _ =>
          match pendingToolCalls ss !! ev_tool_name event with
          | Some pid =>
              match list_find (λ c, tc_id c = pid) (allToolCalls (agents ss)) with
              | Some (k, _) => alter (settleCall event) k (allToolCalls (agents ss))
              | None => allToolCalls (agents ss)
              end
          | None => allToolCalls (agents ss)
          end
        end
    end.
Proof.
  intros Hph. rewrite (processEvent_post _ _ _ _ Hph). cbv zeta.
  eexists. split; [apply lookup_putSession|].
  set (ss0 := getOrCreateSession _ _ _ _).
  pose proof (reactivateIfEnded_fields ss0 (ev_timestamp event)) as Hr.
  cbv zeta in Hr.
  destruct Hr as (_ & _ & _ & _ & _ & _ & _ & _ & Hp1 & _ & Hlen & Hcalls1).
  pose proof (getOrCreateSession_fields (eventSid event) (ev_timestamp event)
    (detectSource event) st) as Hg. cbv zeta in Hg. fold ss0 in Hg.
  destruct Hg as (Hag0 & _ & Hp0).
  destruct (findActiveAgentAt _) as [[i agent]|] eqn:Hfa.
  - rewrite recordToolEnd_calls, settlePending_calls, Hp1, Hcalls1, Hp0, Hag0.
    apply findActiveAgentAt_lookup in Hfa. apply lookup_lt_Some in Hfa.
    rewrite Hlen, Hag0 in Hfa.
    destruct (sessions st !! eventSid event) as [ss|]; simpl in Hfa; [|lia].
    destruct (agents ss); simpl in Hfa; [lia|done].
  - rewrite Hcalls1, Hag0.
    destruct (sessions st !! eventSid event) as [ss|]; [|done].
    destruct (agents ss) as [|a l] eqn:E; [done|].
    destruct (findActiveAgentAt_nonempty (agents (reactivateIfEnded ss0 (ev_timestamp event))))
      as (i & ag & Hfa' & _); [|congruence].
    intros E'. rewrite E' in Hlen. rewrite Hag0 in Hlen. simpl in Hlen. lia.
Qed.

Lemma recordToolEnd_fields config event agent ss :
  let ss' := recordToolEnd config event agent ss in
  session ss' = session ss ∧ lastActivity ss' = lastActivity ss ∧
  files ss' = files ss ∧ stats_startedAt ss' = stats_startedAt ss ∧
  length (agents ss') = length (agents ss).
Proof.
  unfold recordToolEnd. cbv zeta.
  pose proof (settlePending_fields event ss) as Hs. cbv zeta in Hs.
  destruct Hs as (Hs1 & _ & Hs2 & Hs3 & Hs4 & _ & Hs5).
  destruct (settleThrows event ss); [done|].
  case_match; simpl.
  - match goal with |- context [completeLastSubagent ?t ?s] =>
      pose proof (completeLastSubagent_fields t s) as Hc; cbv zeta in Hc end.
    destruct Hc as (-> & _ & -> & _ & -> & _ & -> & -> & _). simpl.
    by rewrite Hs1, Hs2, Hs3, Hs4, Hs5.
  - by rewrite Hs1, Hs2, Hs3, Hs4, Hs5.
Qed.

Lemma recordToolEnd_thrown config event agent ss :
  settleThrows event ss = true →
  recordToolEnd config event agent ss = settlePending event ss.
Proof. intros H. unfold recordToolEnd. cbv zeta. by rewrite H. Qed.

Lemma settlePending_thrown_stats event ss :
  settleThrows event ss = true → stats (settlePending event ss) = stats ss.
Proof.
  unfold settleThrows, settlePending.
  destruct (pendingToolCalls ss !! ev_tool_name event) as [pid|]; [|done].
  destruct (locateCall pid (agents ss)) as [[i j]|]; [|done].
  rewrite andb_true_iff. intros [_ ->]. done.
Qed.

Lemma processEventThrows_pre event st :
  ev_phase event = Pre →
  processEventThrows event st
  = summarizeInputThrows (ev_tool_name event) (ev_tool_input event).
Proof. intros H. unfold processEventThrows. by rewrite H. Qed.

Lemma processEventThrows_post event st :
  ev_phase event = Post →
  processEventThrows event st
  = match findActiveAgentAt
            (agents (reactivateIfEnded
                       (getOrCreateSession (eventSid event) (ev_timestamp event)
                          (detectSource event) st) (ev_timestamp event))) with
    | Some _ =>
        settleThrows event
          (reactivateIfEnded
             (getOrCreateSession (eventSid event) (ev_timestamp event)
                (detectSource event) st) (ev_timestamp event))
    | None => false
    end.
Proof. intros H. unfold processEventThrows. by rewrite H. Qed.

Lemma recordToolEnd_pending config event agent ss :
  pendingToolCalls (recordToolEnd config event agent ss)
  = delete (ev_tool_name event) (pendingToolCalls ss).
Proof.
  unfold recordToolEnd. cbv zeta.
  pose proof (settlePending_fields event ss) as H. cbv zeta in H.
  destruct H as (_ & _ & _ & _ & _ & <- & _).
  destruct (settleThrows event ss); [done|].
  case_match; [|done]. unfold completeLastSubagent. by case_match.
Qed.

(** *** Arithmetic of the counters *)

Lemma stats_eq (a b : Stats) :
  toolCalls a = toolCalls b → filesAccessed a = filesAccessed b →
  estimatedTokens a = estimatedTokens b → linesAdded a = linesAdded b →
  linesRemoved a = linesRemoved b → turns a = turns b → errors a = errors b →
  a = b.
Proof. destruct a, b; simpl; congruence. Qed.

Ltac stats_arith :=
  repeat match goal with s : Stats |- _ => destruct s end;
  unfold stats_le, addStats, zeroStats in *; simpl in *;
  try (apply stats_eq; simpl); try lia.

Lemma addStats_comm a b : addStats a b = addStats b a.
Proof. stats_arith. Qed.

Lemma addStats_assoc a b c : addStats a (addStats b c) = addStats (addStats a b) c.
Proof. stats_arith. Qed.

Lemma addStats_zero_r a : addStats a zeroStats = a.
Proof. stats_arith. Qed.

Lemma addStats_zero_l a : addStats zeroStats a = a.
Proof. stats_arith. Qed.

Lemma addStats_cancel_l a b c : addStats a b = addStats a c → b = c.
Proof. intros H. stats_arith; injection H; lia. Qed.

Lemma stats_le_refl a : stats_le a a.
Proof. stats_arith. Qed.

Lemma stats_le_trans a b c : stats_le a b → stats_le b c → stats_le a c.
Proof. intros H1 H2. stats_arith. Qed.

Lemma addStats_mono a b c d : stats_le a b → stats_le c d → stats_le (addStats a c) (addStats b d).
Proof. intros H1 H2. stats_arith. Qed.

Lemma ceilDiv4_nonneg n : 0 ≤ ceilDiv4 n.
Proof. unfold ceilDiv4. apply Z.div_pos; lia. Qed.

Lemma estimateTokens_nonneg t : 0 ≤ estimateTokens t.
Proof. destruct t; simpl; [apply ceilDiv4_nonneg|lia]. Qed.

Lemma countLines_nonneg s : 0 ≤ countLines s.
Proof. unfold countLines. destruct (truthy_str s); lia. Qed.

(** *** Sums over the session map *)

Lemma sumStats_perm l1 l2 : l1 ≡ₚ l2 → sumStats l1 = sumStats l2.
Proof.
  induction 1 as [|x l1 l2 _ IH|x y l|l1 l2 l3 _ IH1 _ IH2]; simpl.
  - done.
  - by rewrite IH.
  - by rewrite !addStats_assoc, (addStats_comm (stats y.2)).
  - by rewrite IH1.
Qed.

Lemma foldedStats_perm now l1 l2 : l1 ≡ₚ l2 → foldedStats now l1 = foldedStats now l2.
Proof.
  induction 1 as [|x l1 l2 _ IH|x y l|l1 l2 l3 _ IH1 _ IH2]; simpl.
  - done.
  - by rewrite IH.
  - repeat case_match; try done.
    by rewrite !addStats_assoc, (addStats_comm (stats y.2)).
  - by rewrite IH1.
Qed.

Lemma foldl_addStats (c : Stats) (l : list (string * SessionState)) :
  foldl (λ acc e, addStats acc (stats e.2)) c l = addStats c (sumStats l).
Proof.
  revert c. induction l as [|e l IH]; intros c; simpl.
  - by rewrite addStats_zero_r.
  - by rewrite IH, addStats_assoc.
Qed.

Lemma totals_eq st :
  totals st = addStats (carryOverStats st) (sumStats (map_to_list (sessions st))).
Proof. unfold totals, getPublicState. simpl. apply foldl_addStats. Qed.

Lemma sumStats_delete (m : gmap string SessionState) k s :
  m !! k = Some s →
  sumStats (map_to_list m) = addStats (stats s) (sumStats (map_to_list (delete k m))).
Proof. intros H. by rewrite <- (sumStats_perm _ _ (map_to_list_delete m k s H)). Qed.

Lemma sumStats_insert (m : gmap string SessionState) k s :
  sumStats (map_to_list (<[k := s]> m))
  = addStats (stats s) (sumStats (map_to_list (delete k m))).
Proof.
  rewrite <- insert_delete_eq.
  by rewrite (sumStats_perm _ _ (map_to_list_insert (delete k m) k s (lookup_delete_eq m k))).
Qed.

Lemma sumStats_delete_None (m : gmap string SessionState) k :
  m !! k = None → sumStats (map_to_list (delete k m)) = sumStats (map_to_list m).
Proof. intros H. by rewrite delete_id. Qed.

(** *** The pruner, session by session *)

Lemma pruneOne_sessions config now st k s sid :
  sessions (pruneOne config now st (k, s)) !! sid =
  if decide (sid = k) then
    (if retentionDue now s || ghostDue now s then None
     else if staleDue config now s then Some (endSession (Some now) s)
     else sessions st !! k)
  else sessions st !! sid.
Proof.
  unfold pruneOne.
  destruct (retentionDue now s); simpl.
  { destruct (decide (sid = k)) as [->|?];
      [apply lookup_delete_eq|by apply lookup_delete_ne]. }
  destruct (ghostDue now s); simpl.
  { destruct (decide (sid = k)) as [->|?];
      [apply lookup_delete_eq|by apply lookup_delete_ne]. }
  destruct (staleDue config now s); simpl.
  { destruct (decide (sid = k)) as [->|?];
      [apply lookup_insert_eq|by apply lookup_insert_ne]. }
  by destruct (decide (sid = k)) as [->|?].
Qed.

Lemma prune_fold_sessions config now (l : list (string * SessionState)) :
  NoDup l.*1 → ∀ st0 sid,
  sessions (foldl (pruneOne config now) st0 l) !! sid =
  match (list_to_map l : gmap string SessionState) !! sid with
  | Some s =>
      if retentionDue now s || ghostDue now s then None
      else if staleDue config now s then Some (endSession (Some now) s)
      else sessions st0 !! sid
  | None => sessions st0 !! sid
  end.
Proof.
  induction l as [|[k s] l IH]; intros Hnd st0 sid; [done|].
  rewrite fmap_cons in Hnd. apply NoDup_cons in Hnd as [Hk Hnd].
  cbn [foldl]. rewrite (IH Hnd). cbn [list_to_map foldr uncurry].
  rewrite pruneOne_sessions.
  destruct (decide (sid = k)) as [->|Hne].
  - rewrite (not_elem_of_list_to_map_1 l k Hk), lookup_insert_eq. done.
  - rewrite lookup_insert_ne by done. done.
Qed.

(** A pass of the pruner decides each session on its own. *)
Lemma prune_lookup config now st sid :
  sessions (pruneStaleAndEndedSessions config now st) !! sid
  = sessions st !! sid ≫= pruneSession config now.
Proof.
  unfold pruneStaleAndEndedSessions.
  rewrite prune_fold_sessions by apply NoDup_fst_map_to_list.
  rewrite list_to_map_to_list.
  destruct (sessions st !! sid) as [s|] eqn:E; simpl; [|done].
  unfold pruneSession. repeat case_match; done.
Qed.

Lemma prune_fold_carry config now (l : list (string * SessionState)) st0 :
  carryOverStats (foldl (pruneOne config now) st0 l)
  = addStats (carryOverStats st0) (foldedStats now l).
Proof.
  revert st0. induction l as [|[k s] l IH]; intros st0; simpl.
  - by rewrite addStats_zero_r.
  - rewrite IH. unfold pruneOne.
    destruct (retentionDue now s); simpl.
    { by rewrite !addStats_assoc. }
    destruct (ghostDue now s); simpl; [done|].
    by destruct (staleDue config now s).
Qed.

Lemma prune_carry config now st :
  carryOverStats (pruneStaleAndEndedSessions config now st)
  = addStats (carryOverStats st) (foldedStats now (map_to_list (sessions st))).
Proof. apply prune_fold_carry. Qed.

Lemma prune_fold_counter config now (l : list (string * SessionState)) st0 :
  agentIdCounter (foldl (pruneOne config now) st0 l) = agentIdCounter st0.
Proof.
  revert st0. induction l as [|[k s] l IH]; intros st0; simpl; [done|].
  rewrite IH. unfold pruneOne. repeat case_match; done.
Qed.

Lemma foldedStats_none now (l : list (string * SessionState)) :
  (∀ e, e ∈ l → retentionDue now e.2 = false) → foldedStats now l = zeroStats.
Proof.
  induction l as [|e l IH]; intros H; simpl; [done|].
  rewrite (H e) by apply list_elem_of_here.
  apply IH. intros e' He'. apply H. by apply list_elem_of_further.
Qed.

Lemma ghostDue_not_retentionDue now s : ghostDue now s = true → retentionDue now s = false.
Proof.
  unfold ghostDue, retentionDue. intros H.
  apply andb_true_iff in H as [H _]. apply andb_true_iff in H as [H _].
  apply bool_decide_eq_true in H. rewrite H. done.
Qed.

(** *** Counters along one event *)

Lemma trackLines_le tool inp s : stats_le s (trackLines tool inp s).
Proof.
  unfold trackLines. destruct inp as [inp|]; [|apply stats_le_refl].
  pose proof (countLines_nonneg (ti_content inp)).
  repeat case_match; try apply stats_le_refl;
    unfold stats_le; destruct s; simpl; repeat split; lia.
Qed.

Lemma trackFileAccess_stats ss tool inp ts :
  stats_le (stats ss) (stats (trackFileAccess ss tool inp ts)).
Proof.
  unfold trackFileAccess. pose proof (trackLines_le tool inp (stats ss)) as H.
  repeat case_match; simpl; try done.
  eapply stats_le_trans; [exact H|].
  unfold stats_le; destruct (trackLines tool inp (stats ss)); simpl; repeat split; lia.
Qed.

Lemma recordToolStart_stats config env event i agent ss :
  stats_le (stats ss) (stats (recordToolStart config env event i agent ss)).
Proof.
  unfold recordToolStart. cbv zeta.
  destruct (summarizeInputThrows _ _); [apply stats_le_refl|].
  change (stats (addTimelineEvent ?c ?s ?t ?k ?a)) with (stats s).
  eapply stats_le_trans; [|apply trackFileAccess_stats]. simpl.
  pose proof (estimateTokens_nonneg (ti_text <$> ev_tool_input event)).
  unfold stats_le; destruct (stats ss); simpl; repeat split; lia.
Qed.

Lemma settlePending_stats event ss :
  stats_le (stats ss) (stats (settlePending event ss)).
Proof.
  unfold settlePending. repeat case_match; simpl; try apply stats_le_refl.
  unfold stats_le; destruct (stats ss); simpl; repeat split; lia.
Qed.

Lemma recordToolEnd_stats config event agent ss :
  stats_le (stats ss) (stats (recordToolEnd config event agent ss)).
Proof.
  unfold recordToolEnd. cbv zeta.
  destruct (settleThrows event ss); [apply settlePending_stats|].
  change (stats (addTimelineEvent ?c ?s ?t ?k ?a)) with (stats s).
  eapply stats_le_trans; [apply (settlePending_stats event)|].
  pose proof (estimateTokens_nonneg (tr_text <$> ev_tool_response event)).
  case_match.
  - match goal with |- context [completeLastSubagent ?t ?s] =>
      pose proof (completeLastSubagent_fields t s) as Hc; cbv zeta in Hc end.
    destruct Hc as (_ & _ & _ & -> & _). simpl.
    unfold stats_le; destruct (stats (settlePending event ss)); simpl; repeat split; lia.
  - simpl.
    unfold stats_le; destruct (stats (settlePending event ss)); simpl; repeat split; lia.
Qed.

Lemma getOrCreateSession_stats sid ts source st :
  stats (getOrCreateSession sid ts source st) = sessionStats st sid.
Proof.
  pose proof (getOrCreateSession_fields sid ts source st) as H. cbv zeta in H.
  destruct H as (_ & -> & _). unfold sessionStats. done.
Qed.

Lemma reactivateIfEnded_stats ss ts : stats (reactivateIfEnded ss ts) = stats ss.
Proof.
  pose proof (reactivateIfEnded_fields ss ts) as H. cbv zeta in H.
  by destruct H as (_ & _ & _ & _ & _ & _ & -> & _).
Qed.

(** How [processEvent] rewrites the state: it leaves it alone, or it writes
    one session back under the identifier of the event. *)
Lemma processEvent_shape config env event st :
  processEvent config env event st = st ∨
  ∃ ss' st2,
    processEvent config env event st = putSession (eventSid event) ss' st2 ∧
    ((ev_phase event ≠ SessionStart ∧
      sessions st2 = sessions st ∧ carryOverStats st2 = carryOverStats st ∧
      stats_le (sessionStats st (eventSid event)) (stats ss')) ∨
     (ev_phase event = SessionStart ∧
      sessions st2 = delete (eventSid event) (sessions st) ∧
      carryOverStats st2
        = addStats (carryOverStats st) (sessionStats st (eventSid event)) ∧
      stats ss' = zeroStats)).
Proof.
  destruct (ev_phase event) eqn:Hph.
  - (* session_start *)
    right. unfold processEvent. rewrite Hph.
    set (st0 := match sessions st !! eventSid event with
                | Some old => _ | None => st end).
    assert (sessions st0 = delete (eventSid event) (sessions st) ∧
            carryOverStats st0
              = addStats (carryOverStats st) (sessionStats st (eventSid event)))
      as [Hs0 Hc0].
    { unfold st0, sessionStats.
      destruct (sessions st !! eventSid event) eqn:E; simpl; [done|].
      by rewrite delete_id, addStats_zero_r. }
    destruct (getOrCreateMainAgent env st0 _) as [[st1 ss1] im] eqn:Hmain.
    destruct im as [mi main].
    pose proof (getOrCreateMainAgent_fields _ _ _ _ _ _ _ Hmain) as Hm.
    destruct Hm as (_ & _ & _ & Hst & _ & _ & _ & Hs1 & Hc1 & _).
    exists ss1, st1. split; [done|]. right.
    split; [done|]. split; [congruence|]. split; [congruence|].
    rewrite Hst, getOrCreateSession_stats. unfold sessionStats.
    by rewrite Hs0, lookup_delete_eq.
  - (* session_end *)
    unfold processEvent. rewrite Hph. unfold getSession.
    destruct (sessions st !! eventSid event) as [ss|] eqn:E; [|by left].
    right. exists (endSession (ev_timestamp event) ss), st.
    split; [done|]. left. split; [done|]. split; [done|]. split; [done|].
    unfold sessionStats. rewrite E. apply stats_le_refl.
  - (* pre *)
    right.
    assert (ev_phase event = Pre) as Hph' by done.
    destruct (processEvent_pre config env event st Hph')
      as (st1 & ss2 & mi & mainAgent & st2 & ss4 & i & agent & Hmain & Hsp & Hfa & ->).
    exists (recordToolStart config env event i agent ss4), st2.
    split; [done|]. left. split; [done|].
    pose proof (getOrCreateMainAgent_fields _ _ _ _ _ _ _ Hmain) as Hm.
    destruct Hm as (_ & _ & _ & Hst2 & _ & _ & _ & Hs1 & Hc1 & _).
    pose proof (captureModel_fields (ev_model event) mi mainAgent ss2) as Hc.
    cbv zeta in Hc. destruct Hc as (_ & _ & _ & _ & _ & _ & Hst3 & _).
    assert (sessions st2 = sessions st ∧ carryOverStats st2 = carryOverStats st ∧
            stats ss4 = sessionStats st (eventSid event)) as (? & ? & Hst4).
    { destruct (bool_decide (ev_tool_name event = "Task"%string)).
      - destruct Hsp as (st' & ss' & sub & Hsp & -> & ->).
        apply spawn_fields in Hsp.
        destruct Hsp as (_ & _ & _ & _ & _ & _ & _ & Hs' & Hc' & _ & _ & _ & _ & Hst' & _).
        simpl. rewrite Hs', Hc', Hst', Hst3, Hst2, reactivateIfEnded_stats,
          getOrCreateSession_stats. done.
      - destruct Hsp as (-> & ->).
        rewrite Hst3, Hst2, reactivateIfEnded_stats, getOrCreateSession_stats. done. }
    split; [done|]. split; [done|]. rewrite <- Hst4. apply recordToolStart_stats.
  - (* post *)
    right. rewrite processEvent_post by done. cbv zeta.
    eexists _, st. split; [done|]. left. split; [done|]. split; [done|]. split; [done|].
    rewrite <- (getOrCreateSession_stats _ (ev_timestamp event) (detectSource event)).
    rewrite <- (reactivateIfEnded_stats _ (ev_timestamp event)).
    case_match; [|apply stats_le_refl].
    case_match. apply recordToolEnd_stats.
  - (* notification *)
    right. unfold processEvent. rewrite Hph.
    eexists _, st. split; [done|]. left. split; [done|]. split; [done|]. split; [done|].
    rewrite <- (getOrCreateSession_stats _ (ev_timestamp event) (detectSource event)).
    rewrite <- (reactivateIfEnded_stats _ (ev_timestamp event)).
    set (ss1 := reactivateIfEnded _ _).
    assert (stats_le (stats ss1) (stats (with_stats (upd_turns (λ n, n + 1) (stats ss1)) ss1))).
    { simpl. unfold stats_le; destruct (stats ss1); simpl; repeat split; lia. }
    by case_match; [case_match|].
  - by left; unfold processEvent; rewrite Hph.
Qed.

(** *** What each kind of event does to the calls and markers of its session *)

(** An event leaves the sessions of other identifiers as they are. *)
Lemma processEvent_other config env event st sid :
  sid ≠ eventSid event →
  sessions (processEvent config env event st) !! sid = sessions st !! sid.
Proof.
  intros Hne.
  destruct (processEvent_shape config env event st)
    as [->|(ss' & st2 & -> & [(_ & Hs & _)|(_ & Hs & _)])]; [done| |].
  - rewrite lookup_putSession_ne by done. by rewrite Hs.
  - rewrite lookup_putSession_ne by done. rewrite Hs. by apply lookup_delete_ne.
Qed.

Lemma post_pending config env event st :
  ev_phase event = Post →
  sessionPending (processEvent config env event st) (eventSid event)
  = match sessions st !! eventSid event with
    | None => ∅
    | Some ss =>
        match agents ss with
        | [] => pendingToolCalls ss
        | _ => delete (ev_tool_name event) (pendingToolCalls ss)
        end
    end.
Proof.
  intros Hph. rewrite (processEvent_post _ _ _ _ Hph). cbv zeta.
  unfold sessionPending. rewrite lookup_putSession.
  set (ss0 := getOrCreateSession _ _ _ _).
  pose proof (reactivateIfEnded_fields ss0 (ev_timestamp event)) as Hr.
  cbv zeta in Hr.
  destruct Hr as (_ & _ & _ & _ & _ & _ & _ & _ & Hp1 & _ & Hlen & _).
  pose proof (getOrCreateSession_fields (eventSid event) (ev_timestamp event)
    (detectSource event) st) as Hg. cbv zeta in Hg. fold ss0 in Hg.
  destruct Hg as (Hag0 & _ & Hp0).
  destruct (findActiveAgentAt _) as [[i agent]|] eqn:Hfa.
  - rewrite recordToolEnd_pending, Hp1, Hp0.
    apply findActiveAgentAt_lookup in Hfa. apply lookup_lt_Some in Hfa.
    rewrite Hlen, Hag0 in Hfa.
    destruct (sessions st !! eventSid event) as [ss|]; simpl in Hfa; [|lia].
    destruct (agents ss); simpl in Hfa; [lia|done].
  - rewrite Hp1, Hp0.
    destruct (sessions st !! eventSid event) as [ss|]; [|done].
    destruct (agents ss) as [|a l] eqn:E; [done|].
    destruct (findActiveAgentAt_nonempty (agents (reactivateIfEnded ss0 (ev_timestamp event))))
      as (i & ag & Hfa' & _); [|congruence].
    intros E'. rewrite E' in Hlen. rewrite Hag0 in Hlen. simpl in Hlen. lia.
Qed.

(** A [notification] touches neither the calls nor the markers. *)
Lemma notification_effect config env event st :
  ev_phase event = Notification →
  sessionToolCalls (processEvent config env event st) (eventSid event)
  = sessionToolCalls st (eventSid event) ∧
  sessionPending (processEvent config env event st) (eventSid event)
  = sessionPending st (eventSid event).
Proof.
  intros Hph. unfold processEvent. rewrite Hph.
  unfold sessionToolCalls at 1, sessionPending at 1. rewrite lookup_putSession.
  set (ss0 := getOrCreateSession _ _ _ _).
  pose proof (reactivateIfEnded_fields ss0 (ev_timestamp event)) as Hr.
  cbv zeta in Hr.
  destruct Hr as (_ & _ & _ & _ & _ & _ & _ & _ & Hp1 & _ & _ & Hc1).
  pose proof (getOrCreateSession_fields (eventSid event) (ev_timestamp event)
    (detectSource event) st) as Hg. cbv zeta in Hg. fold ss0 in Hg.
  destruct Hg as (Hag0 & _ & Hp0).
  assert (allToolCalls (agents ss0) = sessionToolCalls st (eventSid event)) as Hc0.
  { rewrite Hag0. unfold sessionToolCalls. by destruct (sessions st !! eventSid event). }
  fold (sessionPending st (eventSid event)) in Hp0.
  rewrite <- Hc0, <- Hp0, <- Hc1, <- Hp1.
  destruct (findActiveAgentAt _) as [[i agent]|]; split; reflexivity.
Qed.

Lemma endSession_calls t ss :
  allToolCalls (agents (endSession t ss)) = allToolCalls (agents ss).
Proof.
  unfold endSession. simpl. apply allToolCalls_fmap_same.
  intros a. unfold completeIfActive. by case_match.
Qed.

(** A [session_end] touches neither the calls nor the markers. *)
Lemma session_end_effect config env event st :
  ev_phase event = SessionEnd →
  sessionToolCalls (processEvent config env event st) (eventSid event)
  = sessionToolCalls st (eventSid event) ∧
  sessionPending (processEvent config env event st) (eventSid event)
  = sessionPending st (eventSid event).
Proof.
  intros Hph. unfold processEvent, getSession. rewrite Hph.
  destruct (sessions st !! eventSid event) as [ss|] eqn:E; [|done].
  unfold sessionToolCalls, sessionPending. rewrite lookup_putSession, E.
  by rewrite endSession_calls.
Qed.

(** A pass of the pruner that keeps a session touches neither its calls
    nor its markers. *)
Lemma prune_effect config now st sid :
  is_Some (sessions (pruneStaleAndEndedSessions config now st) !! sid) →
  sessionToolCalls (pruneStaleAndEndedSessions config now st) sid
  = sessionToolCalls st sid ∧
  sessionPending (pruneStaleAndEndedSessions config now st) sid
  = sessionPending st sid.
Proof.
  unfold sessionToolCalls, sessionPending. rewrite prune_lookup.
  destruct (sessions st !! sid) as [ss|]; [|by intros [? ?]].
  change (Some ss ≫= pruneSession config now) with (pruneSession config now ss).
  unfold pruneSession.
  destruct (retentionDue now ss || ghostDue now ss); [by intros [? ?]|].
  destruct (staleDue config now ss); intros _; [|done].
  by rewrite endSession_calls.
Qed.


(** [case 'pre'] in terms of the calls and markers of the session. *)
Lemma pre_thrown_effect config env event st :
  ev_phase event = Pre →
  summarizeInputThrows (ev_tool_name event) (ev_tool_input event) = true →
  sessionToolCalls (processEvent config env event st) (eventSid event)
  = sessionToolCalls st (eventSid event) ∧
  sessionPending (processEvent config env event st) (eventSid event)
  = sessionPending st (eventSid event).
Proof.
  intros Hph Hthrow.
  destruct (pre_thrown config env event st Hph Hthrow)
    as (ss' & Hss' & _ & _ & Hpend & Hcalls).
  unfold sessionPending at 1, sessionToolCalls at 1. rewrite Hss', Hpend, Hcalls.
  split; [done|].
  pose proof (getOrCreateSession_fields (eventSid event) (ev_timestamp event)
    (detectSource event) st) as Hg. cbv zeta in Hg. by destruct Hg as (_ & _ & ->).
Qed.

Lemma pre_calls config env event st :
  ev_phase event = Pre →
  summarizeInputThrows (ev_tool_name event) (ev_tool_input event) = false →
  ∃ l1 l2,
    sessionToolCalls st (eventSid event) = l1 ++ l2 ∧
    sessionToolCalls (processEvent config env event st) (eventSid event)
    = l1 ++ mkToolCall (env_clock env, env_suffix env) (ev_tool_name event)
              (ev_timestamp event) None Executing :: l2.
Proof.
  intros Hph Hok.
  destruct (pre_effect config env event st Hph Hok)
    as (ss' & Hss' & _ & _ & _ & _ & l1 & l2 & E1 & E2).
  exists l1, l2. split; [done|]. unfold sessionToolCalls at 1. by rewrite Hss'.
Qed.

(** [case 'post'] in terms of the calls and markers of a session that has
    a call. *)
Lemma post_effect config env event st :
  ev_phase event = Post →
  sessionToolCalls st (eventSid event) ≠ [] →
  sessionPending (processEvent config env event st) (eventSid event)
  = delete (ev_tool_name event) (sessionPending st (eventSid event)) ∧
  sessionToolCalls (processEvent config env event st) (eventSid event)
  = match sessionPending st (eventSid event) !! ev_tool_name event with
    | Some pid =>
        match list_find (λ c, tc_id c = pid) (sessionToolCalls st (eventSid event)) with
        | Some (k, _) =>
            alter (settleCall event) k (sessionToolCalls st (eventSid event))
        | None => sessionToolCalls st (eventSid event)
        end
    | None => sessionToolCalls st (eventSid event)
    end.
Proof.
  intros Hph Hne.
  rewrite post_pending by done.
  destruct (post_calls config env event st Hph) as (ss' & Hss' & Hcalls).
  unfold sessionToolCalls at 1. rewrite Hss', Hcalls.
  unfold sessionToolCalls, sessionPending in *.
  destruct (sessions st !! eventSid event) as [ss|]; [|done].
  destruct (agents ss) as [|a l] eqn:E; [|done].
  by destruct Hne.
Qed.

(** When [case 'post'] throws. *)
Lemma post_throws event st :
  ev_phase event = Post →
  processEventThrows event st = true ↔
  summarizeOutputThrows (ev_tool_response event) = true ∧
  ∃ pid, sessionPending st (eventSid event) !! ev_tool_name event = Some pid ∧
         is_Some (list_find (λ c, tc_id c = pid) (sessionToolCalls st (eventSid event))).
Proof.
  intros Hph. rewrite processEventThrows_post by done.
  set (ss0 := getOrCreateSession _ _ _ _).
  pose proof (reactivateIfEnded_fields ss0 (ev_timestamp event)) as Hr.
  cbv zeta in Hr.
  destruct Hr as (_ & _ & _ & _ & _ & _ & _ & _ & Hp1 & _ & Hlen & Hc1).
  pose proof (getOrCreateSession_fields (eventSid event) (ev_timestamp event)
    (detectSource event) st) as Hg. cbv zeta in Hg. fold ss0 in Hg.
  destruct Hg as (Hag0 & _ & Hp0).
  assert (allToolCalls (agents ss0) = sessionToolCalls st (eventSid event)) as Hc0.
  { rewrite Hag0. unfold sessionToolCalls. by destruct (sessions st !! eventSid event). }
  fold (sessionPending st (eventSid event)) in Hp0.
  rewrite <- Hc0, <- Hp0, <- Hc1, <- Hp1.
  destruct (findActiveAgentAt _) as [[i agent]|] eqn:Hfa; [apply settleThrows_spec|].
  split; [done|]. intros (_ & pid & _ & [[k c] Hfind]).
  destruct (agents (reactivateIfEnded ss0 (ev_timestamp event))) as [|a l] eqn:E.
  - done.
  - destruct (findActiveAgentAt_nonempty (a :: l)) as (i & b & Hfa' & _); [done|].
    by rewrite Hfa' in Hfa.
Qed.

(** ** C1: one pending marker per tool name, not one executing call *)

Lemma executingCount_app t l1 l2 :
  executingCount t (l1 ++ l2) = (executingCount t l1 + executingCount t l2)%nat.
Proof. unfold executingCount. by rewrite filter_app, length_app. Qed.

(** C1, as stated, fails: two [pre] events of tool ["Read"] with no [post]
    in between leave two calls of that name in state [executing] in the
    session. *)
Lemma two_pre_two_executing :
  executingCount "Read" (sessionToolCalls stReadTwice "s1") = 2%nat.
Proof. vm_compute. reflexivity. Qed.

(** C1, amended: what is unique per (session, tool name) is the pending
    marker.  A [pre] event of tool [T] that is processed to its end makes
    the session map [T] to the identifier of the call just recorded; that
    call is appended in state [executing], every earlier call is kept as it
    was, and the number of executing calls of [T] grows by one whatever it
    was before.  The exception is a [pre] on which [summarizeInput] throws
    ([T] names a member inherited from [Object.prototype] and the event
    has a tool input): it records no call and leaves the markers as they
    were. *)
Theorem pre_sets_single_pending_marker config env event st :
  ev_phase event = Pre →
  let st' := processEvent config env event st in
  let sid := eventSid event in
  let T := ev_tool_name event in
  let tc := mkToolCall (env_clock env, env_suffix env) T
              (ev_timestamp event) None Executing in
  (summarizeInputThrows T (ev_tool_input event) = false →
   sessionPending st' sid = <[T := tc_id tc]> (sessionPending st sid) ∧
   (∃ l1 l2, sessionToolCalls st sid = l1 ++ l2 ∧
             sessionToolCalls st' sid = l1 ++ tc :: l2) ∧
   executingCount T (sessionToolCalls st' sid)
   = S (executingCount T (sessionToolCalls st sid))) ∧
  (summarizeInputThrows T (ev_tool_input event) = true →
   sessionPending st' sid = sessionPending st sid ∧
   sessionToolCalls st' sid = sessionToolCalls st sid).
Proof.
  intros Hph st' sid T tc.
  pose proof (getOrCreateSession_fields sid (ev_timestamp event) (detectSource event) st)
    as Hg. cbv zeta in Hg. destruct Hg as (_ & _ & Hp0).
  fold (sessionPending st sid) in Hp0.
  split; intros Hthrow.
  - destruct (pre_effect config env event st Hph Hthrow)
      as (ss' & Hss' & _ & _ & Hpend & _ & l1 & l2 & E1 & E2).
    assert (sessionToolCalls st' sid = l1 ++ tc :: l2) as E2'.
    { unfold sessionToolCalls, st', sid. by rewrite Hss'. }
    split; [|split; [by exists l1, l2|]].
    + by apply pre_pending.
    + fold sid in E1. rewrite E2', E1.
      change (l1 ++ tc :: l2) with (l1 ++ [tc] ++ l2).
      rewrite !executingCount_app. unfold executingCount at 2.
      rewrite filter_cons_True by done. simpl. lia.
  - destruct (pre_thrown config env event st Hph Hthrow)
      as (ss' & Hss' & _ & _ & Hpend & Hcalls).
    unfold sessionPending at 1, sessionToolCalls at 1, st', sid.
    rewrite Hss', Hpend, Hcalls. split; [exact Hp0|done].
Qed.

Lemma pre_sets_single_pending_marker_witness :
  (sessionPending stReadTwice "s1" !! "Read"%string = Some (1001, "q7zd"%string) ∧
   executingCount "Read" (sessionToolCalls stReadTwice "s1")
   = S (executingCount "Read" (sessionToolCalls stRead "s1"))) ∧
  sessionToolCalls stValueOf "s1" = sessionToolCalls stRead "s1".
Proof.
  split.
  - destruct (proj1 (pre_sets_single_pending_marker cfg0 envB
                       (mkEv Pre (Some 11) "s1" "Read") stRead eq_refl) eq_refl)
      as (Hp & _ & Hc).
    split; [|exact Hc].
    etrans; [exact (f_equal (.!! "Read"%string) Hp)|]. apply lookup_insert_eq.
  - apply (proj2 (pre_sets_single_pending_marker cfg0 envB evValueOf stRead eq_refl) eq_refl).
Defined.

(** ** C2: the parent of a spawned subagent *)

Lemma Forall2_alter_r {A} (R : A → A → Prop) (f : A → A) (i : nat) (l : list A) :
  (∀ a, R a a) → (∀ a, R a (f a)) → Forall2 R l (alter f i l).
Proof.
  intros Hrefl Hf. revert i. induction l as [|a l IH]; intros [|i]; simpl.
  - constructor.
  - constructor.
  - constructor; [apply Hf|]. by apply Forall_Forall2_diag, Forall_forall.
  - constructor; [apply Hrefl|]. apply IH.
Qed.

Lemma findMain_Forall2 (R : Agent → Agent → Prop) (l l' : list Agent) i m :
  (∀ a a', R a a' → a_type a' = a_type a) →
  Forall2 R l l' → findMain l = Some (i, m) →
  ∃ m', findMain l' = Some (i, m') ∧ R m m'.
Proof.
  intros HR HF Hfind. unfold findMain in *.
  apply list_find_Some in Hfind as (Hi & Hm & Hbefore).
  destruct (Forall2_lookup_l _ _ _ _ _ HF Hi) as (m' & Hi' & Hmm').
  exists m'. split; [|done]. apply list_find_Some. split; [done|].
  split; [by rewrite (HR _ _ Hmm')|].
  intros j y Hy Hlt.
  destruct (Forall2_lookup_r _ _ _ _ _ HF Hy) as (x & Hx & Hxy).
  rewrite (HR _ _ Hxy). by eapply Hbefore.
Qed.

Lemma sameIdentity_refl a : sameIdentity a a.
Proof. done. Qed.

Lemma sameIdentity_type a a' : sameIdentity a a' → a_type a' = a_type a.
Proof. by intros (_ & ? & _). Qed.

Lemma captureModel_agents model mi mainAgent ss :
  Forall2 sameIdentity (agents ss) (agents (captureModel model mi mainAgent ss)).
Proof.
  unfold captureModel. repeat case_match; simpl;
    try (apply Forall_Forall2_diag, Forall_forall; done).
  apply Forall2_alter_r; done.
Qed.

(** C2, as stated, fails: with a subagent as the currently-active agent of
    the session, the subagent created by the next [pre] of tool ["Task"]
    has the main agent as parent, not the active subagent. *)
Lemma nested_spawn_parent_is_not_active_agent :
  ∃ ss active ss' sub,
    sessions stTask !! "s1"%string = Some ss ∧
    s_status (session ss) = SActive ∧
    findActiveAgent ss = Some active ∧
    a_type active = Subagent ∧ a_id active = 1%nat ∧
    sessions stTaskNested !! "s1"%string = Some ss' ∧
    last (agents ss') = Some sub ∧
    length (agents ss') = S (length (agents ss)) ∧
    a_type sub = Subagent ∧
    a_parentId sub = Some 0%nat ∧
    a_parentId sub ≠ Some (a_id active).
Proof.
  eexists _, _, _, _.
  split; [vm_compute; reflexivity|].
  split; [reflexivity|].
  split; [vm_compute; reflexivity|].
  split; [reflexivity|]. split; [reflexivity|].
  split; [vm_compute; reflexivity|].
  split; [vm_compute; reflexivity|].
  repeat split; try reflexivity. discriminate.
Qed.

(** C2, amended: the subagent created by a [pre] of tool ["Task"] is
    appended with [parentId] equal to the identifier of the session's main
    agent, whichever agent is currently active; it is a new agent (its
    identifier comes from the counter) of status [active]. *)
Theorem spawn_parent_is_main_agent config env event st :
  ev_phase event = Pre →
  ev_tool_name event = "Task"%string →
  ∃ ss' older sub i main,
    sessions (processEvent config env event st) !! eventSid event = Some ss' ∧
    agents ss' = older ++ [sub] ∧
    findMain older = Some (i, main) ∧
    a_type sub = Subagent ∧ a_status sub = AActive ∧
    (agentIdCounter st ≤ a_id sub)%nat ∧
    a_parentId sub = Some (a_id main).
Proof.
  intros Hph Htask.
  destruct (processEvent_pre config env event st Hph)
    as (st1 & ss2 & mi & mainAgent & st2 & ss4 & i & agent & Hmain & Hsp & Hfa & ->).
  rewrite bool_decide_eq_true_2 in Hsp by done.
  destruct Hsp as (st' & ss' & sub & Hsp & -> & ->).
  apply spawn_fields in Hsp.
  destruct Hsp as (Hag & Hid & Hty & Hpar & Hst & _ & _).
  pose proof (getOrCreateMainAgent_fields _ _ _ _ _ _ _ Hmain) as Hm.
  destruct Hm as (_ & _ & _ & _ & _ & _ & _ & _ & _ & _ & _ & Hfm & _ & Hcnt).
  assert (agentIdCounter st ≤ agentIdCounter st1)%nat as Hle.
  { destruct Hcnt as [[_ ->]|(_ & _ & _ & _ & ->)]; lia. }
  pose proof (captureModel_agents (ev_model event) mi mainAgent ss2) as Hcap.
  destruct (findMain_Forall2 _ _ _ _ _ sameIdentity_type Hcap Hfm)
    as (main3 & Hfm3 & Hid3 & _).
  set (tc := mkToolCall (env_clock env, env_suffix env) (ev_tool_name event)
               (ev_timestamp event) None Executing).
  set (l3 := agents (captureModel (ev_model event) mi mainAgent ss2)) in *.
  assert (summarizeInputThrows (ev_tool_name event) (ev_tool_input event) = false) as Hok.
  { rewrite Htask. apply summarizeInputThrows_Task. }
  pose proof (recordToolStart_fields config env event i agent
    (addTimelineEvent config ss' (ev_timestamp event) AgentSpawn (a_id sub)) Hok) as Hrec.
  cbv zeta in Hrec. destruct Hrec as (_ & Hag5 & _).
  change (agents (addTimelineEvent config ss' (ev_timestamp event) AgentSpawn (a_id sub)))
    with (agents ss') in Hag5.
  rewrite Hag in Hag5. fold tc in Hag5.
  assert (Forall2 sameIdentity l3 (alter (agent_push_toolCall tc) i l3)) as Hpush.
  { apply Forall2_alter_r; done. }
  destruct (findMain_Forall2 _ _ _ _ _ sameIdentity_type Hpush Hfm3)
    as (main5 & Hfm5 & Hid5 & _).
  eexists _. destruct (decide (i < length l3)%nat) as [Hlt|Hge].
  - exists (alter (agent_push_toolCall tc) i l3), sub, mi, main5.
    split; [apply lookup_putSession|].
    split; [by rewrite Hag5, alter_app_l|].
    repeat split; try done; [lia|congruence].
  - exists l3, (agent_push_toolCall tc sub), mi, main3.
    split; [apply lookup_putSession|].
    split.
    { rewrite Hag5, alter_app_r_alt by lia.
      f_equal. destruct (i - length l3)%nat eqn:E; [done|].
      apply findActiveAgentAt_lookup in Hfa. apply lookup_lt_Some in Hfa.
      simpl in Hfa. rewrite Hag, length_app in Hfa. simpl in Hfa. lia. }
    repeat split; try done; simpl; [lia|congruence].
Qed.

Lemma spawn_parent_is_main_agent_witness :
  ∃ ss' older sub i main,
    sessions stTaskNested !! eventSid (mkEv Pre (Some 12) "s1" "Task") = Some ss' ∧
    agents ss' = older ++ [sub] ∧
    findMain older = Some (i, main) ∧
    a_type sub = Subagent ∧ a_status sub = AActive ∧
    (agentIdCounter stTask ≤ a_id sub)%nat ∧
    a_parentId sub = Some (a_id main).
Proof.
  apply (spawn_parent_is_main_agent cfg0 envC (mkEv Pre (Some 12) "s1" "Task") stTask);
    reflexivity.
Defined.

(** ** C4: deleting a session *)

Ltac by_evaluation := refine (bool_decide_unpack _ _); vm_compute; exact I.

(** The retention-window deletion of the pruner, on the sample state: the
    counters of ["s1"] are added once to the carry-over, the name of its
    main agent leaves the pool of used names, and the session leaves the
    map. *)
Lemma retention_deletion_releases_name :
  let st' := pruneStaleAndEndedSessions cfg0 125000 stEnded in
  sessionStats stEnded "s1" = mkStats 1 0 0 0 0 0 0 ∧
  carryOverStats stEnded = zeroStats ∧
  carryOverStats st' = mkStats 1 0 0 0 0 0 0 ∧
  sessions st' !! "s1"%string = None ∧
  "Nova"%string ∈ usedNames stEnded ∧
  "Nova"%string ∉ usedNames st'.
Proof.
  repeat split; try (vm_compute; reflexivity); by_evaluation.
Qed.

(** C4 at the failing input: [session_start] for the existing session
    ["s1"].  The counters are folded once and the old session is replaced
    by a fresh one with zero counters, but the name ["Nova"] of the old
    main agent stays in [usedNames] although no agent carries it any
    more. *)
Theorem session_start_reset_keeps_name :
  sessionStats stRead "s1" = mkStats 1 0 0 0 0 0 0 ∧
  carryOverStats stRead = zeroStats ∧
  a_name <$> ps_agents (getPublicState stRead) = ["Nova"]%string ∧
  carryOverStats stRestarted = mkStats 1 0 0 0 0 0 0 ∧
  sessionStats stRestarted "s1" = zeroStats ∧
  a_name <$> ps_agents (getPublicState stRestarted) = ["Cipher"]%string ∧
  "Nova"%string ∈ usedNames stRestarted.
Proof.
  repeat split; try (vm_compute; reflexivity); by_evaluation.
Qed.

(** *** The two deletions in general *)

Lemma releaseMainNames_elem x (l : list Agent) (u : gset string) :
  x ∈ releaseMainNames l u ↔
  x ∈ u ∧ ∀ a, a ∈ l → a_type a = Main → a_name a ≠ x.
Proof.
  unfold releaseMainNames. revert u. induction l as [|b l IH]; intros u; simpl.
  - split; [|by intros [? _]]. intros H. split; [done|].
    intros a Ha. by apply elem_of_nil in Ha.
  - rewrite IH. split.
    + intros [Hx Hl]. destruct (decide (a_type b = Main)) as [Hb|Hb].
      * apply elem_of_difference in Hx as [Hx Hnb]. split; [done|].
        intros a Ha Hm. apply elem_of_cons in Ha as [->|Ha]; [set_solver|by apply Hl].
      * split; [done|]. intros a Ha Hm.
        apply elem_of_cons in Ha as [->|Ha]; [done|by apply Hl].
    + intros [Hx Hl]. split.
      * destruct (decide (a_type b = Main)) as [Hb|Hb]; [|done].
        apply elem_of_difference. split; [done|].
        specialize (Hl b (list_elem_of_here _ _) Hb). set_solver.
      * intros a Ha. apply Hl. by apply list_elem_of_further.
Qed.

Lemma prune_fold_usedNames config now x (l : list (string * SessionState)) st0 :
  x ∈ usedNames (foldl (pruneOne config now) st0 l) ↔
  x ∈ usedNames st0 ∧
  ∀ k s, (k, s) ∈ l → retentionDue now s || ghostDue now s = true →
         ∀ a, a ∈ agents s → a_type a = Main → a_name a ≠ x.
Proof.
  revert st0. induction l as [|[k s] l IH]; intros st0.
  - simpl. split; [|by intros [? _]]. intros H. split; [done|].
    intros k s Hin. by apply elem_of_nil in Hin.
  - cbn [foldl]. rewrite IH.
    assert (x ∈ usedNames (pruneOne config now st0 (k, s)) ↔
            x ∈ usedNames st0 ∧
            (retentionDue now s || ghostDue now s = true →
             ∀ a, a ∈ agents s → a_type a = Main → a_name a ≠ x)) as Hone.
    { unfold pruneOne. destruct (retentionDue now s); simpl.
      - rewrite releaseMainNames_elem.
        split; intros [H1 H2]; (split; [done|]); [intros _; exact H2|by apply H2].
      - destruct (ghostDue now s); simpl.
        + rewrite releaseMainNames_elem.
          split; intros [H1 H2]; (split; [done|]); [intros _; exact H2|by apply H2].
        + destruct (staleDue config now s); simpl;
            (split; [intros H1; split; [done|intros ?; discriminate]|by intros [? _]]). }
    rewrite Hone. split.
    + intros [[Hx Hs] Hl]. split; [done|]. intros k' s' Hin.
      apply elem_of_cons in Hin as [[= -> ->]|Hin]; [done|by eapply Hl].
    + intros [Hx Hl]. split; [split; [done|]|].
      * apply (Hl k s). apply list_elem_of_here.
      * intros k' s' Hin. apply (Hl k' s'). by apply list_elem_of_further.
Qed.

(** The retention-window deletion, for any state: the session leaves the
    map, its counters are added once to what the pass folds otherwise, and
    the name of its main agent is no longer reserved. *)
Lemma retention_deletion_effects config now st sid s :
  sessions st !! sid = Some s →
  retentionDue now s = true →
  let st' := pruneStaleAndEndedSessions config now st in
  sessions st' !! sid = None ∧
  carryOverStats st'
    = addStats (stats s)
        (carryOverStats
           (pruneStaleAndEndedSessions config now
              (with_sessions (delete sid (sessions st)) st))) ∧
  ∀ a, a ∈ agents s → a_type a = Main → a_name a ∉ usedNames st'.
Proof.
  intros Hs Hret. cbv zeta. split; [|split].
  - rewrite prune_lookup, Hs. simpl. unfold pruneSession. by rewrite Hret.
  - rewrite !prune_carry. simpl.
    rewrite <- (foldedStats_perm _ _ _ (map_to_list_delete _ _ _ Hs)). simpl.
    rewrite Hret. rewrite !addStats_assoc. f_equal. apply addStats_comm.
  - intros a Ha Hm Hin. unfold pruneStaleAndEndedSessions in Hin.
    apply prune_fold_usedNames in Hin as [_ Hl].
    assert ((sid, s) ∈ map_to_list (sessions st)) as Hin by by apply elem_of_map_to_list.
    assert (retentionDue now s || ghostDue now s = true) as Hdue by by rewrite Hret.
    exact (Hl sid s Hin Hdue a Ha Hm eq_refl).
Qed.

(** The reset of [session_start], for any state: the counters of the old
    session are added once to the carry-over and a fresh session with zero
    counters takes its place; every name reserved before is still
    reserved. *)
Lemma session_start_reset_effects config env event st old :
  ev_phase event = SessionStart →
  sessions st !! eventSid event = Some old →
  let st' := processEvent config env event st in
  carryOverStats st' = addStats (carryOverStats st) (stats old) ∧
  (∃ ss' main, sessions st' !! eventSid event = Some ss' ∧
               stats ss' = zeroStats ∧ pendingToolCalls ss' = ∅ ∧
               agents ss' = [main] ∧ a_id main = agentIdCounter st) ∧
  usedNames st ⊆ usedNames st'.
Proof.
  intros Hph Hold. cbv zeta. unfold processEvent. rewrite Hph, Hold.
  set (st0 := mkState (delete (eventSid event) (sessions st)) (agentIdCounter st)
                (addStats (carryOverStats st) (stats old)) (usedNames st)).
  set (ss0 := getOrCreateSession (eventSid event) (ev_timestamp event)
                (detectSource event) st0).
  assert (agents ss0 = [] ∧ stats ss0 = zeroStats ∧ pendingToolCalls ss0 = ∅)
    as (Hag & Hst & Hp).
  { pose proof (getOrCreateSession_fields (eventSid event) (ev_timestamp event)
      (detectSource event) st0) as Hg. cbv zeta in Hg. fold ss0 in Hg.
    destruct Hg as (-> & -> & ->). unfold st0. simpl. by rewrite lookup_delete_eq. }
  destruct (getOrCreateMainAgent env st0 ss0) as [[st1 ss1] [mi main]] eqn:Hmain.
  pose proof Hmain as Hnames.
  apply getOrCreateMainAgent_fields in Hmain.
  destruct Hmain as (_ & _ & _ & Hst1 & _ & Hp1 & _ & _ & Hc1 & Hmi & _ & _ & _ & Hcases).
  destruct Hcases as [[Hsame _]|(Hag1 & Hid & _ & _ & _)].
  { rewrite Hsame, Hag in Hmi. done. }
  split; [simpl; by rewrite Hc1|]. split.
  - exists ss1, main. split; [apply lookup_putSession|].
    rewrite Hst1, Hst, Hp1, Hp, Hag1, Hag. done.
  - unfold getOrCreateMainAgent in Hnames. rewrite Hag in Hnames. simpl in Hnames.
    injection Hnames as <- _ _ _. simpl. set_solver.
Qed.

(** ** C5: counters never decrease *)

Lemma totals_putSession sid ss st :
  totals (putSession sid ss st)
  = addStats (carryOverStats st)
      (addStats (stats ss) (sumStats (map_to_list (delete sid (sessions st))))).
Proof. rewrite totals_eq. simpl. by rewrite sumStats_insert. Qed.

Lemma totals_split st sid :
  totals st
  = addStats (carryOverStats st)
      (addStats (sessionStats st sid) (sumStats (map_to_list (delete sid (sessions st))))).
Proof.
  rewrite totals_eq. f_equal. unfold sessionStats.
  destruct (sessions st !! sid) as [s|] eqn:E.
  - by apply sumStats_delete.
  - by rewrite addStats_zero_l, delete_id.
Qed.

Lemma totals_pruneOne config now st k s :
  sessions st !! k = Some s → ghostDue now s = false →
  totals (pruneOne config now st (k, s)) = totals st.
Proof.
  intros Hk Hg. unfold pruneOne. rewrite Hg.
  destruct (retentionDue now s).
  - rewrite (totals_split st k), totals_eq. simpl. unfold sessionStats. rewrite Hk.
    by rewrite !addStats_assoc.
  - destruct (staleDue config now s); [|done].
    change (with_sessions (<[k:=endSession (Some now) s]> (sessions st)) st)
      with (putSession k (endSession (Some now) s) st).
    rewrite totals_putSession, (totals_split st k). unfold sessionStats. by rewrite Hk.
Qed.

Lemma totals_prune_fold config now (l : list (string * SessionState)) :
  NoDup l.*1 → ∀ st0,
  (∀ k s, (k, s) ∈ l → sessions st0 !! k = Some s ∧ ghostDue now s = false) →
  totals (foldl (pruneOne config now) st0 l) = totals st0.
Proof.
  induction l as [|[k s] l IH]; intros Hnd st0 Hl; [done|].
  rewrite fmap_cons in Hnd. apply NoDup_cons in Hnd as [Hk Hnd].
  destruct (Hl k s) as [Hks Hg]; [apply list_elem_of_here|].
  cbn [foldl]. rewrite (IH Hnd).
  - by apply totals_pruneOne.
  - intros k' s' Hin. destruct (Hl k' s') as [Hk' Hg']; [by apply list_elem_of_further|].
    split; [|done]. rewrite pruneOne_sessions.
    rewrite decide_False; [done|]. intros ->. apply Hk.
    apply list_elem_of_fmap. by exists (k, s').
Qed.

Lemma retentionDue_not_ghostDue now s : retentionDue now s = true → ghostDue now s = false.
Proof.
  intros H. destruct (ghostDue now s) eqn:E; [|done].
  apply ghostDue_not_retentionDue in E. congruence.
Qed.

(** C5.  While a session lives (that is, for every event other than a
    [session_start] that resets it), each of its counters after the event
    is at least what it was before.  The totals of the public state are
    never decreased by an event, and are exactly preserved by the
    delete-then-fold cycles: the reset performed by [session_start], the
    retention-window deletion of one session by the pruner, and a whole
    pass of the pruner all of whose deletions fold (no ghost session is
    due); a session that survives the pass keeps its counters. *)
Theorem counters_never_decrease config :
  (∀ env event st sid ss,
     sessions st !! sid = Some ss →
     ¬ (ev_phase event = SessionStart ∧ eventSid event = sid) →
     ∃ ss', sessions (processEvent config env event st) !! sid = Some ss' ∧
            stats_le (stats ss) (stats ss')) ∧
  (∀ env event st,
     stats_le (totals st) (totals (processEvent config env event st))) ∧
  (∀ env event st,
     ev_phase event = SessionStart →
     totals (processEvent config env event st) = totals st) ∧
  (∀ now st k s,
     sessions st !! k = Some s → retentionDue now s = true →
     sessions (pruneOne config now st (k, s)) !! k = None ∧
     totals (pruneOne config now st (k, s)) = totals st) ∧
  (∀ now st,
     (∀ k s, sessions st !! k = Some s → ghostDue now s = false) →
     totals (pruneStaleAndEndedSessions config now st) = totals st) ∧
  (∀ now st sid ss ss',
     sessions st !! sid = Some ss →
     sessions (pruneStaleAndEndedSessions config now st) !! sid = Some ss' →
     stats ss' = stats ss).
Proof.
  split; [|split; [|split; [|split; [|split]]]].
  - intros env event st sid ss Hss Hreset.
    destruct (processEvent_shape config env event st)
      as [->|(ss' & st2 & -> & [(Hph & Hs & Hc & Hle)|(Hph & Hs & Hc & Hz)])].
    + exists ss. split; [done|apply stats_le_refl].
    + destruct (decide (eventSid event = sid)) as [<-|Hne].
      * exists ss'. split; [apply lookup_putSession|].
        unfold sessionStats in Hle. by rewrite Hss in Hle.
      * exists ss. rewrite lookup_putSession_ne, Hs by done.
        split; [done|apply stats_le_refl].
    + destruct (decide (eventSid event = sid)) as [<-|Hne]; [by destruct Hreset|].
      exists ss. rewrite lookup_putSession_ne, Hs, lookup_delete_ne by done.
      split; [done|apply stats_le_refl].
  - intros env event st.
    destruct (processEvent_shape config env event st)
      as [->|(ss' & st2 & -> & [(Hph & Hs & Hc & Hle)|(Hph & Hs & Hc & Hz)])].
    + apply stats_le_refl.
    + rewrite totals_putSession, (totals_split st (eventSid event)), Hs, Hc.
      apply addStats_mono; [apply stats_le_refl|].
      apply addStats_mono; [done|apply stats_le_refl].
    + rewrite totals_putSession, (totals_split st (eventSid event)), Hs, Hc, Hz.
      rewrite delete_delete_eq, addStats_zero_l, <- addStats_assoc.
      apply stats_le_refl.
  - intros env event st Hstart.
    destruct (processEvent_shape config env event st)
      as [E|(ss' & st2 & -> & [(Hph & _)|(Hph & Hs & Hc & Hz)])]; [|done|].
    + by rewrite E.
    + rewrite totals_putSession, (totals_split st (eventSid event)), Hs, Hc, Hz.
      by rewrite delete_delete_eq, addStats_zero_l, <- addStats_assoc.
  - intros now st k s Hk Hret. split.
    + rewrite pruneOne_sessions, decide_True by done. by rewrite Hret.
    + apply totals_pruneOne; [done|by apply retentionDue_not_ghostDue].
  - intros now st Hng. unfold pruneStaleAndEndedSessions.
    apply totals_prune_fold; [apply NoDup_fst_map_to_list|].
    intros k s Hin. apply elem_of_map_to_list in Hin. split; [done|by eapply Hng].
  - intros now st sid ss ss' Hss Hss'.
    rewrite prune_lookup, Hss in Hss'. simpl in Hss'.
    unfold pruneSession in Hss'. repeat case_match; by simplify_eq.
Qed.

Lemma counters_never_decrease_witness :
  (∃ ss ss', sessions stRead !! "s1"%string = Some ss ∧
             sessions stReadDone !! "s1"%string = Some ss' ∧
             stats_le (stats ss) (stats ss')) ∧
  totals stRestarted = totals stRead ∧
  totals (pruneStaleAndEndedSessions cfg0 125000 stEnded) = totals stEnded.
Proof.
  destruct (counters_never_decrease cfg0) as (H1 & _ & H3 & _ & H4 & _).
  split; [|split].
  - assert (∃ ss, sessions stRead !! "s1"%string = Some ss) as [ss Hss].
    { eexists. vm_compute. reflexivity. }
    destruct (H1 envB (mkEv Post (Some 12) "s1" "Read") stRead "s1" ss Hss)
      as (ss' & Hss' & Hle).
    + intros [Hph _]. discriminate Hph.
    + exists ss, ss'. split; [exact Hss|]. split; [exact Hss'|exact Hle].
  - apply (H3 envB (mkSessionEv SessionStart (Some 20) "s1") stRead). reflexivity.
  - apply (H4 125000 stEnded).
    assert (map_Forall (λ _ s, ghostDue 125000 s = false) (sessions stEnded)) as HF.
    { refine (bool_decide_unpack _ _). vm_compute. exact I. }
    intros k s Hk. exact (HF k s Hk).
Defined.

(** ** C6: reactivation *)

Lemma alter_status_spec (l : list Agent) (i : nat) (main : Agent) :
  l !! i = Some main →
  alter (agent_set_status AActive None) i l = <[i := agent_set_status AActive None main]> l.
Proof.
  revert i. induction l as [|x l IH]; intros [|i] H; simplify_eq/=; try done.
  f_equal. by apply IH.
Qed.

(** C6.  On an ended session [reactivateIfEnded] sets the status to
    active, clears the end timestamp and sets the last-activity timestamp;
    if the main agent is completed it becomes active with no completion
    timestamp, every other agent and every other attribute of the main
    agent being kept; if the main agent is not completed (or there is
    none) the agents are kept.  On an active session nothing changes but
    the last-activity timestamp, and reactivating again with the same
    timestamp changes nothing at all. *)
Theorem reactivateIfEnded_spec (ss : SessionState) (timestamp : option Z) :
  let ss' := reactivateIfEnded ss timestamp in
  (s_status (session ss) = SEnded →
     s_status (session ss') = SActive ∧
     s_endedAt (session ss') = None ∧
     lastActivity ss' = timestamp ∧
     (∀ i main, findMain (agents ss) = Some (i, main) → a_status main = ACompleted →
        ∃ main', agents ss' = <[i := main']> (agents ss) ∧
                 agents ss' !! i = Some main' ∧
                 a_status main' = AActive ∧ a_completedAt main' = None ∧
                 a_id main' = a_id main ∧ a_type main' = Main ∧
                 a_name main' = a_name main ∧
                 a_toolCalls main' = a_toolCalls main) ∧
     ((∀ i main, findMain (agents ss) = Some (i, main) → a_status main = AActive) →
        agents ss' = agents ss)) ∧
  (s_status (session ss) = SActive →
     lastActivity ss' = timestamp ∧
     session ss' = session ss ∧ agents ss' = agents ss ∧
     timeline ss' = timeline ss ∧ files ss' = files ss ∧ stats ss' = stats ss ∧
     stats_startedAt ss' = stats_startedAt ss ∧
     pendingToolCalls ss' = pendingToolCalls ss ∧
     reactivateIfEnded ss' timestamp = ss').
Proof.
  intros ss'. subst ss'. unfold reactivateIfEnded. split.
  - intros Hended. rewrite decide_True by done. simpl.
    destruct (findMain (agents ss)) as [[i main]|] eqn:Hfind; simpl.
    + destruct (decide (a_status main = ACompleted)) as [Hc|Hc]; simpl.
      * repeat split; try done.
        -- intros i' main' [= <- <-] _.
           apply list_find_Some in Hfind as (Hi & Hm & _).
           exists (agent_set_status AActive None main).
           rewrite (alter_status_spec _ _ _ Hi).
           rewrite list_lookup_insert_eq by (by eapply lookup_lt_Some).
           done.
        -- intros Hall. specialize (Hall _ _ eq_refl). congruence.
      * repeat split; try done.
        intros i' main' [= <- <-] ?. done.
    + repeat split; try done.
  - intros Hact. rewrite decide_False by congruence. simpl.
    repeat split; try done.
    rewrite decide_False by congruence. done.
Qed.

Lemma reactivateIfEnded_spec_witness :
  (s_status (session (reactivateIfEnded sampleEnded (Some 40))) = SActive ∧
   s_endedAt (session (reactivateIfEnded sampleEnded (Some 40))) = None ∧
   lastActivity (reactivateIfEnded sampleEnded (Some 40)) = Some 40 ∧
   ∃ main', agents (reactivateIfEnded sampleEnded (Some 40)) !! 0%nat = Some main' ∧
            a_status main' = AActive ∧ a_completedAt main' = None) ∧
  reactivateIfEnded (reactivateIfEnded sampleEnded (Some 40)) (Some 40)
  = reactivateIfEnded sampleEnded (Some 40).
Proof.
  split.
  - destruct (proj1 (reactivateIfEnded_spec sampleEnded (Some 40)) eq_refl)
      as (H1 & H2 & H3 & H4 & _).
    split; [exact H1|]. split; [exact H2|]. split; [exact H3|].
    destruct (H4 0%nat
                (mkAgent 0 "Nova" Main None None None "s1" "claudecode"
                   ACompleted (Some 30) [] 0))
      as (main' & _ & Hm & Hs & Hc & _).
    + vm_compute. reflexivity.
    + reflexivity.
    + exists main'. split; [exact Hm|]. split; [exact Hs|exact Hc].
  - apply (proj2 (reactivateIfEnded_spec (reactivateIfEnded sampleEnded (Some 40)) (Some 40))).
    reflexivity.
Defined.

(** ** C7: ghost sessions *)

Lemma ps_sessions_elem st info :
  info ∈ ps_sessions (getPublicState st) ↔
  ∃ k ss, sessions st !! k = Some ss ∧ info = session ss.
Proof.
  unfold getPublicState. simpl. rewrite list_elem_of_fmap. split.
  - intros ([k ss] & -> & Hin). apply elem_of_map_to_list in Hin. by exists k, ss.
  - intros (k & ss & Hl & ->). exists (k, ss). split; [done|].
    by apply elem_of_map_to_list.
Qed.

Lemma pruneSession_id config now s s' :
  pruneSession config now s = Some s' → s_id (session s') = s_id (session s).
Proof. unfold pruneSession. repeat case_match; naive_solver. Qed.

(** C7.  An active session with no tool call, idle for more than 15
    seconds, is deleted by the next pass of the pruner: it is no longer in
    the session map nor among the sessions of the snapshot.  None of its
    counters reaches the carry-over: the carry-over after the pass is what
    it would be had the session not been there, and it is unchanged when
    the pass folds no other session. *)
Theorem ghost_session_is_dropped_unfolded config now st sid s t :
  keysMatch st →
  sessions st !! sid = Some s →
  s_status (session s) = SActive →
  toolCalls (stats s) = 0 →
  lastActivity s = Some t →
  15000 < now - t →
  let st' := pruneStaleAndEndedSessions config now st in
  sessions st' !! sid = None ∧
  (∀ info, info ∈ ps_sessions (getPublicState st') → s_id info ≠ sid) ∧
  carryOverStats st'
    = carryOverStats
        (pruneStaleAndEndedSessions config now
           (with_sessions (delete sid (sessions st)) st)) ∧
  ((∀ k s', k ≠ sid → sessions st !! k = Some s' → retentionDue now s' = false) →
   carryOverStats st' = carryOverStats st).
Proof.
  intros Hkeys Hs Hact Hzero Hla Hidle st'.
  assert (ghostDue now s = true) as Hghost.
  { unfold ghostDue. rewrite Hla, Hzero. simpl.
    rewrite bool_decide_eq_true_2 by done. simpl. by apply Z.ltb_lt. }
  pose proof (ghostDue_not_retentionDue _ _ Hghost) as Hret.
  assert (sessions st' !! sid = None) as Hgone.
  { unfold st'. rewrite prune_lookup, Hs. simpl. unfold pruneSession.
    by rewrite Hghost, orb_true_r. }
  assert (carryOverStats st'
          = carryOverStats (pruneStaleAndEndedSessions config now
                              (with_sessions (delete sid (sessions st)) st))) as Hframe.
  { unfold st'. rewrite !prune_carry. simpl. f_equal.
    rewrite <- (foldedStats_perm _ _ _ (map_to_list_delete _ _ _ Hs)).
    simpl. by rewrite Hret. }
  split; [done|]. split; [|split; [done|]].
  - intros info Hin Hid. apply ps_sessions_elem in Hin as (k & ss & Hk & ->).
    unfold st' in Hk. rewrite prune_lookup in Hk.
    destruct (sessions st !! k) as [s0|] eqn:E; simpl in Hk; [|done].
    pose proof (pruneSession_id _ _ _ _ Hk) as Hid'.
    pose proof (Hkeys k s0 E) as Hkey. simpl in Hkey.
    assert (k = sid) as -> by congruence.
    rewrite Hs in E. injection E as <-.
    unfold pruneSession in Hk. by rewrite Hghost, orb_true_r in Hk.
  - intros Hothers. rewrite Hframe, prune_carry. simpl.
    rewrite foldedStats_none; [apply addStats_zero_r|].
    intros [k s'] Hin. apply elem_of_map_to_list in Hin. simpl.
    destruct (decide (k = sid)) as [->|Hne].
    + by rewrite lookup_delete_eq in Hin.
    + rewrite lookup_delete_ne in Hin by done. by eapply Hothers.
Qed.

Lemma ghost_session_is_dropped_unfolded_witness :
  let st' := pruneStaleAndEndedSessions cfg0 30000 stGhost in
  sessions st' !! "g1"%string = None ∧
  (∀ info, info ∈ ps_sessions (getPublicState st') → s_id info ≠ "g1"%string) ∧
  carryOverStats st' = carryOverStats stGhost.
Proof.
  pose proof (ghost_session_is_dropped_unfolded cfg0 30000 stGhost "g1") as H.
  edestruct H as (H1 & H2 & _ & H4).
  - unfold keysMatch. refine (bool_decide_unpack _ _). vm_compute. exact I.
  - vm_compute. reflexivity.
  - reflexivity.
  - reflexivity.
  - reflexivity.
  - vm_compute. reflexivity.
  - split; [exact H1|]. split; [exact H2|]. apply H4.
    assert (map_Forall (λ _ s', retentionDue 30000 s' = false) (sessions stGhost)) as HF.
    { refine (bool_decide_unpack _ _). vm_compute. exact I. }
    intros k s' _ Hk. exact (HF k s' Hk).
Defined.

(** The hypothesis [keysMatch] of C7 holds in every state the core can
    reach. *)
Lemma getOrCreateSession_id sid ts source st :
  keysMatch st → s_id (session (getOrCreateSession sid ts source st)) = sid.
Proof.
  intros Hk. pose proof (getOrCreateSession_session sid ts source st) as H.
  cbv zeta in H. destruct H as (_ & -> & _).
  destruct (sessions st !! sid) as [s|] eqn:E; [|done]. exact (Hk sid s E).
Qed.

Lemma keysMatch_putSession sid ss st st2 :
  keysMatch st →
  sessions st2 = sessions st ∨ sessions st2 = delete sid (sessions st) →
  s_id (session ss) = sid →
  keysMatch (putSession sid ss st2).
Proof.
  intros Hk Hs Hid k s Hks. simpl.
  destruct (decide (k = sid)) as [->|Hne].
  - rewrite lookup_putSession in Hks. by injection Hks as <-.
  - rewrite lookup_putSession_ne in Hks by done.
    destruct Hs as [Hs|Hs]; rewrite Hs in Hks.
    + exact (Hk k s Hks).
    + rewrite lookup_delete_ne in Hks by done. exact (Hk k s Hks).
Qed.

Lemma processEvent_keysMatch config env event st :
  keysMatch st → keysMatch (processEvent config env event st).
Proof.
  intros Hk. destruct (ev_phase event) eqn:Hph.
  - unfold processEvent. rewrite Hph.
    set (st0 := match sessions st !! eventSid event with
                | Some old => _ | None => st end).
    assert (sessions st0 = delete (eventSid event) (sessions st)) as Hs0.
    { unfold st0. destruct (sessions st !! eventSid event) eqn:E; simpl; [done|].
      by rewrite delete_id. }
    assert (keysMatch st0) as Hk0.
    { intros k s Hks. rewrite Hs0 in Hks. simpl.
      apply lookup_delete_Some in Hks as [_ Hks]. exact (Hk k s Hks). }
    destruct (getOrCreateMainAgent env st0 _) as [[st1 ss1] [mi main]] eqn:Hmain.
    apply getOrCreateMainAgent_fields in Hmain.
    destruct Hmain as (Hsess & _ & _ & _ & _ & _ & _ & Hs1 & _).
    apply (keysMatch_putSession _ _ st); [done|right; congruence|].
    rewrite Hsess. by apply getOrCreateSession_id.
  - unfold processEvent. rewrite Hph. unfold getSession.
    destruct (sessions st !! eventSid event) as [ss|] eqn:E; [|done].
    apply (keysMatch_putSession _ _ st); [done|by left|]. exact (Hk _ _ E).
  - assert (ev_phase event = Pre) as Hph' by done.
    destruct (processEvent_pre config env event st Hph')
      as (st1 & ss2 & mi & mainAgent & st2 & ss4 & i & agent & Hmain & Hsp & Hfa & ->).
    apply getOrCreateMainAgent_fields in Hmain.
    destruct Hmain as (Hsess2 & _ & _ & _ & _ & _ & _ & Hs1 & _).
    pose proof (captureModel_fields (ev_model event) mi mainAgent ss2) as Hc.
    cbv zeta in Hc. destruct Hc as (Hid3 & _).
    pose proof (reactivateIfEnded_fields
      (getOrCreateSession (eventSid event) (ev_timestamp event) (detectSource event) st)
      (ev_timestamp event)) as Hr. cbv zeta in Hr. destruct Hr as (Hid1 & _).
    pose proof (recordToolStart_kept config env event i agent ss4) as Hrec.
    cbv zeta in Hrec. destruct Hrec as (Hsess5 & _).
    assert (sessions st2 = sessions st ∧ s_id (session ss4) = eventSid event) as [Hs2 Hid4].
    { destruct (bool_decide (ev_tool_name event = "Task"%string)).
      - destruct Hsp as (st' & ss' & sub & Hsp & -> & ->).
        apply spawn_fields in Hsp.
        destruct Hsp as (_ & _ & _ & _ & _ & _ & _ & Hs' & _ & _ & Hsess' & _).
        simpl. rewrite Hsess', Hid3, Hsess2, Hid1. split; [congruence|].
        by apply getOrCreateSession_id.
      - destruct Hsp as (-> & ->). rewrite Hid3, Hsess2, Hid1. split; [done|].
        by apply getOrCreateSession_id. }
    apply (keysMatch_putSession _ _ st); [done|by left|]. by rewrite Hsess5.
  - rewrite processEvent_post by done. cbv zeta.
    apply (keysMatch_putSession _ _ st); [done|by left|].
    set (ss0 := getOrCreateSession _ _ _ _).
    pose proof (reactivateIfEnded_fields ss0 (ev_timestamp event)) as Hr.
    cbv zeta in Hr. destruct Hr as (Hid1 & _).
    assert (s_id (session ss0) = eventSid event) as Hid0 by by apply getOrCreateSession_id.
    case_match; [|congruence]. case_match.
    pose proof (recordToolEnd_fields config event a (reactivateIfEnded ss0 (ev_timestamp event)))
      as He. cbv zeta in He. destruct He as (-> & _). congruence.
  - unfold processEvent. rewrite Hph.
    apply (keysMatch_putSession _ _ st); [done|by left|].
    set (ss0 := getOrCreateSession _ _ _ _).
    pose proof (reactivateIfEnded_fields ss0 (ev_timestamp event)) as Hr.
    cbv zeta in Hr. destruct Hr as (Hid1 & _).
    assert (s_id (session ss0) = eventSid event) as Hid0 by by apply getOrCreateSession_id.
    case_match; [case_match|];
      change (s_id (session (reactivateIfEnded ss0 (ev_timestamp event))) = eventSid event);
      congruence.
  - unfold processEvent. by rewrite Hph.
Qed.

Lemma prune_keysMatch config now st :
  keysMatch st → keysMatch (pruneStaleAndEndedSessions config now st).
Proof.
  intros Hk k s Hks. simpl. rewrite prune_lookup in Hks.
  destruct (sessions st !! k) as [s0|] eqn:E; simpl in Hks; [|done].
  apply pruneSession_id in Hks. rewrite Hks. exact (Hk k s0 E).
Qed.

Lemma reachable_keysMatch st : reachable st → keysMatch st.
Proof.
  unfold reachable. revert st. apply rtc_ind_r.
  - intros k s Hks. simpl in Hks. by rewrite lookup_empty in Hks.
  - intros st1 st2 _ Hstep IH. destruct Hstep.
    + by apply processEvent_keysMatch.
    + by apply prune_keysMatch.
Qed.

(** ** C9: disconnecting one platform *)

Lemma disconnect_fold_sessions platform (l : list (string * SessionState)) :
  NoDup l.*1 → ∀ st0 sid,
  sessions (foldl (disconnectOne platform) st0 l) !! sid =
  match (list_to_map l : gmap string SessionState) !! sid with
  | Some s =>
      if bool_decide (s_source (session s) = platform) then None
      else sessions st0 !! sid
  | None => sessions st0 !! sid
  end.
Proof.
  induction l as [|[k s] l IH]; intros Hnd st0 sid; [done|].
  rewrite fmap_cons in Hnd. apply NoDup_cons in Hnd as [Hk Hnd].
  cbn [foldl]. rewrite (IH Hnd). cbn [list_to_map foldr uncurry].
  destruct (decide (sid = k)) as [->|Hne].
  - rewrite (not_elem_of_list_to_map_1 l k Hk), lookup_insert_eq.
    unfold disconnectOne.
    repeat case_bool_decide; simpl; try done; apply lookup_delete_eq.
  - rewrite lookup_insert_ne by done.
    assert (sessions (disconnectOne platform st0 (k, s)) !! sid = sessions st0 !! sid) as ->.
    { unfold disconnectOne.
      destruct (bool_decide (s_source (session s) = platform)); simpl;
        [by apply lookup_delete_ne|done]. }
    done.
Qed.

(** C9.  The disconnect command for a platform removes exactly the
    sessions whose source tag is that platform: such a session is no
    longer in the map, a session with another tag is found unchanged under
    its identifier, and no session appears. *)
Theorem disconnect_removes_exactly_tagged platform st :
  let st' := disconnectSource platform st in
  (∀ sid s, sessions st !! sid = Some s → s_source (session s) = platform →
            sessions st' !! sid = None) ∧
  (∀ sid s, sessions st !! sid = Some s → s_source (session s) ≠ platform →
            sessions st' !! sid = Some s) ∧
  (∀ sid, sessions st !! sid = None → sessions st' !! sid = None).
Proof.
  assert (∀ sid, sessions (disconnectSource platform st) !! sid =
                 match sessions st !! sid with
                 | Some s => if bool_decide (s_source (session s) = platform)
                             then None else Some s
                 | None => None
                 end) as H.
  { intros sid. unfold disconnectSource.
    rewrite disconnect_fold_sessions by apply NoDup_fst_map_to_list.
    rewrite list_to_map_to_list. by destruct (sessions st !! sid). }
  simpl. split; [|split].
  - intros sid s Hs Hsrc. by rewrite H, Hs, bool_decide_eq_true_2.
  - intros sid s Hs Hsrc. by rewrite H, Hs, bool_decide_eq_false_2.
  - intros sid Hs. by rewrite H, Hs.
Qed.

Lemma disconnect_removes_exactly_tagged_witness :
  sessions (disconnectSource "opencode" stTwoPlatforms) !! "oc-7"%string = None ∧
  sessions (disconnectSource "opencode" stTwoPlatforms) !! "s1"%string
  = sessions stTwoPlatforms !! "s1"%string ∧
  sessions (disconnectSource "opencode" stTwoPlatforms) !! "zz"%string = None.
Proof.
  destruct (disconnect_removes_exactly_tagged "opencode" stTwoPlatforms) as (H1 & H2 & H3).
  assert (∃ s, sessions stTwoPlatforms !! "oc-7"%string = Some s) as [s Hs].
  { eexists. vm_compute. reflexivity. }
  assert (∃ s, sessions stTwoPlatforms !! "s1"%string = Some s) as [s1 Hs1].
  { eexists. vm_compute. reflexivity. }
  split; [|split].
  - apply (H1 _ s Hs). vm_compute in Hs. injection Hs as <-. reflexivity.
  - rewrite Hs1. apply (H2 _ s1 Hs1). vm_compute in Hs1. injection Hs1 as <-. discriminate.
  - apply H3. vm_compute. reflexivity.
Defined.

(** ** C10: a completed subagent stays completed *)

Lemma agentEvolves_refl a : agentEvolves a a.
Proof. done. Qed.

Lemma agentEvolves_trans a b c : agentEvolves a b → agentEvolves b c → agentEvolves a c.
Proof.
  intros (Hi1 & Ht1 & Hs1) (Hi2 & Ht2 & Hs2). repeat split; [congruence..|].
  intros Ht Hs. apply Hs2; [congruence|by apply Hs1].
Qed.

Lemma Forall2_evolves_refl l : Forall2 agentEvolves l l.
Proof. apply Forall_Forall2_diag, Forall_forall. intros; apply agentEvolves_refl. Qed.

Lemma Forall2_evolves_trans l1 l2 l3 :
  Forall2 agentEvolves l1 l2 → Forall2 agentEvolves l2 l3 → Forall2 agentEvolves l1 l3.
Proof.
  intros H. revert l3. induction H as [|a b l1 l2 Hab _ IH]; intros l3 H3.
  - by apply Forall2_nil_inv_l in H3 as ->.
  - apply Forall2_cons_inv_l in H3 as (c & l3' & Hbc & H3 & ->).
    constructor; [by eapply agentEvolves_trans|by apply IH].
Qed.

Lemma Forall2_evolves_alter (f : Agent → Agent) i l :
  (∀ a, l !! i = Some a → agentEvolves a (f a)) →
  Forall2 agentEvolves l (alter f i l).
Proof.
  revert i. induction l as [|a l IH]; intros [|i] Hf; simpl.
  - constructor.
  - constructor.
  - constructor; [by apply Hf|apply Forall2_evolves_refl].
  - constructor; [apply agentEvolves_refl|]. apply IH. intros b Hb. by apply Hf.
Qed.

Lemma Forall2_evolves_fmap (f : Agent → Agent) l :
  (∀ a, agentEvolves a (f a)) → Forall2 agentEvolves l (f <$> l).
Proof. intros Hf. induction l; constructor; auto. Qed.

Lemma extends_refl c l : extends c l l c.
Proof.
  exists l, []. rewrite app_nil_r. simpl.
  repeat split; [apply Forall2_evolves_refl|lia].
Qed.

Lemma extends_nil_evolves c l l' : Forall2 agentEvolves l l' → extends c l l' c.
Proof.
  intros H. exists l', []. rewrite app_nil_r. simpl. repeat split; [done|lia].
Qed.

Lemma extends_evolve c l l1 l2 c1 :
  extends c l l1 c1 → Forall2 agentEvolves l1 l2 → extends c l l2 c1.
Proof.
  intros (kept & new & -> & Hk & Hids & ->) H12.
  apply Forall2_app_inv_l in H12 as (kept2 & new2 & Hk2 & Hn2 & ->).
  exists kept2, new2. split; [done|]. split; [by eapply Forall2_evolves_trans|].
  assert (a_id <$> new2 = a_id <$> new) as ->.
  { clear -Hn2. induction Hn2 as [|a b l1 l2 (Hid & _) _ IH]; [done|].
    rewrite !fmap_cons, IH, Hid. done. }
  rewrite <- (Forall2_length _ _ _ Hn2). done.
Qed.

Lemma extends_snoc c l l1 c1 a :
  extends c l l1 c1 → a_id a = c1 → extends c l (l1 ++ [a]) (S c1).
Proof.
  intros (kept & new & -> & Hk & Hids & ->) Ha.
  exists kept, (new ++ [a]). rewrite app_assoc. split; [done|]. split; [done|].
  rewrite length_app, fmap_app, Hids. simpl. rewrite seq_app. simpl.
  rewrite Ha. split; [done|lia].
Qed.

(** Where the agents of an extended list come from. *)
Lemma extends_lookup c l l' c' i a' :
  extends c l l' c' → l' !! i = Some a' →
  (∃ a, l !! i = Some a ∧ agentEvolves a a') ∨
  (length l ≤ i ∧ a_id a' = c + (i - length l) ∧ a_id a' < c')%nat.
Proof.
  intros (kept & new & -> & Hk & Hids & ->) Hi.
  pose proof (Forall2_length _ _ _ Hk) as Hlen.
  destruct (decide (i < length kept)%nat) as [Hlt|Hge].
  - left. rewrite lookup_app_l in Hi by done.
    destruct (Forall2_lookup_r _ _ _ _ _ Hk Hi) as (a & Ha & Hev). by exists a.
  - right. rewrite lookup_app_r in Hi by lia.
    assert ((a_id <$> new) !! (i - length kept)%nat = Some (a_id a')) as Hid.
    { by rewrite list_lookup_fmap, Hi. }
    rewrite Hids in Hid. apply lookup_seq in Hid as [Hid Hlt].
    rewrite Hlen. lia.
Qed.

Lemma extends_counter c l l' c' : extends c l l' c' → (c ≤ c')%nat.
Proof. intros (kept & new & _ & _ & _ & ->). lia. Qed.

(** *** The helpers evolve the agents *)

Lemma reactivateIfEnded_evolves ss ts :
  Forall2 agentEvolves (agents ss) (agents (reactivateIfEnded ss ts)).
Proof.
  unfold reactivateIfEnded. simpl.
  destruct (decide (s_status (session ss) = SEnded)); simpl;
    [|apply Forall2_evolves_refl].
  destruct (findMain (agents ss)) as [[i main]|] eqn:Hfind; simpl;
    [|apply Forall2_evolves_refl].
  destruct (decide (a_status main = ACompleted)); simpl;
    [|apply Forall2_evolves_refl].
  apply Forall2_evolves_alter. intros a Ha.
  apply list_find_Some in Hfind as (Hi & Hm & _).
  assert (a = main) as -> by congruence.
  repeat split; try done. intros Ht. congruence.
Qed.

Lemma captureModel_evolves model mi mainAgent ss :
  Forall2 agentEvolves (agents ss) (agents (captureModel model mi mainAgent ss)).
Proof.
  unfold captureModel. repeat case_match; simpl; try apply Forall2_evolves_refl.
  apply Forall2_evolves_alter. intros a _. done.
Qed.

Lemma recordToolStart_evolves config env event i agent ss :
  Forall2 agentEvolves (agents ss) (agents (recordToolStart config env event i agent ss)).
Proof.
  start_cases config env event i agent ss Hok; [apply Forall2_evolves_refl|].
  pose proof (recordToolStart_fields config env event i agent ss Hok) as H.
  cbv zeta in H. destruct H as (_ & -> & _).
  apply Forall2_evolves_alter. intros a _. done.
Qed.

Lemma settlePending_evolves event ss :
  Forall2 agentEvolves (agents ss) (agents (settlePending event ss)).
Proof.
  unfold settlePending. repeat case_match; simpl; try apply Forall2_evolves_refl;
    apply Forall2_evolves_alter; intros a _; done.
Qed.

Lemma completeLastSubagent_evolves ts ss :
  Forall2 agentEvolves (agents ss) (agents (completeLastSubagent ts ss)).
Proof.
  unfold completeLastSubagent. case_match; simpl; [|apply Forall2_evolves_refl].
  apply Forall2_evolves_alter. intros a _. done.
Qed.

Lemma recordToolEnd_evolves config event agent ss :
  Forall2 agentEvolves (agents ss) (agents (recordToolEnd config event agent ss)).
Proof.
  unfold recordToolEnd. cbv zeta.
  destruct (settleThrows event ss); [apply settlePending_evolves|].
  change (agents (addTimelineEvent ?c ?s ?t ?k ?a)) with (agents s).
  eapply Forall2_evolves_trans; [apply (settlePending_evolves event)|].
  case_match; [|apply Forall2_evolves_refl].
  match goal with |- context [completeLastSubagent ?t ?s] =>
    pose proof (completeLastSubagent_evolves t s) as Hc end.
  exact Hc.
Qed.

Lemma endSession_evolves t s :
  Forall2 agentEvolves (agents s) (agents (endSession t s)).
Proof.
  unfold endSession. simpl. apply Forall2_evolves_fmap.
  intros a. unfold completeIfActive. case_match; done.
Qed.

Lemma getOrCreateMainAgent_extends env st ss st' ss' im :
  getOrCreateMainAgent env st ss = (st', ss', im) →
  extends (agentIdCounter st) (agents ss) (agents ss') (agentIdCounter st') ∧
  sessions st' = sessions st.
Proof.
  destruct im as [mi main]. intros H.
  apply getOrCreateMainAgent_fields in H.
  destruct H as (_ & _ & _ & _ & _ & _ & _ & Hs & _ & _ & _ & _ & _ & Hcases).
  split; [|done].
  destruct Hcases as [[-> ->]|(-> & Hid & _ & _ & ->)]; [apply extends_refl|].
  apply extends_snoc; [apply extends_refl|done].
Qed.

Lemma getOrCreateSession_agents_origin sid ts source st :
  agents (getOrCreateSession sid ts source st) = [] ∨
  ∃ ss, sessions st !! sid = Some ss ∧ agents (getOrCreateSession sid ts source st) = agents ss.
Proof.
  pose proof (getOrCreateSession_fields sid ts source st) as H. cbv zeta in H.
  destruct H as (-> & _). destruct (sessions st !! sid) as [ss|]; [|by left].
  right. by exists ss.
Qed.

(** The agents of every session after an event: the session is the one it
    was, or it is the session of the event and its agents extend those it
    had (none, when the session is new or was reset). *)
Lemma processEvent_agents config env event st :
  let st' := processEvent config env event st in
  (agentIdCounter st ≤ agentIdCounter st')%nat ∧
  ∀ sid ss', sessions st' !! sid = Some ss' →
    sessions st !! sid = Some ss' ∨
    (sid = eventSid event ∧
     ∃ l, (l = [] ∨ ∃ ss, sessions st !! sid = Some ss ∧ l = agents ss) ∧
          extends (agentIdCounter st) l (agents ss') (agentIdCounter st')).
Proof.
  cbv zeta.
  assert (∀ st2 ssF l,
    sessions st2 = sessions st ∨ sessions st2 = delete (eventSid event) (sessions st) →
    (l = [] ∨ ∃ ss, sessions st !! eventSid event = Some ss ∧ l = agents ss) →
    extends (agentIdCounter st) l (agents ssF) (agentIdCounter st2) →
    (agentIdCounter st ≤ agentIdCounter (putSession (eventSid event) ssF st2))%nat ∧
    ∀ sid ss', sessions (putSession (eventSid event) ssF st2) !! sid = Some ss' →
      sessions st !! sid = Some ss' ∨
      (sid = eventSid event ∧
       ∃ l, (l = [] ∨ ∃ ss, sessions st !! sid = Some ss ∧ l = agents ss) ∧
            extends (agentIdCounter st) l (agents ss')
              (agentIdCounter (putSession (eventSid event) ssF st2)))) as Hput.
  { intros st2 ssF l Hs2 Hl Hext. split; [by eapply extends_counter|].
    intros sid ss' Hlook. destruct (decide (sid = eventSid event)) as [->|Hne].
    - right. split; [done|]. rewrite lookup_putSession in Hlook.
      injection Hlook as <-. by exists l.
    - left. rewrite lookup_putSession_ne in Hlook by done.
      destruct Hs2 as [Hs2|Hs2]; rewrite Hs2 in Hlook; [done|].
      by rewrite lookup_delete_ne in Hlook. }
  destruct (ev_phase event) eqn:Hph.
  - (* session_start *)
    unfold processEvent. rewrite Hph.
    set (st0 := match sessions st !! eventSid event with
                | Some old => _ | None => st end).
    assert (sessions st0 = delete (eventSid event) (sessions st) ∧
            agentIdCounter st0 = agentIdCounter st) as [Hs0 Hc0].
    { unfold st0. destruct (sessions st !! eventSid event) eqn:E; simpl; [done|].
      by rewrite delete_id. }
    destruct (getOrCreateMainAgent env st0 _) as [[st1 ss1] im] eqn:Hmain.
    apply getOrCreateMainAgent_extends in Hmain as [Hext Hs1].
    pose proof (getOrCreateSession_fields (eventSid event) (ev_timestamp event)
      (detectSource event) st0) as Hg. cbv zeta in Hg. destruct Hg as (Hag & _).
    rewrite Hs0, lookup_delete_eq in Hag. rewrite Hag, Hc0 in Hext.
    apply (Hput st1 ss1 []); [right; congruence|by left|done].
  - (* session_end *)
    unfold processEvent. rewrite Hph. unfold getSession.
    destruct (sessions st !! eventSid event) as [ss|] eqn:E; [|split; [lia|by left]].
    apply (Hput st (endSession (ev_timestamp event) ss) (agents ss)); [by left|..].
    + right. by exists ss.
    + apply extends_nil_evolves, endSession_evolves.
  - (* pre *)
    assert (ev_phase event = Pre) as Hph' by done.
    destruct (processEvent_pre config env event st Hph')
      as (st1 & ss2 & mi & mainAgent & st2 & ss4 & i & agent & Hmain & Hsp & Hfa & ->).
    apply getOrCreateMainAgent_extends in Hmain as [Hext Hs1].
    set (ss0 := getOrCreateSession (eventSid event) (ev_timestamp event)
                  (detectSource event) st) in *.
    assert (extends (agentIdCounter st) (agents ss0) (agents ss2) (agentIdCounter st1))
      as Hext2.
    { destruct Hext as (kept & new & E & Hk & Hids & Hc).
      exists kept, new. split; [done|]. split; [|done].
      eapply Forall2_evolves_trans; [apply (reactivateIfEnded_evolves ss0)|done]. }
    pose proof (extends_evolve _ _ _ _ _ Hext2
      (captureModel_evolves (ev_model event) mi mainAgent ss2)) as Hext3.
    assert (extends (agentIdCounter st) (agents ss0) (agents ss4) (agentIdCounter st2)
            ∧ sessions st2 = sessions st) as [Hext4 Hs2].
    { destruct (bool_decide (ev_tool_name event = "Task"%string)).
      - destruct Hsp as (st' & ss' & sub & Hsp & -> & ->).
        apply spawn_fields in Hsp.
        destruct Hsp as (Hag & Hid & _ & _ & _ & _ & Hcnt & Hs' & _).
        simpl. rewrite Hag, Hcnt. split; [|congruence].
        by apply extends_snoc.
      - by destruct Hsp as (-> & ->). }
    pose proof (extends_evolve _ _ _ _ _ Hext4
      (recordToolStart_evolves config env event i agent ss4)) as Hext5.
    apply (Hput st2 _ (agents ss0)); [by left| |done].
    apply getOrCreateSession_agents_origin.
  - (* post *)
    rewrite processEvent_post by done. cbv zeta.
    set (ss0 := getOrCreateSession (eventSid event) (ev_timestamp event)
                  (detectSource event) st).
    apply (Hput st _ (agents ss0)); [by left|apply getOrCreateSession_agents_origin|].
    apply extends_nil_evolves.
    eapply Forall2_evolves_trans;
      [apply (reactivateIfEnded_evolves ss0 (ev_timestamp event))|].
    case_match; [|apply Forall2_evolves_refl].
    case_match. apply recordToolEnd_evolves.
  - (* notification *)
    unfold processEvent. rewrite Hph.
    set (ss0 := getOrCreateSession (eventSid event) (ev_timestamp event)
                  (detectSource event) st).
    apply (Hput st _ (agents ss0)); [by left|apply getOrCreateSession_agents_origin|].
    apply extends_nil_evolves.
    eapply Forall2_evolves_trans;
      [apply (reactivateIfEnded_evolves ss0 (ev_timestamp event))|].
    case_match; [case_match|]; apply Forall2_evolves_refl.
  - unfold processEvent. rewrite Hph. split; [lia|by left].
Qed.

Lemma pruneSession_evolves config now s s' :
  pruneSession config now s = Some s' → Forall2 agentEvolves (agents s) (agents s').
Proof.
  unfold pruneSession. repeat case_match; intros [= <-];
    [apply endSession_evolves|apply Forall2_evolves_refl].
Qed.

(** Where the agents of the state after one operation come from: an agent
    was at the same place before and has evolved, or it is new, in which
    case its identifier is at or above the old counter and is determined by
    its position (all new agents of one operation are in one session). *)
Lemma step_origin st st' :
  step st st' →
  (agentIdCounter st ≤ agentIdCounter st')%nat ∧
  ∃ sidE base,
    ∀ sid i a', holdsAgent st' sid i a' →
      (∃ a, holdsAgent st sid i a ∧ agentEvolves a a') ∨
      (sid = sidE ∧ (base ≤ i)%nat ∧
       a_id a' = (agentIdCounter st + (i - base))%nat ∧
       (a_id a' < agentIdCounter st')%nat).
Proof.
  intros [config env event st0|config now st0].
  - pose proof (processEvent_agents config env event st0) as H. cbv zeta in H.
    destruct H as [Hcnt Hsess]. split; [done|].
    set (st1 := processEvent config env event st0) in *.
    exists (eventSid event).
    destruct (sessions st1 !! eventSid event) as [ssE|] eqn:HE.
    + destruct (Hsess _ _ HE) as [Hsame|(_ & l & Hl & Hext)].
      * exists 0%nat. intros sid i a' (ss' & Hss' & Ha').
        left. exists a'. split; [|apply agentEvolves_refl].
        destruct (Hsess _ _ Hss') as [Hs|(-> & _)].
        -- by exists ss'.
        -- assert (ss' = ssE) as -> by congruence. by exists ssE.
      * exists (length l). intros sid i a' (ss' & Hss' & Ha').
        destruct (Hsess _ _ Hss') as [Hs|(-> & _)].
        -- left. exists a'. split; [by exists ss'|apply agentEvolves_refl].
        -- assert (ss' = ssE) as -> by congruence.
           destruct (extends_lookup _ _ _ _ _ _ Hext Ha')
             as [(a & Ha & Hev)|(Hge & Hid & Hlt)].
           ++ left. exists a. split; [|done].
              destruct Hl as [->|(ss & Hss & ->)]; [done|]. by exists ss.
           ++ right. done.
    + exists 0%nat. intros sid i a' (ss' & Hss' & Ha').
      left. exists a'. split; [|apply agentEvolves_refl].
      destruct (Hsess _ _ Hss') as [Hs|(-> & _)]; [by exists ss'|congruence].
  - split.
    { unfold pruneStaleAndEndedSessions. by rewrite prune_fold_counter. }
    exists EmptyString, 0%nat. intros sid i a' (ss' & Hss' & Ha').
    left. rewrite prune_lookup in Hss'.
    destruct (sessions st0 !! sid) as [s|] eqn:E; simpl in Hss'; [|done].
    apply pruneSession_evolves in Hss'.
    destruct (Forall2_lookup_r _ _ _ _ _ Hss' Ha') as (a & Ha & Hev).
    exists a. split; [by exists s|done].
Qed.

Lemma step_preserves_ids st st' :
  step st st' →
  idsBelowCounter st ∧ idsUnique st → idsBelowCounter st' ∧ idsUnique st'.
Proof.
  intros Hstep [Hbelow Huniq].
  destruct (step_origin _ _ Hstep) as (Hcnt & sidE & base & Horigin).
  split.
  - intros sid i a' Ha'.
    destruct (Horigin _ _ _ Ha') as [(a & Ha & (Hid & _))|(_ & _ & _ & Hlt)]; [|done].
    rewrite Hid. specialize (Hbelow _ _ _ Ha). lia.
  - intros sid1 i1 a1 sid2 i2 a2 H1 H2 Heq.
    destruct (Horigin _ _ _ H1) as [(b1 & Hb1 & (Hid1 & _))|(-> & Hge1 & Hn1 & _)];
    destruct (Horigin _ _ _ H2) as [(b2 & Hb2 & (Hid2 & _))|(-> & Hge2 & Hn2 & _)].
    + eapply Huniq; [exact Hb1|exact Hb2|congruence].
    + specialize (Hbelow _ _ _ Hb1). lia.
    + specialize (Hbelow _ _ _ Hb2). lia.
    + split; [done|lia].
Qed.

Lemma reachable_ids st : reachable st → idsBelowCounter st ∧ idsUnique st.
Proof.
  unfold reachable. revert st. apply rtc_ind_r.
  - split.
    + intros sid i a (ss & Hss & _). simpl in Hss. by rewrite lookup_empty in Hss.
    + intros sid1 i1 a1 sid2 i2 a2 (ss & Hss & _). simpl in Hss.
      by rewrite lookup_empty in Hss.
  - intros st1 st2 _ Hstep IH. by eapply step_preserves_ids.
Qed.

Lemma step_keeps_completed n st st' :
  step st st' → (n < agentIdCounter st)%nat →
  completedSubagent n st → completedSubagent n st'.
Proof.
  intros Hstep Hn Hdone sid i a' Ha' Hid'.
  destruct (step_origin _ _ Hstep) as (_ & sidE & base & Horigin).
  destruct (Horigin _ _ _ Ha') as [(a & Ha & (Hid & Hty & Hst))|(_ & _ & Hnew & _)].
  - destruct (Hdone _ _ _ Ha) as [Hsub Hcompl]; [congruence|].
    split; [congruence|by apply Hst].
  - lia.
Qed.

Lemma steps_keep_completed n st st' :
  rtc step st st' → (n < agentIdCounter st)%nat →
  completedSubagent n st → completedSubagent n st'.
Proof.
  induction 1 as [|st1 st2 st3 Hstep _ IH]; [done|].
  intros Hn Hdone. apply IH.
  - destruct (step_origin _ _ Hstep) as (Hcnt & _). lia.
  - by eapply step_keeps_completed.
Qed.

(** C10.  In a state reached from the initial one, take a subagent that is
    completed.  After any further operations of the core, every agent that
    carries its identifier, in whatever session, is a subagent and is
    completed: no operation makes it active again. *)
Theorem completed_subagent_stays_completed st st' sid i a :
  reachable st →
  rtc step st st' →
  holdsAgent st sid i a →
  a_type a = Subagent →
  a_status a = ACompleted →
  ∀ sid' i' a', holdsAgent st' sid' i' a' → a_id a' = a_id a →
                a_type a' = Subagent ∧ a_status a' = ACompleted.
Proof.
  intros Hreach Hsteps Ha Hty Hst.
  destruct (reachable_ids _ Hreach) as [Hbelow Huniq].
  apply (steps_keep_completed (a_id a) st st' Hsteps).
  - by eapply Hbelow.
  - intros sid0 i0 a0 Ha0 Hid0.
    destruct (Huniq _ _ _ _ _ _ Ha0 Ha Hid0) as [-> ->].
    destruct Ha as (ss & Hss & Hi), Ha0 as (ss0 & Hss0 & Hi0).
    assert (a0 = a) as -> by congruence. done.
Qed.

Lemma completed_subagent_stays_completed_witness :
  ∃ a, holdsAgent stTaskDone "s1" 1 a ∧
       a_id a = 1%nat ∧
       ∀ sid' i' a', holdsAgent stRevived sid' i' a' → a_id a' = a_id a →
                     a_type a' = Subagent ∧ a_status a' = ACompleted.
Proof.
  eexists. split; [|split].
  - eexists. split; vm_compute; reflexivity.
  - reflexivity.
  - eapply (completed_subagent_stays_completed stTaskDone stRevived "s1" 1).
    + unfold reachable, stTaskDone, stTask, stRead, stStarted.
      eapply rtc_l; [apply (step_event cfg0 envA (mkSessionEv SessionStart (Some 5) "s1"))|].
      eapply rtc_l; [apply (step_event cfg0 envA (mkEv Pre (Some 10) "s1" "Read"))|].
      eapply rtc_l; [apply (step_event cfg0 envB (mkEv Pre (Some 11) "s1" "Task"))|].
      eapply rtc_l; [apply (step_event cfg0 envC (mkEv Post (Some 12) "s1" "Task"))|].
      apply rtc_refl.
    + unfold stRevived.
      eapply rtc_l; [apply (step_event cfg0 envC (mkSessionEv SessionEnd (Some 30) "s1"))|].
      eapply rtc_l; [apply (step_event cfg0 envC (mkEv Pre (Some 40) "s1" "Bash"))|].
      apply rtc_refl.
    + eexists. split; vm_compute; reflexivity.
    + reflexivity.
    + reflexivity.
Defined.

(** * Further properties of the core *)

(** ** A proof principle for per-session invariants *)

(** A property of session objects that holds of a fresh session and is
    kept by each helper, as [processEvent] and the pruner use them, holds
    of every session of every reachable state.  The recording of a tool
    call has to keep it only when it is not cut short by [summarizeInput],
    for then it does nothing; the completion of a call has to keep it
    also when it is cut short. *)
Section SessionInvariant.
Variable P : SessionState → Prop.
Hypothesis P_create : ∀ sid ts src, P (createSessionState sid ts src).
Hypothesis P_source :
  ∀ ss src, P ss → P (with_session (set_source src (session ss)) ss).
Hypothesis P_reactivate : ∀ ss ts, P ss → P (reactivateIfEnded ss ts).
Hypothesis P_main :
  ∀ env st ss st' ss' im,
    P ss → s_status (session ss) = SActive →
    getOrCreateMainAgent env st ss = (st', ss', im) → P ss'.
Hypothesis P_model :
  ∀ model mi main ss,
    P ss → s_status (session ss) = SActive →
    agents ss !! mi = Some main → P (captureModel model mi main ss).
Hypothesis P_spawn :
  ∀ st ss inp st' ss' sub mi main,
    P ss → s_status (session ss) = SActive →
    findMain (agents ss) = Some (mi, main) →
    spawnSubagent st ss (a_id main) inp = (st', ss', sub) → P ss'.
Hypothesis P_timeline :
  ∀ config ss ts k aid, P ss → P (addTimelineEvent config ss ts k aid).
Hypothesis P_start :
  ∀ config env event i agent ss,
    summarizeInputThrows (ev_tool_name event) (ev_tool_input event) = false →
    P ss → s_status (session ss) = SActive →
    agents ss !! i = Some agent → P (recordToolStart config env event i agent ss).
Hypothesis P_end :
  ∀ config event agent ss,
    P ss → s_status (session ss) = SActive →
    P (recordToolEnd config event agent ss).
Hypothesis P_turn :
  ∀ ss, P ss → s_status (session ss) = SActive →
        P (with_stats (upd_turns (λ n, n + 1) (stats ss)) ss).
Hypothesis P_endSession : ∀ t ss, P ss → P (endSession t ss).

Lemma invariant_getOrCreateSession st sid ts src :
  (∀ ss, sessions st !! sid = Some ss → P ss) →
  P (getOrCreateSession sid ts src st).
Proof.
  intros HP. unfold getOrCreateSession.
  destruct (sessions st !! sid) as [ss|] eqn:E.
  - case_match; [apply P_source|]; by apply HP.
  - case_match; [apply P_source|]; apply P_create.
Qed.

Lemma invariant_processEvent config env event st :
  (∀ sid ss, sessions st !! sid = Some ss → P ss) →
  ∀ sid ss, sessions (processEvent config env event st) !! sid = Some ss → P ss.
Proof.
  intros HP.
  assert (∀ st2 ssF,
    (∀ sid ss, sessions st2 !! sid = Some ss → P ss) → P ssF →
    ∀ sid ss, sessions (putSession (eventSid event) ssF st2) !! sid = Some ss → P ss)
    as Hput.
  { intros st2 ssF H2 HF sid ss Hl.
    destruct (decide (sid = eventSid event)) as [->|Hne].
    - rewrite lookup_putSession in Hl. by injection Hl as <-.
    - rewrite lookup_putSession_ne in Hl by done. by eapply H2. }
  set (ss0 := getOrCreateSession (eventSid event) (ev_timestamp event)
                (detectSource event) st).
  assert (P ss0) as HP0.
  { apply invariant_getOrCreateSession. intros ss. apply HP. }
  pose proof (reactivateIfEnded_fields ss0 (ev_timestamp event)) as Hr.
  cbv zeta in Hr. destruct Hr as (_ & _ & _ & Hact1 & _).
  pose proof (P_reactivate ss0 (ev_timestamp event) HP0) as HP1.
  destruct (ev_phase event) eqn:Hph.
  - (* session_start *)
    unfold processEvent. rewrite Hph.
    set (st0 := match sessions st !! eventSid event with
                | Some old => _ | None => st end).
    assert (sessions st0 = delete (eventSid event) (sessions st)) as Hs0.
    { unfold st0. destruct (sessions st !! eventSid event) eqn:E; simpl; [done|].
      by rewrite delete_id. }
    destruct (getOrCreateMainAgent env st0 _) as [[st1 ss1] im] eqn:Hmain.
    pose proof Hmain as Hmain'. destruct im as [mi main].
    apply getOrCreateMainAgent_fields in Hmain'.
    destruct Hmain' as (_ & _ & _ & _ & _ & _ & _ & Hs1 & _).
    apply Hput.
    + intros sid ss Hl. rewrite Hs1, Hs0 in Hl.
      apply lookup_delete_Some in Hl as [_ Hl]. by eapply HP.
    + assert (P (getOrCreateSession (eventSid event) (ev_timestamp event)
                   (detectSource event) st0)) as HPn.
      { apply invariant_getOrCreateSession. intros ss Hl.
        rewrite Hs0, lookup_delete_eq in Hl. done. }
      assert (s_status (session (getOrCreateSession (eventSid event)
                (ev_timestamp event) (detectSource event) st0)) = SActive) as Hactn.
      { pose proof (getOrCreateSession_session (eventSid event) (ev_timestamp event)
          (detectSource event) st0) as Hg. cbv zeta in Hg.
        destruct Hg as (_ & _ & ->). by rewrite Hs0, lookup_delete_eq. }
      exact (P_main _ _ _ _ _ _ HPn Hactn Hmain).
  - (* session_end *)
    unfold processEvent. rewrite Hph. unfold getSession.
    destruct (sessions st !! eventSid event) as [ss|] eqn:E; [|done].
    apply Hput; [done|]. apply P_endSession. by eapply HP.
  - (* pre *)
    assert (ev_phase event = Pre) as Hph' by done.
    destruct (processEvent_pre config env event st Hph')
      as (st1 & ss2 & mi & mainAgent & st2 & ss4 & i & agent & Hmain & Hsp & Hfa & ->).
    fold ss0 in Hmain.
    pose proof (P_main _ _ _ _ _ _ HP1 Hact1 Hmain) as HP2.
    apply getOrCreateMainAgent_fields in Hmain.
    destruct Hmain as (Hsess2 & _ & _ & _ & _ & _ & _ & Hs1 & _ & Hmi & _ & Hfm & _).
    assert (s_status (session ss2) = SActive) as Hact2 by by rewrite Hsess2.
    pose proof (P_model (ev_model event) mi mainAgent ss2 HP2 Hact2 Hmi) as HP3.
    pose proof (captureModel_fields (ev_model event) mi mainAgent ss2) as Hc.
    cbv zeta in Hc. destruct Hc as (_ & Hst3 & _).
    assert (s_status (session (captureModel (ev_model event) mi mainAgent ss2)) = SActive)
      as Hact3 by by rewrite Hst3.
    assert (P ss4 ∧ s_status (session ss4) = SActive ∧ sessions st2 = sessions st)
      as (HP4 & Hact4 & Hs2).
    { destruct (bool_decide (ev_tool_name event = "Task"%string)).
      - destruct Hsp as (st' & ss' & sub & Hsp & -> & ->).
        pose proof (captureModel_agents (ev_model event) mi mainAgent ss2) as Hcap.
        destruct (findMain_Forall2 _ _ _ _ _ sameIdentity_type Hcap Hfm)
          as (main3 & Hfm3 & Hid3 & _).
        rewrite <- Hid3 in Hsp.
        pose proof (P_spawn _ _ _ _ _ _ _ _ HP3 Hact3 Hfm3 Hsp) as HPs.
        apply spawn_fields in Hsp.
        destruct Hsp as (_ & _ & _ & _ & _ & _ & _ & Hs' & _ & _ & Hsess' & _).
        split; [by apply P_timeline|]. simpl. rewrite Hsess'.
        split; [done|congruence].
      - by destruct Hsp as (-> & ->). }
    apply Hput.
    + intros sid ss Hl. rewrite Hs2 in Hl. by eapply HP.
    + destruct (summarizeInputThrows (ev_tool_name event) (ev_tool_input event))
        eqn:Hthrow; [by rewrite recordToolStart_thrown|].
      apply P_start; [done|done|done|]. by apply findActiveAgentAt_lookup.
  - (* post *)
    rewrite processEvent_post by done. cbv zeta. fold ss0.
    apply Hput; [done|]. case_match; [|done]. case_match. by apply P_end.
  - (* notification *)
    unfold processEvent. rewrite Hph. fold ss0.
    apply Hput; [done|].
    pose proof (P_turn _ HP1 Hact1) as HPt.
    case_match; [|done]. case_match. by apply P_timeline.
  - unfold processEvent. by rewrite Hph.
Qed.

Lemma reachable_session_invariant st :
  reachable st → ∀ sid ss, sessions st !! sid = Some ss → P ss.
Proof.
  unfold reachable. revert st.
  apply (rtc_ind_r (λ st, ∀ sid ss, sessions st !! sid = Some ss → P ss)).
  - intros sid ss Hl. simpl in Hl. by rewrite lookup_empty in Hl.
  - intros st1 st2 _ Hstep IH. destruct Hstep as [config env event st1|config now st1].
    + by apply invariant_processEvent.
    + intros sid ss Hl. rewrite prune_lookup in Hl.
      destruct (sessions st1 !! sid) as [s|] eqn:E; simpl in Hl; [|done].
      unfold pruneSession in Hl. repeat case_match; simplify_eq.
      * apply P_endSession. by eapply IH.
      * by eapply IH.
Qed.
End SessionInvariant.

(** ** The agent tree *)

Lemma sameShape_refl a : sameShape a a.
Proof. done. Qed.

Lemma Forall2_sameShape_refl l : Forall2 sameShape l l.
Proof. apply Forall_Forall2_diag, Forall_forall. intros; apply sameShape_refl. Qed.

Lemma Forall2_sameShape_trans l1 l2 l3 :
  Forall2 sameShape l1 l2 → Forall2 sameShape l2 l3 → Forall2 sameShape l1 l3.
Proof.
  intros H. revert l3. induction H as [|a b l1 l2 Hab _ IH]; intros l3 H3.
  - by apply Forall2_nil_inv_l in H3 as ->.
  - apply Forall2_cons_inv_l in H3 as (c & l3' & Hbc & H3 & ->).
    constructor; [|by apply IH].
    destruct Hab as (? & ? & ?), Hbc as (? & ? & ?). repeat split; congruence.
Qed.

Lemma reactivateIfEnded_shape ss ts :
  Forall2 sameShape (agents ss) (agents (reactivateIfEnded ss ts)).
Proof.
  unfold reactivateIfEnded. simpl. repeat case_match; simpl;
    try apply Forall2_sameShape_refl.
  apply Forall2_alter_r; done.
Qed.

Lemma captureModel_shape model mi mainAgent ss :
  Forall2 sameShape (agents ss) (agents (captureModel model mi mainAgent ss)).
Proof.
  unfold captureModel. repeat case_match; simpl; try apply Forall2_sameShape_refl.
  apply Forall2_alter_r; done.
Qed.

Lemma recordToolStart_shape config env event i agent ss :
  Forall2 sameShape (agents ss) (agents (recordToolStart config env event i agent ss)).
Proof.
  start_cases config env event i agent ss Hok; [apply Forall2_sameShape_refl|].
  pose proof (recordToolStart_fields config env event i agent ss Hok) as H.
  cbv zeta in H. destruct H as (_ & -> & _). apply Forall2_alter_r; done.
Qed.

Lemma recordToolEnd_shape config event agent ss :
  Forall2 sameShape (agents ss) (agents (recordToolEnd config event agent ss)).
Proof.
  assert (Forall2 sameShape (agents ss) (agents (settlePending event ss))) as Hsettle.
  { unfold settlePending. repeat case_match; simpl; try apply Forall2_sameShape_refl;
      apply Forall2_alter_r; done. }
  unfold recordToolEnd. cbv zeta. destruct (settleThrows event ss); [done|].
  change (agents (addTimelineEvent ?c ?s ?t ?k ?a)) with (agents s).
  eapply (Forall2_sameShape_trans _ (agents (settlePending event ss))).
  - unfold settlePending. repeat case_match; simpl; try apply Forall2_sameShape_refl;
      apply Forall2_alter_r; done.
  - case_match; [|apply Forall2_sameShape_refl].
    unfold completeLastSubagent. case_match; simpl; [|apply Forall2_sameShape_refl].
    apply Forall2_alter_r; done.
Qed.

Lemma endSession_shape t ss :
  Forall2 sameShape (agents ss) (agents (endSession t ss)).
Proof.
  unfold endSession. simpl. induction (agents ss) as [|a l IH]; constructor; [|done].
  unfold completeIfActive. case_match; done.
Qed.

Lemma agentTree_shape ss ss' :
  Forall2 sameShape (agents ss) (agents ss') → agentTree ss → agentTree ss'.
Proof.
  intros HF [Hnil|(main & subs & Hag & Hm & Hp & Hsubs)].
  - left. rewrite Hnil in HF. by apply Forall2_nil_inv_l in HF.
  - right. rewrite Hag in HF.
    apply Forall2_cons_inv_l in HF as (main' & subs' & (Hid & Hty & Hpar) & HF & ->).
    exists main', subs'. split; [done|]. split; [congruence|]. split; [congruence|].
    clear Hag. induction HF as [|a b l1 l2 (Hi & Ht & Hq) _ IH]; [constructor|].
    apply Forall_cons in Hsubs as [[Ha1 Ha2] Hsubs].
    constructor; [|by apply IH]. split; congruence.
Qed.

Lemma agentTree_findMain ss i main :
  agentTree ss → findMain (agents ss) = Some (i, main) →
  ∃ subs, agents ss = main :: subs ∧
          Forall (λ a, a_type a = Subagent ∧ a_parentId a = Some (a_id main)) subs.
Proof.
  intros [Hnil|(m & subs & Hag & Hm & Hp & Hsubs)] Hfind.
  - by rewrite Hnil in Hfind.
  - rewrite Hag in Hfind. unfold findMain in Hfind. simpl in Hfind.
    rewrite decide_True in Hfind by done. simpl in Hfind.
    injection Hfind as <- <-. by exists subs.
Qed.

Lemma reachable_agentTree st sid ss :
  reachable st → sessions st !! sid = Some ss → agentTree ss.
Proof.
  intros Hreach. revert sid ss.
  apply (reachable_session_invariant agentTree); try done.
  - by left.
  - intros ss ts. apply agentTree_shape, reactivateIfEnded_shape.
  - intros env st0 ss st' ss' im Htree _. unfold getOrCreateMainAgent.
    destruct (findMain (agents ss)) as [[i m]|] eqn:Hfind.
    + by intros [= <- <- <-].
    + destruct (pickAgentName _ _) as [name used]. intros [= <- <- <-].
      destruct Htree as [Hnil|(m & subs & Hag & Hm & _)].
      * right. simpl. rewrite Hnil. simpl. eexists _, []. repeat split. constructor.
      * rewrite Hag in Hfind. unfold findMain in Hfind. simpl in Hfind.
        by rewrite decide_True in Hfind by done.
  - intros model mi main ss Htree _ _. revert Htree.
    apply agentTree_shape, captureModel_shape.
  - intros st0 ss inp st' ss' sub mi main Htree _ Hfind Hsp.
    apply spawn_fields in Hsp. destruct Hsp as (Hag' & _ & Hty & Hpar & _).
    destruct (agentTree_findMain _ _ _ Htree Hfind) as (subs & Hag & Hsubs).
    right. exists main, (subs ++ [sub]). rewrite Hag', Hag. split; [done|].
    destruct Htree as [Hnil|(m & subs0 & Hag0 & Hm & Hp & _)]; [congruence|].
    assert (m = main) as -> by congruence.
    split; [done|]. split; [done|].
    apply Forall_app. split; [done|]. by constructor.
  - intros config env event i agent ss Hok Htree _ _. revert Htree.
    apply agentTree_shape, recordToolStart_shape.
  - intros config event agent ss Htree _. revert Htree.
    apply agentTree_shape, recordToolEnd_shape.
  - intros t ss. apply agentTree_shape, endSession_shape.
Qed.

(** Builds the run leading to a sample state, one [processEvent] at a
    time, once the names of the sample states are unfolded. *)
Ltac reach_by_events :=
  repeat (eapply rtc_r; [|apply step_event]); apply rtc_refl.

(** X1.  In every reachable state a session has at most one agent of type
    main, a main agent has no parent, and the parent of every subagent is
    the main agent of the same session, which is the first agent of its
    list. *)
Theorem agent_tree_is_flat st sid ss :
  reachable st →
  sessions st !! sid = Some ss →
  (∀ i j a b, agents ss !! i = Some a → agents ss !! j = Some b →
              a_type a = Main → a_type b = Main → i = j) ∧
  (∀ a, a ∈ agents ss → a_type a = Main → a_parentId a = None) ∧
  (∀ a, a ∈ agents ss → a_type a = Subagent →
        ∃ main, agents ss !! 0%nat = Some main ∧ a_type main = Main ∧
                a_parentId a = Some (a_id main)).
Proof.
  intros Hreach Hss.
  destruct (reachable_agentTree _ _ _ Hreach Hss)
    as [Hnil|(main & subs & Hag & Hm & Hp & Hsubs)].
  - rewrite Hnil. repeat split.
    + intros i j a b Ha. by rewrite lookup_nil in Ha.
    + intros a Ha. by apply elem_of_nil in Ha.
    + intros a Ha. by apply elem_of_nil in Ha.
  - rewrite Hag. rewrite Forall_forall in Hsubs.
    assert (∀ i a, (main :: subs) !! i = Some a → a_type a = Main → i = 0%nat) as Hzero.
    { intros [|i] a Ha Hty; [done|]. simpl in Ha.
      apply list_elem_of_lookup_2 in Ha. destruct (Hsubs a Ha) as [Hs _]. congruence. }
    repeat split.
    + intros i j a b Ha Hb Hta Htb.
      rewrite (Hzero i a Ha Hta), (Hzero j b Hb Htb). done.
    + intros a Ha Hty. apply elem_of_cons in Ha as [->|Ha]; [done|].
      destruct (Hsubs a Ha) as [Hs _]. congruence.
    + intros a Ha Hty. exists main. split; [done|]. split; [done|].
      apply elem_of_cons in Ha as [->|Ha]; [congruence|].
      by destruct (Hsubs a Ha).
Qed.

Lemma agent_tree_is_flat_witness :
  ∃ ss, sessions stTaskNested !! "s1"%string = Some ss ∧
        length (agents ss) = 3%nat ∧
        ∀ a, a ∈ agents ss → a_type a = Subagent →
             ∃ main, agents ss !! 0%nat = Some main ∧ a_type main = Main ∧
                     a_parentId a = Some (a_id main).
Proof.
  eexists. split; [vm_compute; reflexivity|]. split; [reflexivity|].
  apply (agent_tree_is_flat stTaskNested "s1").
  - unfold reachable, stTaskNested, stTask, stRead, stStarted. reach_by_events.
  - vm_compute. reflexivity.
Defined.

(** ** Bookkeeping of agents and counters *)

Lemma agentsBooked_alter (f : Agent → Agent) i ss ss' :
  s_id (session ss') = s_id (session ss) →
  agents ss' = alter f i (agents ss) →
  (∀ sid a, agentBooked sid a → agentBooked sid (f a)) →
  agentsBooked ss → agentsBooked ss'.
Proof.
  unfold agentsBooked. intros -> -> Hf H. apply Forall_alter; [done|].
  intros a _. apply Hf.
Qed.

Ltac booked_alter :=
  let Hb := fresh "Hb" in
  intros Hb; eapply agentsBooked_alter; [| | |exact Hb];
  [reflexivity|reflexivity|].

Lemma settlePending_booked event ss :
  agentsBooked ss → agentsBooked (settlePending event ss).
Proof.
  unfold settlePending. repeat case_match; try done;
    (booked_alter; intros sid a (Hc & Hs & Hn); split; [|done]; simpl;
     by rewrite length_alter).
Qed.

Lemma reachable_agentsBooked st sid ss :
  reachable st → sessions st !! sid = Some ss → agentsBooked ss.
Proof.
  intros Hreach. revert sid ss.
  apply (reachable_session_invariant agentsBooked); try done.
  - intros. constructor.
  - intros ss ts. unfold reactivateIfEnded. simpl.
    repeat case_match; try done. booked_alter. done.
  - intros env st0 ss st' ss' im Hb _. unfold getOrCreateMainAgent.
    destruct (findMain (agents ss)) as [[i m]|]; [by intros [= <- <- <-]|].
    destruct (pickAgentName _ _) as [name used]. intros [= <- <- <-].
    apply Forall_app. split; [done|]. constructor; [|done].
    split; [done|]. split; [done|]. simpl. unfold truthy_str. by case_decide.
  - intros model mi main ss Hb _ _. unfold captureModel.
    repeat case_match; try done. revert Hb. booked_alter. done.
  - intros st0 ss inp st' ss' sub mi main Hb _ _. unfold spawnSubagent.
    intros [= <- <- <-]. apply Forall_app. split; [done|]. constructor; [|done].
    split; [done|]. split; [done|]. simpl. unfold truthy_str. by case_decide.
  - intros config env event i agent ss Hok Hb _ _.
    pose proof (recordToolStart_fields config env event i agent ss Hok) as H.
    cbv zeta in H. destruct H as (Hs & Ha & _).
    intros. eapply agentsBooked_alter; [by rewrite Hs|exact Ha| |exact Hb].
    intros sid a (Hc & Hsid & Hn). split; [|done]. simpl. rewrite length_app. simpl. lia.
  - intros config event agent ss Hb _. unfold recordToolEnd. cbv zeta.
    apply (settlePending_booked event) in Hb.
    destruct (settleThrows event ss); [done|].
    case_match; [|done]. unfold completeLastSubagent. case_match; [|done].
    revert Hb. booked_alter. done.
  - intros t ss Hb. unfold endSession, agentsBooked. simpl.
    apply Forall_fmap. eapply Forall_impl; [exact Hb|].
    intros a (Hc & Hs & Hn). unfold completeIfActive. simpl. by case_match.
Qed.

Lemma trackLines_counters tool inp s :
  toolCalls (trackLines tool inp s) = toolCalls s ∧
  filesAccessed (trackLines tool inp s) = filesAccessed s.
Proof. unfold trackLines. repeat case_match; done. Qed.

(** [trackFileAccess] counts a path when, and only when, it enters the
    file map. *)
Lemma trackFileAccess_counters ss tool inp ts :
  let ss' := trackFileAccess ss tool inp ts in
  toolCalls (stats ss') = toolCalls (stats ss) ∧
  filesAccessed (stats ss') - Z.of_nat (size (files ss'))
  = filesAccessed (stats ss) - Z.of_nat (size (files ss)).
Proof.
  unfold trackFileAccess. cbv zeta.
  destruct (trackLines_counters tool inp (stats ss)) as [Ht Hf].
  destruct (trackedPath tool inp) as [p|]; simpl; [|by rewrite Hf].
  destruct (files ss !! p) as [fi|] eqn:E; simpl.
  - rewrite map_size_insert_Some by done. by rewrite Hf.
  - rewrite map_size_insert_None by done. rewrite Hf. split; [done|lia].
Qed.

Lemma recordToolStart_counters config env event i agent ss :
  summarizeInputThrows (ev_tool_name event) (ev_tool_input event) = false →
  agents ss !! i = Some agent →
  let ss' := recordToolStart config env event i agent ss in
  toolCalls (stats ss') = toolCalls (stats ss) + 1 ∧
  length (allToolCalls (agents ss')) = S (length (allToolCalls (agents ss))) ∧
  filesAccessed (stats ss') - Z.of_nat (size (files ss'))
  = filesAccessed (stats ss) - Z.of_nat (size (files ss)).
Proof.
  intros Hok Hi. cbv zeta.
  pose proof (recordToolStart_fields config env event i agent ss Hok) as H.
  cbv zeta in H. destruct H as (_ & Ha & _). rewrite Ha.
  destruct (allToolCalls_push
              (mkToolCall (env_clock env, env_suffix env) (ev_tool_name event)
                 (ev_timestamp event) None Executing) i agent (agents ss) Hi)
    as (l1 & l2 & -> & ->).
  unfold recordToolStart. cbv zeta. rewrite Hok.
  change (stats (addTimelineEvent ?c ?s ?t ?k ?a)) with (stats s).
  change (files (addTimelineEvent ?c ?s ?t ?k ?a)) with (files s).
  match goal with |- context [trackFileAccess ?s ?t ?inp ?ts] =>
    destruct (trackFileAccess_counters s t inp ts) as [-> ->] end.
  simpl. rewrite !length_app. simpl. split; [done|]. split; [lia|done].
Qed.

Lemma recordToolEnd_counters config event agent ss :
  let ss' := recordToolEnd config event agent ss in
  toolCalls (stats ss') = toolCalls (stats ss) ∧
  filesAccessed (stats ss') = filesAccessed (stats ss) ∧
  files ss' = files ss ∧
  length (allToolCalls (agents ss')) = length (allToolCalls (agents ss)).
Proof.
  cbv zeta. rewrite recordToolEnd_calls, settlePending_calls.
  pose proof (recordToolEnd_fields config event agent ss) as H.
  cbv zeta in H. destruct H as (_ & _ & -> & _).
  assert (toolCalls (stats (settlePending event ss)) = toolCalls (stats ss) ∧
          filesAccessed (stats (settlePending event ss)) = filesAccessed (stats ss))
    as [Ht Hf].
  { unfold settlePending. repeat case_match; done. }
  split; [|split; [|split; [done|]]].
  - unfold recordToolEnd. cbv zeta. destruct (settleThrows event ss); [done|].
    case_match; [|done]. unfold completeLastSubagent. case_match; done.
  - unfold recordToolEnd. cbv zeta. destruct (settleThrows event ss); [done|].
    case_match; [|done]. unfold completeLastSubagent. case_match; done.
  - repeat case_match; try done. by rewrite length_alter.
Qed.

Lemma reachable_countersAgree st sid ss :
  reachable st → sessions st !! sid = Some ss → countersAgree ss.
Proof.
  intros Hreach. revert sid ss.
  apply (reachable_session_invariant countersAgree); try done.
  - intros ss ts [Ht Hf].
    pose proof (reactivateIfEnded_fields ss ts) as H. cbv zeta in H.
    destruct H as (_ & _ & _ & _ & _ & Hfi & Hst & _ & _ & _ & _ & Hc).
    unfold countersAgree. by rewrite Hfi, Hst, Hc.
  - intros env st0 ss st' ss' [mi main] [Ht Hf] _ Hmain.
    apply getOrCreateMainAgent_fields in Hmain.
    destruct Hmain as (_ & _ & Hfi & Hst & _ & _ & _ & _ & _ & _ & _ & _ & Hc & _).
    unfold countersAgree. by rewrite Hfi, Hst, Hc.
  - intros model mi main ss [Ht Hf] _ _.
    pose proof (captureModel_fields model mi main ss) as H. cbv zeta in H.
    destruct H as (_ & _ & _ & _ & _ & Hfi & Hst & _ & _ & _ & _ & Hc).
    unfold countersAgree. by rewrite Hfi, Hst, Hc.
  - intros st0 ss inp st' ss' sub mi main [Ht Hf] _ _ Hsp.
    apply spawn_fields in Hsp.
    destruct Hsp as (Hag & _ & _ & _ & _ & Hnil & _ & _ & _ & _ & _ & _ & Hfi & Hst & _).
    unfold countersAgree. rewrite Hfi, Hst, Hag, allToolCalls_app.
    unfold allToolCalls at 2. simpl. rewrite Hnil. simpl. by rewrite app_nil_r.
  - intros config env event i agent ss Hok [Ht Hf] _ Hi.
    destruct (recordToolStart_counters config env event i agent ss Hok Hi)
      as (Ht' & Hl' & Hf').
    split; [rewrite Ht', Hl'; lia|lia].
  - intros config event agent ss [Ht Hf] _.
    destruct (recordToolEnd_counters config event agent ss) as (Ht' & Hf' & Hfi & Hl).
    unfold countersAgree. by rewrite Ht', Hf', Hfi, Hl.
  - intros t ss [Ht Hf]. unfold countersAgree, endSession. simpl.
    rewrite allToolCalls_fmap_same; [done|].
    intros a. unfold completeIfActive. by case_match.
Qed.

(** ** Pending markers and statuses *)

Lemma pendingRecorded_mono ss ss' :
  (∀ tool pid, pendingToolCalls ss' !! tool = Some pid →
               pendingToolCalls ss !! tool = Some pid) →
  (∀ tc, tc ∈ allToolCalls (agents ss) →
         ∃ tc', tc' ∈ allToolCalls (agents ss') ∧
                tc_id tc' = tc_id tc ∧ tc_tool tc' = tc_tool tc) →
  pendingRecorded ss → pendingRecorded ss'.
Proof.
  intros Hp Hc H tool pid Hl. apply Hp, H in Hl as (tc & Hin & Hid & Ht).
  apply Hc in Hin as (tc' & Hin' & Hid' & Ht'). exists tc'. split; [done|].
  split; congruence.
Qed.

Lemma pendingRecorded_same ss ss' :
  pendingToolCalls ss' = pendingToolCalls ss →
  allToolCalls (agents ss') = allToolCalls (agents ss) →
  pendingRecorded ss → pendingRecorded ss'.
Proof.
  intros Hp Hc. apply pendingRecorded_mono.
  - by rewrite Hp.
  - intros tc Hin. exists tc. by rewrite Hc.
Qed.

Lemma elem_of_alter_call (g : ToolCall → ToolCall) k (l : list ToolCall) tc :
  (∀ c, tc_id (g c) = tc_id c ∧ tc_tool (g c) = tc_tool c) →
  tc ∈ l →
  ∃ tc', tc' ∈ alter g k l ∧ tc_id tc' = tc_id tc ∧ tc_tool tc' = tc_tool tc.
Proof.
  intros Hg Hin. apply list_elem_of_lookup_1 in Hin as [j Hj].
  destruct (decide (j = k)) as [->|Hne].
  - exists (g tc). split; [|apply Hg].
    apply (list_elem_of_lookup_2 _ k). by rewrite list_lookup_alter_eq, Hj.
  - exists tc. split; [|done].
    apply (list_elem_of_lookup_2 _ j). by rewrite list_lookup_alter_ne.
Qed.

Lemma reachable_pendingRecorded st sid ss :
  reachable st → sessions st !! sid = Some ss → pendingRecorded ss.
Proof.
  intros Hreach. revert sid ss.
  apply (reachable_session_invariant pendingRecorded); try done.
  - intros ss ts.
    pose proof (reactivateIfEnded_fields ss ts) as H. cbv zeta in H.
    destruct H as (_ & _ & _ & _ & _ & _ & _ & _ & Hp & _ & _ & Hc).
    by apply pendingRecorded_same.
  - intros env st0 ss st' ss' [mi main] HP _ Hmain.
    apply getOrCreateMainAgent_fields in Hmain.
    destruct Hmain as (_ & _ & _ & _ & _ & Hp & _ & _ & _ & _ & _ & _ & Hc & _).
    revert HP. by apply pendingRecorded_same.
  - intros model mi main ss HP _ _.
    pose proof (captureModel_fields model mi main ss) as H. cbv zeta in H.
    destruct H as (_ & _ & _ & _ & _ & _ & _ & _ & Hp & _ & _ & Hc).
    revert HP. by apply pendingRecorded_same.
  - intros st0 ss inp st' ss' sub mi main HP _ _ Hsp.
    apply spawn_fields in Hsp.
    destruct Hsp as (Hag & _ & _ & _ & _ & Hnil & _ & _ & _ & _ & _ & _ & _ & _ & _ & Hp & _).
    revert HP. apply pendingRecorded_same; [done|].
    rewrite Hag, allToolCalls_app. unfold allToolCalls at 2. simpl.
    rewrite Hnil. simpl. by rewrite app_nil_r.
  - intros config env event i agent ss Hok HP _ Hi.
    pose proof (recordToolStart_fields config env event i agent ss Hok) as H.
    cbv zeta in H. destruct H as (_ & Ha & Hp & _).
    destruct (allToolCalls_push
                (mkToolCall (env_clock env, env_suffix env) (ev_tool_name event)
                   (ev_timestamp event) None Executing) i agent (agents ss) Hi)
      as (l1 & l2 & H1 & H2).
    intros tool pid Hl. rewrite Hp in Hl. rewrite Ha, H2.
    destruct (decide (tool = ev_tool_name event)) as [->|Hne].
    + rewrite lookup_insert_eq in Hl. injection Hl as <-.
      eexists. split; [apply elem_of_app; right; apply list_elem_of_here|done].
    + rewrite lookup_insert_ne in Hl by done.
      apply HP in Hl as (tc & Hin & Hid & Ht). exists tc. split; [|done].
      rewrite H1 in Hin. apply elem_of_app in Hin as [Hin|Hin]; apply elem_of_app.
      * by left.
      * right. by apply list_elem_of_further.
  - intros config event agent ss HP _. revert HP. apply pendingRecorded_mono.
    + intros tool pid. rewrite recordToolEnd_pending.
      intros Hl. by apply lookup_delete_Some in Hl as [_ Hl].
    + intros tc Hin. rewrite recordToolEnd_calls, settlePending_calls.
      repeat case_match; try by exists tc.
      apply elem_of_alter_call; [|done].
      intros c. destruct (settleCall_id event c) as (? & ? & _). done.
  - intros t ss. apply pendingRecorded_same; [done|].
    unfold endSession. simpl. apply allToolCalls_fmap_same.
    intros a. unfold completeIfActive. by case_match.
Qed.

Lemma statusCoherent_active ss' :
  s_status (session ss') = SActive → s_endedAt (session ss') = None →
  statusCoherent ss'.
Proof. intros Hs He. split; [by rewrite Hs|done]. Qed.

Lemma reachable_statusCoherent st sid ss :
  reachable st → sessions st !! sid = Some ss → statusCoherent ss.
Proof.
  intros Hreach. revert sid ss.
  apply (reachable_session_invariant statusCoherent); try done.
  - intros ss ts [H1 H2]. apply statusCoherent_active.
    + pose proof (reactivateIfEnded_fields ss ts) as H. cbv zeta in H. apply H.
    + unfold reactivateIfEnded. simpl. repeat case_match; simpl; try done;
        apply H2; by destruct (s_status (session ss)).
  - intros env st0 ss st' ss' [mi main] [H1 H2] Hact Hmain.
    apply getOrCreateMainAgent_fields in Hmain. destruct Hmain as (Hs & _).
    apply statusCoherent_active; rewrite Hs; auto.
  - intros model mi main ss [H1 H2] Hact _. apply statusCoherent_active.
    + pose proof (captureModel_fields model mi main ss) as H. cbv zeta in H.
      destruct H as (_ & -> & _). done.
    + unfold captureModel. repeat case_match; simpl; auto.
  - intros st0 ss inp st' ss' sub mi main [H1 H2] Hact _ Hsp.
    apply spawn_fields in Hsp.
    destruct Hsp as (_ & _ & _ & _ & _ & _ & _ & _ & _ & _ & Hs & _).
    apply statusCoherent_active; rewrite Hs; auto.
  - intros config env event i agent ss Hok [H1 H2] Hact _.
    pose proof (recordToolStart_fields config env event i agent ss Hok) as H.
    cbv zeta in H. destruct H as (Hs & _).
    apply statusCoherent_active; rewrite Hs; auto.
  - intros config event agent ss [H1 H2] Hact.
    pose proof (recordToolEnd_fields config event agent ss) as H.
    cbv zeta in H. destruct H as (Hs & _).
    apply statusCoherent_active; rewrite Hs; auto.
  - intros t ss _. split; [|done]. intros _. unfold endSession. simpl.
    apply Forall_fmap, Forall_forall. intros a _. simpl.
    unfold completeIfActive. case_decide; [done|]. by destruct (a_status a).
Qed.

(** ** Sessions without a tool call *)

Lemma quiet_same ss ss' :
  stats ss' = stats ss → allToolCalls (agents ss') = allToolCalls (agents ss) →
  quietBeforeFirstCall ss → quietBeforeFirstCall ss'.
Proof. unfold quietBeforeFirstCall. by intros -> ->. Qed.

Lemma settlePending_no_calls event ss :
  allToolCalls (agents ss) = [] → stats (settlePending event ss) = stats ss.
Proof.
  intros Hnil. unfold settlePending.
  destruct (pendingToolCalls ss !! ev_tool_name event) as [pid|]; [|done].
  rewrite locateCall_None; [done|]. by rewrite Hnil.
Qed.

Lemma recordToolEnd_work config event agent ss :
  allToolCalls (agents ss) = [] →
  workStats (stats (recordToolEnd config event agent ss)) = workStats (stats ss).
Proof.
  intros Hnil. unfold recordToolEnd. cbv zeta.
  destruct (settleThrows event ss); [by rewrite settlePending_no_calls|].
  change (stats (addTimelineEvent ?c ?s ?t ?k ?a)) with (stats s).
  assert (∀ s, stats (if bool_decide (ev_tool_name event = "Task"%string)
                      then completeLastSubagent (ev_timestamp event) s else s)
               = stats s) as ->.
  { intros s. case_match; [|done]. unfold completeLastSubagent. by case_match. }
  simpl. by rewrite settlePending_no_calls.
Qed.

Lemma reachable_quiet st sid ss :
  reachable st → sessions st !! sid = Some ss → quietBeforeFirstCall ss.
Proof.
  intros Hreach. revert sid ss.
  apply (reachable_session_invariant quietBeforeFirstCall); try done.
  - intros ss ts. apply quiet_same.
    + apply reactivateIfEnded_stats.
    + pose proof (reactivateIfEnded_fields ss ts) as H. cbv zeta in H. apply H.
  - intros env st0 ss st' ss' [mi main] HP _ Hmain.
    apply getOrCreateMainAgent_fields in Hmain.
    destruct Hmain as (_ & _ & _ & Hst & _ & _ & _ & _ & _ & _ & _ & _ & Hc & _).
    revert HP. by apply quiet_same.
  - intros model mi main ss HP _ _. revert HP.
    pose proof (captureModel_fields model mi main ss) as H. cbv zeta in H.
    destruct H as (_ & _ & _ & _ & _ & _ & Hst & _ & _ & _ & _ & Hc).
    by apply quiet_same.
  - intros st0 ss inp st' ss' sub mi main HP _ _ Hsp.
    apply spawn_fields in Hsp.
    destruct Hsp as (Hag & _ & _ & _ & _ & Hnil & _ & _ & _ & _ & _ & _ & _ & Hst & _).
    revert HP. apply quiet_same; [done|].
    rewrite Hag, allToolCalls_app. unfold allToolCalls at 2. simpl.
    rewrite Hnil. simpl. by rewrite app_nil_r.
  - intros config env event i agent ss Hok [H0 _] _ Hi.
    destruct (recordToolStart_counters config env event i agent ss Hok Hi) as (Ht & _).
    split; [lia|]. intros Hz. lia.
  - intros config event agent ss [H0 Hq] _.
    destruct (recordToolEnd_counters config event agent ss) as (Ht & _ & _ & Hl).
    split; [by rewrite Ht|]. rewrite Ht. intros Hz.
    destruct (Hq Hz) as [Hnil Hw]. split.
    + apply length_zero_iff_nil. by rewrite Hl, Hnil.
    + by rewrite recordToolEnd_work.
  - intros t ss. apply quiet_same; [done|].
    unfold endSession. simpl. apply allToolCalls_fmap_same.
    intros a. unfold completeIfActive. by case_match.
Qed.

Lemma reachable_stampsCoherent st sid ss :
  reachable st → sessions st !! sid = Some ss → stampsCoherent ss.
Proof.
  intros Hreach. revert sid ss.
  apply (reachable_session_invariant stampsCoherent); try done.
  - intros. constructor.
  - intros ss ts. unfold reactivateIfEnded, stampsCoherent. simpl.
    repeat case_match; try done. intros Hf. by apply Forall_alter.
  - intros env st0 ss st' ss' im Hb _. unfold getOrCreateMainAgent.
    destruct (findMain (agents ss)) as [[i m]|]; [by intros [= <- <- <-]|].
    destruct (pickAgentName _ _) as [name used]. intros [= <- <- <-].
    apply Forall_app. split; [done|]. by constructor.
  - intros model mi main ss Hb _ _. unfold captureModel, stampsCoherent.
    repeat case_match; try done. by apply Forall_alter.
  - intros st0 ss inp st' ss' sub mi main Hb _ _. unfold spawnSubagent.
    intros [= <- <- <-]. apply Forall_app. split; [done|]. by constructor.
  - intros config env event i agent ss Hok Hb _ _.
    pose proof (recordToolStart_fields config env event i agent ss Hok) as H.
    cbv zeta in H. destruct H as (_ & Ha & _).
    unfold stampsCoherent. rewrite Ha. by apply Forall_alter.
  - intros config event agent ss Hb _. unfold recordToolEnd. cbv zeta.
    assert (stampsCoherent (settlePending event ss)) as Hs.
    { unfold settlePending, stampsCoherent.
      repeat case_match; try done; by apply Forall_alter. }
    destruct (settleThrows event ss); [done|].
    case_match; [|done]. unfold completeLastSubagent. case_match; [|done].
    unfold stampsCoherent. simpl. apply Forall_alter; [done|]. done.
  - intros t ss Hb. unfold endSession, stampsCoherent. simpl.
    apply Forall_fmap. eapply Forall_impl; [exact Hb|].
    intros a Ha. unfold completeIfActive. simpl. by case_decide.
Qed.

(** ** Bookkeeping in the reachable states *)

Lemma sumCounts_booked sid (l : list Agent) :
  Forall (agentBooked sid) l → sumCounts l = Z.of_nat (length (allToolCalls l)).
Proof.
  induction 1 as [|a l (Hc & _) _ IH]; [done|].
  rewrite allToolCalls_cons, length_app. simpl. rewrite IH, Hc. lia.
Qed.

(** X2.  In every reachable state, the running count [toolCallCount] of
    an agent is the number of tool calls recorded for it, the agent names
    the session it is stored in, and its source tag is not empty; so the
    copy of the agent placed in the public snapshot differs from the stored
    agent only in that its call list is cut to the last fifty. *)
Theorem agent_books_are_kept st sid ss a :
  reachable st → sessions st !! sid = Some ss → a ∈ agents ss →
  a_toolCallCount a = Z.of_nat (length (a_toolCalls a)) ∧
  a_sessionId a = sid ∧ a_source a ≠ EmptyString ∧
  publicAgent ss a
  = agent_set_toolCalls (drop (length (a_toolCalls a) - 50) (a_toolCalls a)) a.
Proof.
  intros Hreach Hl Hin.
  pose proof (reachable_agentsBooked st sid ss Hreach Hl) as Hb.
  pose proof (reachable_keysMatch st Hreach sid ss Hl) as Hk. simpl in Hk.
  unfold agentsBooked in Hb. rewrite Forall_forall in Hb.
  destruct (Hb a Hin) as (Hc & Hs & Hn). rewrite Hk in Hs.
  split; [done|]. split; [done|]. split; [done|].
  unfold publicAgent, agent_set_toolCalls. rewrite Hk, <- Hs. f_equal.
  unfold or_str, truthy_str. by rewrite decide_False.
Qed.

Lemma agent_books_are_kept_witness :
  ∃ ss a, sessions stRead !! "s1"%string = Some ss ∧ agents ss !! 0%nat = Some a ∧
    a_toolCallCount a = Z.of_nat (length (a_toolCalls a)) ∧
    a_sessionId a = "s1"%string ∧ a_source a ≠ EmptyString ∧
    publicAgent ss a
    = agent_set_toolCalls (drop (length (a_toolCalls a) - 50) (a_toolCalls a)) a.
Proof.
  eexists _, _. split; [vm_compute; reflexivity|]. split; [reflexivity|].
  apply (agent_books_are_kept stRead "s1").
  - unfold reachable, stRead, stStarted. reach_by_events.
  - vm_compute. reflexivity.
  - apply list_elem_of_here.
Defined.

(** X3.  In every reachable state the counters of a session agree with
    what the session holds: [stats.toolCalls] is the number of tool-call
    records of its agents and the sum of their running counts, and
    [stats.filesAccessed] is the number of entries of its file map. *)
Theorem session_counters_agree st sid ss :
  reachable st → sessions st !! sid = Some ss →
  toolCalls (stats ss) = Z.of_nat (length (allToolCalls (agents ss))) ∧
  toolCalls (stats ss) = sumCounts (agents ss) ∧
  filesAccessed (stats ss) = Z.of_nat (size (files ss)).
Proof.
  intros Hreach Hl.
  destruct (reachable_countersAgree st sid ss Hreach Hl) as [Ht Hf].
  pose proof (reachable_agentsBooked st sid ss Hreach Hl) as Hb.
  split; [done|]. split; [|done].
  by rewrite (sumCounts_booked _ _ Hb).
Qed.

Lemma session_counters_agree_witness :
  ∃ ss, sessions stReadFile !! "s1"%string = Some ss ∧
    toolCalls (stats ss) = 2 ∧ filesAccessed (stats ss) = 1 ∧
    toolCalls (stats ss) = Z.of_nat (length (allToolCalls (agents ss))) ∧
    toolCalls (stats ss) = sumCounts (agents ss) ∧
    filesAccessed (stats ss) = Z.of_nat (size (files ss)).
Proof.
  eexists. split; [vm_compute; reflexivity|].
  split; [reflexivity|]. split; [reflexivity|].
  apply (session_counters_agree stReadFile "s1").
  - unfold reachable, stReadFile, stRead, stStarted. reach_by_events.
  - vm_compute. reflexivity.
Defined.

(** X4.  In every reachable state a pending marker names a recorded tool
    call of its tool; a session with a pending marker has a positive
    tool-call counter, so the pruner never deletes it as a ghost. *)
Theorem pending_marker_names_recorded_call st sid ss tool pid :
  reachable st → sessions st !! sid = Some ss →
  pendingToolCalls ss !! tool = Some pid →
  (∃ tc, tc ∈ allToolCalls (agents ss) ∧ tc_id tc = pid ∧ tc_tool tc = tool) ∧
  0 < toolCalls (stats ss) ∧
  ∀ now, ghostDue now ss = false.
Proof.
  intros Hreach Hl Hp.
  destruct (reachable_pendingRecorded st sid ss Hreach Hl tool pid Hp)
    as (tc & Hin & Hid & Ht).
  destruct (reachable_countersAgree st sid ss Hreach Hl) as [Hc _].
  assert (0 < toolCalls (stats ss)) as Hpos.
  { rewrite Hc. destruct (allToolCalls (agents ss)); [by apply elem_of_nil in Hin|].
    simpl. lia. }
  split; [by exists tc|]. split; [done|].
  intros now. unfold ghostDue.
  assert ((toolCalls (stats ss) =? 0) = false) as -> by lia.
  by rewrite andb_false_r.
Qed.

Lemma pending_marker_names_recorded_call_witness :
  ∃ ss, sessions stRead !! "s1"%string = Some ss ∧
    (∃ tc, tc ∈ allToolCalls (agents ss) ∧ tc_id tc = (1000, "k3f9"%string) ∧
           tc_tool tc = "Read"%string) ∧
    0 < toolCalls (stats ss) ∧ ∀ now, ghostDue now ss = false.
Proof.
  eexists. split; [vm_compute; reflexivity|].
  apply (pending_marker_names_recorded_call stRead "s1").
  - unfold reachable, stRead, stStarted. reach_by_events.
  - vm_compute. reflexivity.
  - vm_compute. reflexivity.
Defined.

(** ** What the ghost deletion can lose *)

Lemma workStats_add a b : workStats (addStats a b) = addStats (workStats a) (workStats b).
Proof. unfold workStats, addStats. simpl. done. Qed.

Lemma ghostDue_no_calls now s : ghostDue now s = true → toolCalls (stats s) = 0.
Proof.
  unfold ghostDue. intros H. apply andb_prop in H as [H _].
  apply andb_prop in H as [_ H]. lia.
Qed.

Lemma work_pruneOne config now st k s :
  sessions st !! k = Some s →
  (ghostDue now s = true → workStats (stats s) = zeroStats) →
  workStats (totals (pruneOne config now st (k, s))) = workStats (totals st).
Proof.
  intros Hk Hw. destruct (ghostDue now s) eqn:Hg.
  - unfold pruneOne. rewrite (ghostDue_not_retentionDue _ _ Hg), Hg.
    rewrite (totals_split st k), totals_eq. simpl. unfold sessionStats. rewrite Hk.
    rewrite !workStats_add, Hw by done. by rewrite addStats_zero_l.
  - by rewrite totals_pruneOne.
Qed.

Lemma work_prune_fold config now (l : list (string * SessionState)) :
  NoDup l.*1 → ∀ st0,
  (∀ k s, (k, s) ∈ l → sessions st0 !! k = Some s ∧
          (ghostDue now s = true → workStats (stats s) = zeroStats)) →
  workStats (totals (foldl (pruneOne config now) st0 l)) = workStats (totals st0).
Proof.
  induction l as [|[k s] l IH]; intros Hnd st0 Hl; [done|].
  rewrite fmap_cons in Hnd. apply NoDup_cons in Hnd as [Hk Hnd].
  destruct (Hl k s) as [Hks Hg]; [apply list_elem_of_here|].
  cbn [foldl]. rewrite (IH Hnd).
  - by apply work_pruneOne.
  - intros k' s' Hin. destruct (Hl k' s') as [Hk' Hg']; [by apply list_elem_of_further|].
    split; [|done]. rewrite pruneOne_sessions.
    rewrite decide_False; [done|]. intros ->. apply Hk.
    apply list_elem_of_fmap. by exists (k, s').
Qed.

Lemma ghostDue_quiet st sid ss now :
  reachable st → sessions st !! sid = Some ss → ghostDue now ss = true →
  allToolCalls (agents ss) = [] ∧ workStats (stats ss) = zeroStats.
Proof.
  intros Hreach Hl Hg. apply ghostDue_no_calls in Hg.
  destruct (reachable_quiet st sid ss Hreach Hl) as [_ Hq]. by apply Hq.
Qed.

(** X6.  In every reachable state, a session that the pruner would delete
    as a ghost has recorded no work: it has no tool-call record, no file
    entry and no pending marker, and its counters of tool calls, files,
    added and removed lines and errors are all zero.  Only its turn count
    and its token estimate can differ from zero. *)
Theorem ghost_session_has_no_work st sid ss now :
  reachable st → sessions st !! sid = Some ss → ghostDue now ss = true →
  allToolCalls (agents ss) = [] ∧ files ss = ∅ ∧ pendingToolCalls ss = ∅ ∧
  workStats (stats ss) = zeroStats.
Proof.
  intros Hreach Hl Hg.
  destruct (ghostDue_quiet st sid ss now Hreach Hl Hg) as [Hnil Hw].
  destruct (reachable_countersAgree st sid ss Hreach Hl) as [_ Hf].
  split; [done|]. split; [|split; [|done]].
  - apply map_size_empty_inv.
    assert (filesAccessed (stats ss) = 0) as H0.
    { change (filesAccessed (workStats (stats ss)) = 0). by rewrite Hw. }
    lia.
  - apply map_eq. intros tool. rewrite lookup_empty.
    destruct (pendingToolCalls ss !! tool) as [pid|] eqn:Hp; [|done].
    destruct (reachable_pendingRecorded st sid ss Hreach Hl tool pid Hp)
      as (tc & Hin & _).
    rewrite Hnil in Hin. by apply elem_of_nil in Hin.
Qed.

Lemma ghost_session_has_no_work_witness :
  ∃ ss, sessions stGhost !! "g1"%string = Some ss ∧ ghostDue 30000 ss = true ∧
    allToolCalls (agents ss) = [] ∧ files ss = ∅ ∧ pendingToolCalls ss = ∅ ∧
    workStats (stats ss) = zeroStats.
Proof.
  eexists. split; [vm_compute; reflexivity|]. split; [reflexivity|].
  apply (ghost_session_has_no_work stGhost "g1" _ 30000).
  - unfold reachable, stGhost, stRead, stStarted. reach_by_events.
  - vm_compute. reflexivity.
  - reflexivity.
Defined.

(** X7.  From every reachable state, a pass of the pruner leaves the
    cumulative counters of tool calls, files, added and removed lines and
    errors of the public snapshot exactly as they were, whatever it
    deletes: a retention deletion folds the counters into the carry-over,
    and a ghost deletion drops a session whose counters of work are
    zero. *)
Theorem pruner_keeps_work_totals config now st :
  reachable st →
  workStats (totals (pruneStaleAndEndedSessions config now st)) = workStats (totals st).
Proof.
  intros Hreach. unfold pruneStaleAndEndedSessions.
  apply work_prune_fold; [apply NoDup_fst_map_to_list|].
  intros k s Hin. apply elem_of_map_to_list in Hin. split; [done|].
  intros Hg. by destruct (ghostDue_quiet st k s now Hreach Hin Hg).
Qed.

Lemma pruner_keeps_work_totals_witness :
  workStats (totals (pruneStaleAndEndedSessions cfg0 30000 stGhost))
  = workStats (totals stGhost) ∧
  sessions (pruneStaleAndEndedSessions cfg0 30000 stGhost) !! "g1"%string = None.
Proof.
  split; [|vm_compute; reflexivity].
  apply (pruner_keeps_work_totals cfg0 30000 stGhost).
  unfold reachable, stGhost, stRead, stStarted. reach_by_events.
Defined.

(** ** Passes of the pruner *)

Lemma State_eq (st st' : State) :
  sessions st = sessions st' → agentIdCounter st = agentIdCounter st' →
  carryOverStats st = carryOverStats st' → usedNames st = usedNames st' →
  st = st'.
Proof. destruct st, st'. simpl. by intros -> -> -> ->. Qed.

(** A pass at a time when no session is due changes nothing. *)
Lemma prune_nothing_due config now st :
  (∀ sid s, sessions st !! sid = Some s →
            retentionDue now s = false ∧ ghostDue now s = false ∧
            staleDue config now s = false) →
  pruneStaleAndEndedSessions config now st = st.
Proof.
  intros Hdue. apply State_eq.
  - apply map_eq. intros sid. rewrite prune_lookup.
    destruct (sessions st !! sid) as [s|] eqn:E; [|done]. simpl.
    destruct (Hdue sid s E) as (Hr & Hg & Hs).
    unfold pruneSession. by rewrite Hr, Hg, Hs.
  - apply prune_fold_counter.
  - rewrite prune_carry, foldedStats_none; [apply addStats_zero_r|].
    intros [k s] Hin. apply elem_of_map_to_list in Hin. by apply (Hdue k s).
  - apply set_eq. intros x. unfold pruneStaleAndEndedSessions.
    rewrite prune_fold_usedNames. split; [by intros [? _]|].
    intros Hx. split; [done|]. intros k s Hin Hd.
    apply elem_of_map_to_list in Hin. destruct (Hdue k s Hin) as (Hr & Hg & _).
    by rewrite Hr, Hg in Hd.
Qed.

Lemma endSession_not_due config now t s :
  retentionDue now (endSession (Some now) s) = false ∧
  ghostDue t (endSession (Some now) s) = false ∧
  staleDue config t (endSession (Some now) s) = false.
Proof.
  unfold retentionDue, ghostDue, staleDue, endSession, js_truthy_lt. simpl.
  split; [|done]. destruct (now =? 0); simpl; [done|]. lia.
Qed.

(** X8.  A pass of the pruner at a time when no session is due (none
    past its retention window, none a ghost, none stale) returns the state
    unchanged; and a second pass at the same reading of the clock changes
    nothing more: a session the first pass ended is not yet past its
    retention window. *)
Theorem pruner_pass_is_idempotent config now st :
  ((∀ sid s, sessions st !! sid = Some s →
             retentionDue now s = false ∧ ghostDue now s = false ∧
             staleDue config now s = false) →
   pruneStaleAndEndedSessions config now st = st) ∧
  pruneStaleAndEndedSessions config now (pruneStaleAndEndedSessions config now st)
  = pruneStaleAndEndedSessions config now st.
Proof.
  split; [apply prune_nothing_due|].
  apply prune_nothing_due. intros sid s Hl. rewrite prune_lookup in Hl.
  destruct (sessions st !! sid) as [s0|]; [|done]. simpl in Hl.
  unfold pruneSession in Hl.
  destruct (retentionDue now s0) eqn:Hr; [done|].
  destruct (ghostDue now s0) eqn:Hg; [done|]. simpl in Hl.
  destruct (staleDue config now s0) eqn:Hs; injection Hl as <-; [|done].
  apply endSession_not_due.
Qed.

Lemma pruner_pass_is_idempotent_witness :
  pruneStaleAndEndedSessions cfg0 20 stRead = stRead.
Proof.
  apply (proj1 (pruner_pass_is_idempotent cfg0 20 stRead)).
  apply map_Forall_lookup. refine (bool_decide_unpack _ _). vm_compute. exact I.
Defined.

(** X9.  A session that is active, has recorded a tool call and has been
    idle for longer than the stale timeout (the configured value, or five
    minutes when none is configured) is ended by a pass of the pruner, not
    deleted: afterwards it is ended at the time of the pass, every agent
    that was active is completed at that time and the others are as they
    were, and the counters are unchanged.  Ending it settles nothing: its
    tool-call records and its pending markers are as before.  A later pass
    deletes it only once more than two minutes have gone by. *)
Theorem stale_session_is_ended config now st sid s t :
  sessions st !! sid = Some s →
  s_status (session s) = SActive →
  toolCalls (stats s) ≠ 0 →
  lastActivity s = Some t →
  STALE_TIMEOUT config < now - t →
  ∃ s', sessions (pruneStaleAndEndedSessions config now st) !! sid = Some s' ∧
    s_status (session s') = SEnded ∧ s_endedAt (session s') = Some now ∧
    agents s' = completeIfActive (Some now) <$> agents s ∧
    Forall (λ a, a_status a = ACompleted) (agents s') ∧
    stats s' = stats s ∧
    allToolCalls (agents s') = allToolCalls (agents s) ∧
    pendingToolCalls s' = pendingToolCalls s ∧
    (∀ later, later ≤ now + 120000 → retentionDue later s' = false) ∧
    (∀ later, now ≠ 0 → now + 120000 < later → retentionDue later s' = true) ∧
    (staleTimeout config = None → STALE_TIMEOUT config = 300000).
Proof.
  intros Hl Hact Hcalls Ht Hidle. exists (endSession (Some now) s).
  assert (retentionDue now s = false) as Hr.
  { unfold retentionDue. by rewrite Hact. }
  assert (ghostDue now s = false) as Hg.
  { unfold ghostDue. assert ((toolCalls (stats s) =? 0) = false) as -> by lia.
    by rewrite andb_false_r. }
  assert (staleDue config now s = true) as Hs.
  { unfold staleDue, js_idle_gt. rewrite Hact, Ht. simpl. lia. }
  split.
  { rewrite prune_lookup, Hl. simpl. unfold pruneSession. by rewrite Hr, Hg, Hs. }
  split; [done|]. split; [done|]. split; [done|]. split.
  { unfold endSession. simpl. apply Forall_fmap, Forall_forall. intros a _. simpl.
    unfold completeIfActive. case_decide; [done|]. by destruct (a_status a). }
  split; [done|]. split.
  { unfold endSession. simpl. apply allToolCalls_fmap_same.
    intros a. unfold completeIfActive. by case_match. }
  split; [done|].
  unfold retentionDue, endSession, js_truthy_lt. simpl.
  split; [|split].
  - intros later Hle. destruct (now =? 0); simpl; [done|]. lia.
  - intros later Hnz Hlt. assert ((now =? 0) = false) as -> by lia. simpl. lia.
  - unfold STALE_TIMEOUT. by intros ->.
Qed.

Lemma stale_session_is_ended_witness :
  ∃ s', sessions (pruneStaleAndEndedSessions cfg0 400000 stRead) !! "s1"%string = Some s' ∧
    s_status (session s') = SEnded ∧ s_endedAt (session s') = Some 400000 ∧
    Forall (λ a, a_status a = ACompleted) (agents s') ∧
    pendingToolCalls s' !! "Read"%string = Some (1000, "k3f9"%string).
Proof.
  destruct (stale_session_is_ended cfg0 400000 stRead "s1"
              (default (createSessionState "s1" None "x")
                 (sessions stRead !! "s1"%string)) 10)
    as (s' & Hl & Hst & He & _ & Hag & _ & _ & Hp & _).
  - vm_compute. reflexivity.
  - reflexivity.
  - vm_compute. discriminate.
  - reflexivity.
  - vm_compute. reflexivity.
  - exists s'. split; [exact Hl|]. split; [exact Hst|]. split; [exact He|].
    split; [exact Hag|]. rewrite Hp. vm_compute. reflexivity.
Defined.

(** ** What one event touches *)

Lemma getOrCreateMainAgent_usedNames env st ss st' ss' im :
  getOrCreateMainAgent env st ss = (st', ss', im) → usedNames st ⊆ usedNames st'.
Proof.
  unfold getOrCreateMainAgent. destruct (findMain (agents ss)) as [[i m]|].
  - by intros [= <- <- <-].
  - unfold pickAgentName. intros [= <- <- <-]. simpl. set_solver.
Qed.

Lemma processEvent_usedNames config env event st :
  usedNames st ⊆ usedNames (processEvent config env event st).
Proof.
  destruct (ev_phase event) eqn:Hph.
  - unfold processEvent. rewrite Hph.
    set (st0 := match sessions st !! eventSid event with
                | Some old => _ | None => st end).
    assert (usedNames st0 = usedNames st) as <-.
    { unfold st0. by destruct (sessions st !! eventSid event). }
    destruct (getOrCreateMainAgent env st0 _) as [[st1 ss1] im] eqn:Hmain.
    simpl. by eapply getOrCreateMainAgent_usedNames.
  - unfold processEvent. rewrite Hph. unfold getSession.
    by destruct (sessions st !! eventSid event).
  - assert (ev_phase event = Pre) as Hph' by done.
    destruct (processEvent_pre config env event st Hph')
      as (st1 & ss2 & mi & mainAgent & st2 & ss4 & i & agent & Hmain & Hsp & Hfa & ->).
    simpl. apply getOrCreateMainAgent_usedNames in Hmain.
    destruct (bool_decide (ev_tool_name event = "Task"%string)).
    + destruct Hsp as (st' & ss' & sub & Hsp & -> & ->).
      apply spawn_fields in Hsp.
      destruct Hsp as (_ & _ & _ & _ & _ & _ & _ & _ & _ & Hu & _). by rewrite Hu.
    + by destruct Hsp as (-> & ->).
  - by rewrite processEvent_post.
  - unfold processEvent. by rewrite Hph.
  - unfold processEvent. by rewrite Hph.
Qed.

(** X10.  An event touches one session only: every session other than
    the one the event names is left exactly as it was.  The carry-over
    counters are changed by no event other than [session_start]; the agent
    counter never goes down and no reserved name is released.  Events of
    phase [pre], [post], [notification] and [session_start] leave a session
    under the event's identifier, creating it when needed; a [session_end]
    for an unknown session and an event of any other phase change
    nothing. *)
Theorem event_touches_one_session config env event st :
  let st' := processEvent config env event st in
  (∀ sid, sid ≠ eventSid event → sessions st' !! sid = sessions st !! sid) ∧
  (ev_phase event ≠ SessionStart → carryOverStats st' = carryOverStats st) ∧
  (agentIdCounter st ≤ agentIdCounter st')%nat ∧
  usedNames st ⊆ usedNames st' ∧
  (ev_phase event ∈ [SessionStart; Pre; Post; Notification] →
     is_Some (sessions st' !! eventSid event)) ∧
  (ev_phase event = SessionEnd → sessions st !! eventSid event = None → st' = st) ∧
  (ev_phase event = Unrecognized → st' = st).
Proof.
  cbv zeta.
  split; [|split; [|split; [|split; [|split; [|split]]]]].
  - intros sid Hne.
    destruct (processEvent_shape config env event st)
      as [->|(ss' & st2 & -> & [(_ & Hs & _)|(_ & Hs & _)])]; [done| |].
    + rewrite lookup_putSession_ne by done. by rewrite Hs.
    + rewrite lookup_putSession_ne by done. rewrite Hs. by apply lookup_delete_ne.
  - intros Hph.
    destruct (processEvent_shape config env event st)
      as [->|(ss' & st2 & -> & [(_ & _ & Hc & _)|(Hph' & _)])]; done.
  - apply (processEvent_agents config env event st).
  - apply processEvent_usedNames.
  - intros Hph. rewrite !elem_of_cons in Hph.
    destruct Hph as [Hph|[Hph|[Hph|[Hph|Hph]]]]; [| | | |by apply elem_of_nil in Hph].
    + unfold processEvent. rewrite Hph.
      destruct (getOrCreateMainAgent _ _ _) as [[st1 ss1] im].
      by rewrite lookup_putSession.
    + destruct (processEvent_pre config env event st Hph)
        as (st1 & ss2 & mi & mainAgent & st2 & ss4 & i & agent & _ & _ & _ & ->).
      by rewrite lookup_putSession.
    + rewrite processEvent_post by done. cbv zeta. by rewrite lookup_putSession.
    + unfold processEvent. rewrite Hph. by rewrite lookup_putSession.
  - intros Hph Hnone. unfold processEvent, getSession. by rewrite Hph, Hnone.
  - intros Hph. unfold processEvent. by rewrite Hph.
Qed.

Lemma event_touches_one_session_witness :
  sessions stTwoPlatforms !! "s1"%string = sessions stRead !! "s1"%string ∧
  is_Some (sessions stTwoPlatforms !! "oc-7"%string) ∧
  carryOverStats stTwoPlatforms = carryOverStats stRead.
Proof.
  destruct (event_touches_one_session cfg0 envC
              (mkEvent Pre (Some 30) (Some "oc-7"%string) None "Bash"%string
                 None None None) stRead) as (Hf & Hc & _ & _ & Hs & _).
  split; [|split].
  - apply Hf. discriminate.
  - apply Hs. apply list_elem_of_further, list_elem_of_here.
  - apply Hc. discriminate.
Defined.

(** ** The source tag of a session *)

Lemma detectSource_nonempty event : detectSource event ≠ EmptyString.
Proof.
  unfold detectSource, truthy_str. destruct (ev_source event) as [s|].
  - case_decide; [|done]. by case_match.
  - by case_match.
Qed.

Lemma getOrCreateSession_source sid ts src st :
  src ≠ EmptyString →
  s_source (session (getOrCreateSession sid ts src st)) =
  match sessions st !! sid with
  | Some ss => if bool_decide (s_source (session ss) = "unknown"%string)
               then src else s_source (session ss)
  | None => src
  end.
Proof.
  intros Hne. unfold getOrCreateSession.
  rewrite (bool_decide_eq_true_2 _ Hne). simpl.
  destruct (sessions st !! sid) as [ss|].
  - by case_bool_decide.
  - unfold createSessionState, truthy_str. simpl. rewrite decide_False by done. simpl.
    by case_bool_decide.
Qed.

Lemma processEvent_source config env event st :
  ev_phase event ∈ [Pre; Post; Notification] →
  ∃ ss', sessions (processEvent config env event st) !! eventSid event = Some ss' ∧
         s_source (session ss')
         = s_source (session (getOrCreateSession (eventSid event) (ev_timestamp event)
                                (detectSource event) st)).
Proof.
  intros Hph. rewrite !elem_of_cons in Hph.
  set (ss0 := getOrCreateSession (eventSid event) (ev_timestamp event)
                (detectSource event) st).
  pose proof (reactivateIfEnded_fields ss0 (ev_timestamp event)) as Hr.
  cbv zeta in Hr. destruct Hr as (_ & Hsrc1 & _).
  destruct Hph as [Hph|[Hph|[Hph|Hph]]]; [| | |by apply elem_of_nil in Hph].
  - destruct (processEvent_pre config env event st Hph)
      as (st1 & ss2 & mi & mainAgent & st2 & ss4 & i & agent & Hmain & Hsp & _ & ->).
    fold ss0 in Hmain. eexists. split; [apply lookup_putSession|].
    pose proof (recordToolStart_kept config env event i agent ss4) as Hs.
    cbv zeta in Hs. destruct Hs as (-> & _).
    apply getOrCreateMainAgent_fields in Hmain. destruct Hmain as (Hs2 & _).
    pose proof (captureModel_fields (ev_model event) mi mainAgent ss2) as Hc.
    cbv zeta in Hc. destruct Hc as (_ & _ & Hsrc3 & _).
    rewrite <- Hsrc1, <- Hs2, <- Hsrc3.
    destruct (bool_decide (ev_tool_name event = "Task"%string)).
    + destruct Hsp as (st' & ss' & sub & Hsp & -> & ->).
      apply spawn_fields in Hsp.
      destruct Hsp as (_ & _ & _ & _ & _ & _ & _ & _ & _ & _ & Hs' & _).
      simpl. by rewrite Hs'.
    + by destruct Hsp as (-> & ->).
  - rewrite processEvent_post by done. cbv zeta. fold ss0.
    eexists. split; [apply lookup_putSession|]. rewrite <- Hsrc1.
    case_match; [|done]. case_match.
    pose proof (recordToolEnd_fields config event a (reactivateIfEnded ss0 (ev_timestamp event)))
      as Hs.
    cbv zeta in Hs. destruct Hs as (-> & _). done.
  - unfold processEvent. rewrite Hph. fold ss0.
    eexists. split; [apply lookup_putSession|]. rewrite <- Hsrc1.
    case_match; [|done]. by case_match.
Qed.

(** X11.  The source tag of a session is set once.  The tag computed
    for an event is never empty: it is the event's own [source] when it
    has one, and otherwise ["opencode"] for a session identifier starting
    with ["oc-"] and ["claudecode"] for any other.  A [pre], [post] or
    [notification] event gives that tag to a session it creates and to an
    existing session tagged ["unknown"], and leaves every other tag as it
    is, whatever source the event carries. *)
Theorem session_source_is_set_once config env event st :
  ev_phase event ∈ [Pre; Post; Notification] →
  detectSource event ≠ EmptyString ∧
  (truthy_str (ev_source event) = None →
   detectSource event
   = if String.prefix "oc-" (default EmptyString (truthy_str (ev_session_id event)))
     then "opencode"%string else "claudecode"%string) ∧
  ∃ ss', sessions (processEvent config env event st) !! eventSid event = Some ss' ∧
    (sessions st !! eventSid event = None → s_source (session ss') = detectSource event) ∧
    (∀ ss, sessions st !! eventSid event = Some ss →
           s_source (session ss') =
           if bool_decide (s_source (session ss) = "unknown"%string)
           then detectSource event else s_source (session ss)).
Proof.
  intros Hph. split; [apply detectSource_nonempty|]. split.
  { unfold detectSource. by intros ->. }
  destruct (processEvent_source config env event st Hph) as (ss' & Hl & Hs).
  exists ss'. split; [done|].
  rewrite getOrCreateSession_source in Hs by apply detectSource_nonempty.
  split.
  - intros Hn. by rewrite Hn in Hs.
  - intros ss Hss. by rewrite Hss in Hs.
Qed.

Lemma session_source_is_set_once_witness :
  ∃ ss', sessions (processEvent cfg0 envB
                     (mkEvent Post (Some 12) (Some "s1"%string) (Some "opencode"%string)
                        "Read"%string None None None) stRead) !! "s1"%string = Some ss' ∧
         s_source (session ss') = "claudecode"%string.
Proof.
  destruct (session_source_is_set_once cfg0 envB
              (mkEvent Post (Some 12) (Some "s1"%string) (Some "opencode"%string)
                 "Read"%string None None None) stRead)
    as (_ & _ & ss' & Hl & _ & Hs).
  - apply list_elem_of_further, list_elem_of_here.
  - exists ss'. split; [exact Hl|].
    rewrite (Hs (default (createSessionState "s1" None "x")
                   (sessions stRead !! "s1"%string))); [reflexivity|].
    vm_compute. reflexivity.
Defined.

(** ** Choosing the agent an event is about *)

Lemma findLastIndex_all_false {A} (P : A → bool) (l : list A) :
  Forall (λ b, P b = false) l → findLastIndex P l = None.
Proof. induction 1 as [|a l Ha _ IH]; [done|]. simpl. by rewrite IH, Ha. Qed.

Lemma findLastIndex_app_last {A} (P : A → bool) (l1 : list A) a l2 :
  P a = true → Forall (λ b, P b = false) l2 →
  findLastIndex P (l1 ++ a :: l2) = Some (length l1).
Proof.
  intros Ha Hl2. induction l1 as [|x l1 IH]; simpl.
  - by rewrite findLastIndex_all_false, Ha.
  - by rewrite IH.
Qed.

Lemma not_active_false (l : list Agent) :
  Forall (λ b, a_status b ≠ AActive) l →
  Forall (λ b, bool_decide (a_status b = AActive) = false) l.
Proof.
  intros H. eapply Forall_impl; [exact H|].
  intros b Hb. by apply bool_decide_eq_false_2.
Qed.

Lemma findActiveAgentAt_last_active (l1 : list Agent) a l2 :
  a_status a = AActive → Forall (λ b, a_status b ≠ AActive) l2 →
  findActiveAgentAt (l1 ++ a :: l2) = Some (length l1, a).
Proof.
  intros Ha Hl2. unfold findActiveAgentAt, findActiveAgentIndex.
  rewrite findLastIndex_app_last;
    [|by apply bool_decide_eq_true_2|by apply not_active_false].
  simpl. by rewrite list_lookup_middle.
Qed.

(** X12.  [findActiveAgent] returns nothing exactly when the session has
    no agent; when some agent is active it returns the last active agent
    of the list; when none is active it falls back to the first agent. *)
Theorem findActiveAgent_spec ss :
  (findActiveAgent ss = None ↔ agents ss = []) ∧
  (∀ l1 a l2, agents ss = l1 ++ a :: l2 → a_status a = AActive →
              Forall (λ b, a_status b ≠ AActive) l2 →
              findActiveAgent ss = Some a) ∧
  (∀ a l, agents ss = a :: l → Forall (λ b, a_status b ≠ AActive) (a :: l) →
          findActiveAgent ss = Some a).
Proof.
  unfold findActiveAgent. split; [|split].
  - split.
    + intros Hn. destruct (agents ss) as [|a l] eqn:E; [done|].
      destruct (findActiveAgentAt_nonempty (a :: l)) as (i & b & Hfa & _); [done|].
      by rewrite Hfa in Hn.
    + by intros ->.
  - intros l1 a l2 -> Ha Hl2. by rewrite findActiveAgentAt_last_active.
  - intros a l -> Hall. unfold findActiveAgentAt, findActiveAgentIndex.
    by rewrite findLastIndex_all_false by by apply not_active_false.
Qed.

Lemma findActiveAgent_spec_witness :
  ∃ ss a, sessions stTask !! "s1"%string = Some ss ∧
          findActiveAgent ss = Some a ∧ a_type a = Subagent ∧ a_id a = 1%nat.
Proof.
  eexists (default (createSessionState "s1" None "x") (sessions stTask !! "s1"%string)), _.
  split; [vm_compute; reflexivity|]. split.
  - eapply (proj1 (proj2 (findActiveAgent_spec _)) [_] _ []).
    + vm_compute. reflexivity.
    + reflexivity.
    + constructor.
  - split; reflexivity.
Defined.

(** ** Completion of a subagent by the [post] of the spawn tool *)



(** ** The main agent of an active session *)

Lemma Forall2_alter_at {A} (R : A → A → Prop) (f : A → A) (i : nat) (l : list A) :
  (∀ a, R a a) → (∀ a, l !! i = Some a → R a (f a)) → Forall2 R l (alter f i l).
Proof.
  intros Hrefl. revert i. induction l as [|a l IH]; intros [|i] Hf; simpl.
  - constructor.
  - constructor.
  - constructor; [by apply Hf|]. by apply Forall_Forall2_diag, Forall_forall.
  - constructor; [apply Hrefl|]. apply IH. intros b Hb. by apply Hf.
Qed.

Lemma findMain_Forall2_inv (R : Agent → Agent → Prop) (l l' : list Agent) i m' :
  (∀ a a', R a a' → a_type a' = a_type a) →
  Forall2 R l l' → findMain l' = Some (i, m') →
  ∃ m, findMain l = Some (i, m) ∧ R m m'.
Proof.
  intros HR HF Hfind. unfold findMain in *.
  apply list_find_Some in Hfind as (Hi & Hm & Hbefore).
  destruct (Forall2_lookup_r _ _ _ _ _ HF Hi) as (m & Hi' & Hmm').
  exists m. split; [|done]. apply list_find_Some. split; [done|].
  split; [by rewrite <- (HR _ _ Hmm')|].
  intros j y Hy Hlt.
  destruct (Forall2_lookup_l _ _ _ _ _ HF Hy) as (x & Hx & Hxy).
  rewrite <- (HR _ _ Hxy). by eapply Hbefore.
Qed.

Lemma keepsMain_refl a : keepsMain a a.
Proof. done. Qed.

Lemma mainAwake_keeps ss ss' :
  s_status (session ss') = s_status (session ss) →
  Forall2 keepsMain (agents ss) (agents ss') →
  mainAwake ss → mainAwake ss'.
Proof.
  intros Hst HF Hawake Hact i m' Hfind. rewrite Hst in Hact.
  destruct (findMain_Forall2_inv keepsMain _ _ _ _ (λ a a' H, proj1 H) HF Hfind)
    as (m & Hm & Hty & Hs).
  rewrite Hs; [by eapply Hawake|].
  unfold findMain in Hm. by apply list_find_Some in Hm as (_ & ? & _).
Qed.

Lemma findMain_alter (f : Agent → Agent) (l : list Agent) i m :
  (∀ a, a_type (f a) = a_type a) →
  findMain l = Some (i, m) → findMain (alter f i l) = Some (i, f m).
Proof.
  intros Hf Hfind. unfold findMain in *.
  apply list_find_Some in Hfind as (Hi & Hm & Hbefore).
  apply list_find_Some. split; [by rewrite list_lookup_alter_eq, Hi|].
  split; [by rewrite Hf|].
  intros j y Hy Hlt. rewrite list_lookup_alter_ne in Hy by lia. by eapply Hbefore.
Qed.

Lemma settlePending_keepsMain event ss :
  Forall2 keepsMain (agents ss) (agents (settlePending event ss)).
Proof.
  unfold settlePending. repeat case_match; simpl;
    try (apply Forall_Forall2_diag, Forall_forall; intros; apply keepsMain_refl);
    apply Forall2_alter_r; done.
Qed.

Lemma completeLastSubagent_keepsMain ts ss :
  Forall2 keepsMain (agents ss) (agents (completeLastSubagent ts ss)).
Proof.
  unfold completeLastSubagent.
  destruct (findLastIndex _ (agents ss)) as [k|] eqn:Hk; simpl.
  - apply Forall2_alter_at; [done|]. intros a Ha.
    apply findLastIndex_Some in Hk as (b & Hb & HP & _).
    rewrite Ha in Hb. injection Hb as <-.
    apply andb_prop in HP as [Ht _]. apply bool_decide_eq_true_1 in Ht.
    split; [done|]. by rewrite Ht.
  - apply Forall_Forall2_diag, Forall_forall. intros; apply keepsMain_refl.
Qed.

Lemma Forall2_keepsMain_trans l1 l2 l3 :
  Forall2 keepsMain l1 l2 → Forall2 keepsMain l2 l3 → Forall2 keepsMain l1 l3.
Proof.
  intros H. revert l3. induction H as [|a b l1 l2 Hab _ IH]; intros l3 H3.
  - by apply Forall2_nil_inv_l in H3 as ->.
  - apply Forall2_cons_inv_l in H3 as (c & l3' & Hbc & H3 & ->).
    constructor; [|by apply IH].
    destruct Hab as (Ht1 & Hs1), Hbc as (Ht2 & Hs2). split; [congruence|].
    intros Hm. rewrite Hs2, Hs1; [done|done|congruence].
Qed.

Lemma reachable_mainAwake st sid ss :
  reachable st → sessions st !! sid = Some ss → mainAwake ss.
Proof.
  intros Hreach. revert sid ss.
  apply (reachable_session_invariant mainAwake); try done.
  - intros ss ts Hawake _ i m' Hfind. revert Hfind.
    unfold reactivateIfEnded. simpl.
    destruct (decide (s_status (session ss) = SEnded)) as [He|He]; simpl.
    + destruct (findMain (agents ss)) as [[k m]|] eqn:Hm; simpl.
      * destruct (decide (a_status m = ACompleted)) as [Hc|Hc]; simpl.
        -- rewrite (findMain_alter (agent_set_status AActive None) _ _ _ (λ a, eq_refl) Hm). by intros [= <- <-].
        -- rewrite Hm. intros [= <- <-]. by destruct (a_status m).
      * by rewrite Hm.
    + apply Hawake. by destruct (s_status (session ss)).
  - intros env st0 ss st' ss' [mi main] Hawake Hact Hmain _ i m Hfind.
    apply getOrCreateMainAgent_fields in Hmain.
    destruct Hmain as (_ & _ & _ & _ & _ & _ & _ & _ & _ & _ & _ & Hfm & _ & Hor).
    rewrite Hfm in Hfind. injection Hfind as <- <-.
    destruct Hor as [[Hag _]|(_ & _ & Hs & _)]; [|done].
    rewrite Hag in Hfm. by eapply Hawake.
  - intros model mi main ss Hawake Hact _. revert Hawake. apply mainAwake_keeps.
    + pose proof (captureModel_fields model mi main ss) as H. cbv zeta in H. apply H.
    + unfold captureModel. repeat case_match; simpl;
        try (apply Forall_Forall2_diag, Forall_forall; intros; apply keepsMain_refl).
      apply Forall2_alter_r; done.
  - intros st0 ss inp st' ss' sub mi main Hawake Hact Hfm Hsp _ i m Hfind.
    apply spawn_fields in Hsp. destruct Hsp as (Hag & _).
    rewrite Hag in Hfind. unfold findMain in *.
    rewrite (list_find_app_l _ _ _ _ _ Hfm) in Hfind. injection Hfind as <- <-.
    by eapply Hawake.
  - intros config env event i agent ss Hok Hawake Hact _. revert Hawake.
    pose proof (recordToolStart_fields config env event i agent ss Hok) as H.
    cbv zeta in H. destruct H as (Hs & Ha & _).
    apply mainAwake_keeps; [by rewrite Hs|]. rewrite Ha.
    apply Forall2_alter_r; done.
  - intros config event agent ss Hawake Hact. revert Hawake.
    pose proof (recordToolEnd_fields config event agent ss) as H.
    cbv zeta in H. destruct H as (Hs & _).
    apply mainAwake_keeps; [by rewrite Hs|].
    unfold recordToolEnd. cbv zeta.
    destruct (settleThrows event ss); [apply settlePending_keepsMain|].
    change (agents (addTimelineEvent ?c ?s ?t ?k ?a)) with (agents s).
    apply (Forall2_keepsMain_trans _ (agents (settlePending event ss)));
      [apply settlePending_keepsMain|].
    case_match; [apply (completeLastSubagent_keepsMain _ (with_stats _ _))|].
    apply Forall_Forall2_diag, Forall_forall. intros; apply keepsMain_refl.
Qed.

(** X14.  From a reachable state, the tool call of a [pre] event that is
    processed to its end ([summarizeInput] does not throw on it) is
    recorded, as the newest call, on an agent that is active: the last
    active agent of the session.  The fallback of [findActiveAgent] to the
    first agent is not what decides, since the main agent of the session is
    active by then.  For the spawn tool that agent is the subagent just
    created, whose only call it is. *)
Theorem tool_call_goes_to_last_active_agent config env event st :
  reachable st → ev_phase event = Pre →
  summarizeInputThrows (ev_tool_name event) (ev_tool_input event) = false →
  let tc := mkToolCall (env_clock env, env_suffix env) (ev_tool_name event)
              (ev_timestamp event) None Executing in
  ∃ ss' i agent,
    sessions (processEvent config env event st) !! eventSid event = Some ss' ∧
    agents ss' !! i = Some agent ∧
    a_status agent = AActive ∧
    last (a_toolCalls agent) = Some tc ∧
    (∀ j b, agents ss' !! j = Some b → (i < j)%nat → a_status b ≠ AActive) ∧
    (ev_tool_name event = "Task"%string →
     a_type agent = Subagent ∧ a_toolCalls agent = [tc] ∧
     S i = length (agents ss')).
Proof.
  intros Hreach Hph Hok tc.
  assert (reachable (processEvent config env event st)) as Hreach'.
  { eapply rtc_r; [exact Hreach|apply step_event]. }
  destruct (processEvent_pre config env event st Hph)
    as (st1 & ss2 & mi & mainAgent & st2 & ss4 & i & agent0 & Hmain & Hsp & Hfa & Heq).
  pose proof (recordToolStart_fields config env event i agent0 ss4 Hok) as Hf.
  cbv zeta in Hf. fold tc in Hf. destruct Hf as (Hs5 & Ha5 & _).
  remember (recordToolStart config env event i agent0 ss4) as ss5 eqn:E5.
  assert (sessions (processEvent config env event st) !! eventSid event = Some ss5) as Hl.
  { rewrite Heq. apply lookup_putSession. }
  pose proof (findActiveAgentAt_lookup _ _ _ Hfa) as Hi.
  exists ss5, i, (agent_push_toolCall tc agent0).
  split; [done|]. split; [by rewrite Ha5, list_lookup_alter_eq, Hi|].
  assert (a_status agent0 = AActive ∧
          ∀ j b, agents ss4 !! j = Some b → (i < j)%nat → a_status b ≠ AActive)
    as [Hact Hlater].
  { unfold findActiveAgentAt, findActiveAgentIndex in Hfa.
    destruct (findLastIndex _ (agents ss4)) as [k|] eqn:Hk; simpl in Hfa.
    - apply findLastIndex_Some in Hk as (x & Hx & HP & Hafter).
      rewrite Hx in Hfa. simpl in Hfa. injection Hfa as <- <-.
      split; [by apply bool_decide_eq_true_1 in HP|].
      intros j b Hb Hlt. specialize (Hafter j b Hb Hlt).
      by apply bool_decide_eq_false_1 in Hafter.
    - exfalso.
      destruct (agents ss4) as [|x l] eqn:E4; [done|]. simpl in Hfa.
      injection Hfa as <- <-.
      pose proof (findLastIndex_None _ _ Hk x (list_elem_of_here _ _)) as Hx.
      apply bool_decide_eq_false_1 in Hx.
      destruct (pre_effect config env event st Hph Hok) as (ss' & Hl' & Hst' & _).
      rewrite Hl in Hl'. injection Hl' as <-.
      pose proof (reachable_agentTree _ _ _ Hreach' Hl) as Htree.
      pose proof (reachable_mainAwake _ _ _ Hreach' Hl Hst') as Hawake.
      unfold agentTree in Htree. rewrite Ha5 in Htree, Hawake.
      simpl in Htree, Hawake.
      destruct Htree as [Hnil|(main & subs & Hag & Hm & _)]; [done|].
      injection Hag as <- <-.
      apply Hx. apply (Hawake 0%nat (agent_push_toolCall tc x)).
      unfold findMain. simpl. by rewrite decide_True. }
  split; [done|]. split; [simpl; apply last_snoc|]. split.
  - intros j b Hb Hlt. rewrite Ha5, list_lookup_alter_ne in Hb by lia.
    by eapply Hlater.
  - intros Htask. rewrite bool_decide_eq_true_2 in Hsp by done.
    destruct Hsp as (st' & ss' & sub & Hsp & -> & ->).
    apply spawn_fields in Hsp.
    destruct Hsp as (Hag & _ & Hty & _ & Hsact & Hnil & _).
    simpl in Hfa. rewrite Hag in Hfa.
    rewrite findActiveAgentAt_last_active in Hfa by done.
    injection Hfa as <- <-. simpl. rewrite Hnil.
    split; [done|]. split; [done|].
    rewrite Ha5, length_alter. simpl. rewrite Hag, length_app. simpl. lia.
Qed.

Lemma tool_call_goes_to_last_active_agent_witness :
  ∃ ss' agent,
    sessions stTask !! "s1"%string = Some ss' ∧
    agents ss' !! 1%nat = Some agent ∧
    a_status agent = AActive ∧ a_type agent = Subagent ∧
    tc_tool <$> a_toolCalls agent = ["Task"%string].
Proof.
  destruct (tool_call_goes_to_last_active_agent cfg0 envB
              (mkEv Pre (Some 11) "s1" "Task") stRead)
    as (ss' & i & agent & Hl & Hi & Hact & _ & _ & Htask).
  - unfold reachable, stRead, stStarted. reach_by_events.
  - reflexivity.
  - reflexivity.
  - destruct Htask as (Hty & Hcalls & Hlen); [reflexivity|].
    vm_compute in Hl. injection Hl as <-.
    vm_compute in Hlen. injection Hlen as ->.
    eexists _, agent. split; [vm_compute; reflexivity|].
    split; [exact Hi|]. split; [exact Hact|]. split; [exact Hty|].
    rewrite Hcalls. reflexivity.
Defined.

(** X5.  In every reachable state the lifecycle marks of sessions and
    agents are coherent: every agent of an ended session is completed; an
    active session has no end timestamp and its main agent is active; and
    an active agent has no completion timestamp. *)
Theorem lifecycle_marks_are_coherent st sid ss :
  reachable st → sessions st !! sid = Some ss →
  (s_status (session ss) = SEnded → ∀ a, a ∈ agents ss → a_status a = ACompleted) ∧
  (s_status (session ss) = SActive →
     s_endedAt (session ss) = None ∧
     ∀ a, a ∈ agents ss → a_type a = Main → a_status a = AActive) ∧
  (∀ a, a ∈ agents ss → a_status a = AActive → a_completedAt a = None).
Proof.
  intros Hreach Hl.
  destruct (reachable_statusCoherent st sid ss Hreach Hl) as [H1 H2].
  pose proof (reachable_stampsCoherent st sid ss Hreach Hl) as H3.
  pose proof (reachable_mainAwake st sid ss Hreach Hl) as H5.
  pose proof (reachable_agentTree st sid ss Hreach Hl) as H6.
  unfold stampsCoherent in H3. rewrite Forall_forall in H3.
  split; [|split; [|done]].
  - intros He. specialize (H1 He). by rewrite Forall_forall in H1.
  - intros Hact. split; [by apply H2|]. intros a Hin Hmain.
    destruct H6 as [Hnil|(main & subs & Hag & Hm & _ & Hsubs)].
    + rewrite Hnil in Hin. by apply elem_of_nil in Hin.
    + rewrite Hag in Hin. apply elem_of_cons in Hin as [->|Hin].
      * apply (H5 Hact 0%nat main). rewrite Hag. unfold findMain. simpl.
        by rewrite decide_True.
      * rewrite Forall_forall in Hsubs. destruct (Hsubs a Hin) as [Hty _].
        congruence.
Qed.

Lemma lifecycle_marks_are_coherent_witness :
  ∃ ss, sessions stEnded !! "s1"%string = Some ss ∧
    s_status (session ss) = SEnded ∧
    (s_status (session ss) = SEnded → ∀ a, a ∈ agents ss → a_status a = ACompleted) ∧
    (s_status (session ss) = SActive →
       s_endedAt (session ss) = None ∧
       ∀ a, a ∈ agents ss → a_type a = Main → a_status a = AActive) ∧
    (∀ a, a ∈ agents ss → a_status a = AActive → a_completedAt a = None).
Proof.
  eexists. split; [vm_compute; reflexivity|]. split; [reflexivity|].
  apply (lifecycle_marks_are_coherent stEnded "s1").
  - unfold reachable, stEnded, stRead, stStarted. reach_by_events.
  - vm_compute. reflexivity.
Defined.

(** ** The timeline *)

(** X15.  [addTimelineEvent] appends the new entry and keeps the newest
    entries only: the timeline afterwards is the end of the old timeline
    followed by the new entry, its last entry is the new one, and its
    length is the old length plus one, cut at the configured maximum
    ([1000] when none is configured or the configured value is zero); a
    timeline within the maximum stays within it. *)
Theorem timeline_keeps_newest_entries config ss ts k aid :
  let ss' := addTimelineEvent config ss ts k aid in
  let new := mkTimelineEvent ts k aid in
  (∃ dropped, timeline ss ++ [new] = dropped ++ timeline ss') ∧
  last (timeline ss') = Some new ∧
  length (timeline ss') = (S (length (timeline ss)) `min` timelineCap config)%nat ∧
  (0 < timelineCap config)%nat ∧
  (maxTimelineEvents config = None → timelineCap config = 1000%nat) ∧
  ((length (timeline ss) ≤ timelineCap config)%nat →
   (length (timeline ss') ≤ timelineCap config)%nat).
Proof.
  cbv zeta. unfold addTimelineEvent. fold (timelineCap config).
  assert (0 < timelineCap config)%nat as Hpos.
  { unfold timelineCap. repeat case_match; lia. }
  set (tl := timeline ss ++ [mkTimelineEvent ts k aid]).
  assert (length tl = S (length (timeline ss))) as Hlen.
  { unfold tl. rewrite length_app. simpl. lia. }
  unfold with_timeline. cbn [timeline].
  destruct (timelineCap config <? length tl)%nat eqn:Hlt.
  - apply Nat.ltb_lt in Hlt. split; [|split; [|split; [|split; [done|split]]]].
    + exists (take (length tl - timelineCap config) tl). by rewrite take_drop.
    + unfold tl at 2. rewrite drop_app_le by (rewrite Hlen in Hlt; lia).
      apply last_snoc.
    + rewrite length_drop. lia.
    + unfold timelineCap. by intros ->.
    + intros _. rewrite length_drop. lia.
  - apply Nat.ltb_ge in Hlt. split; [|split; [|split; [|split; [done|split]]]].
    + by exists [].
    + apply last_snoc.
    + lia.
    + unfold timelineCap. by intros ->.
    + intros _. lia.
Qed.

Lemma timeline_keeps_newest_entries_witness :
  ∃ ss, sessions stRead !! "s1"%string = Some ss ∧
    length (timeline (addTimelineEvent (mkConfig None (Some 1%nat)) ss (Some 11)
                        ToolEnd 0)) = 1%nat.
Proof.
  eexists. split; [vm_compute; reflexivity|].
  rewrite (proj1 (proj2 (proj2 (timeline_keeps_newest_entries
                                  (mkConfig None (Some 1%nat)) _ (Some 11) ToolEnd 0)))).
  reflexivity.
Defined.

(** ** Signs and sums of the counters *)

Lemma sumStats_nonneg (l : list (string * SessionState)) :
  Forall (λ e, stats_le zeroStats (stats e.2)) l → stats_le zeroStats (sumStats l).
Proof.
  induction 1 as [|e l He _ IH]; [apply stats_le_refl|].
  simpl. rewrite <- (addStats_zero_l zeroStats). by apply addStats_mono.
Qed.

Lemma reachable_sessions_nonneg st sid ss :
  reachable st → sessions st !! sid = Some ss → stats_le zeroStats (stats ss).
Proof.
  intros Hreach. revert sid ss.
  apply (reachable_session_invariant countersNonneg); unfold countersNonneg; try done.
  - intros ss ts H. by rewrite reactivateIfEnded_stats.
  - intros env st0 ss st' ss' [mi main] H _ Hmain.
    apply getOrCreateMainAgent_fields in Hmain.
    destruct Hmain as (_ & _ & _ & -> & _). done.
  - intros model mi main ss H _ _.
    pose proof (captureModel_fields model mi main ss) as Hc. cbv zeta in Hc.
    destruct Hc as (_ & _ & _ & _ & _ & _ & -> & _). done.
  - intros st0 ss inp st' ss' sub mi main H _ _ Hsp.
    apply spawn_fields in Hsp.
    destruct Hsp as (_ & _ & _ & _ & _ & _ & _ & _ & _ & _ & _ & _ & _ & -> & _). done.
  - intros config env event i agent ss Hok H _ _.
    eapply stats_le_trans; [exact H|apply recordToolStart_stats].
  - intros config event agent ss H _.
    eapply stats_le_trans; [exact H|apply recordToolEnd_stats].
  - intros ss H _. eapply stats_le_trans; [exact H|].
    simpl. unfold stats_le. destruct (stats ss). simpl. repeat split; lia.
Qed.

Lemma foldedStats_nonneg now (l : list (string * SessionState)) :
  Forall (λ e, stats_le zeroStats (stats e.2)) l →
  stats_le zeroStats (foldedStats now l).
Proof.
  induction 1 as [|e l He _ IH]; [apply stats_le_refl|].
  simpl. destruct (retentionDue now e.2); [|done].
  rewrite <- (addStats_zero_l zeroStats). by apply addStats_mono.
Qed.

Lemma entries_nonneg st :
  (∀ sid ss, sessions st !! sid = Some ss → stats_le zeroStats (stats ss)) →
  Forall (λ e, stats_le zeroStats (stats e.2)) (map_to_list (sessions st)).
Proof.
  intros Hnn. apply Forall_forall. intros [k s] Hin.
  apply elem_of_map_to_list in Hin. by eapply Hnn.
Qed.

Lemma step_carry_le st st' :
  (∀ sid ss, sessions st !! sid = Some ss → stats_le zeroStats (stats ss)) →
  step st st' → stats_le (carryOverStats st) (carryOverStats st').
Proof.
  intros Hnn Hstep. destruct Hstep as [config env event st|config now st].
  - destruct (processEvent_shape config env event st)
      as [->|(ss' & st2 & -> & [(_ & _ & Hc & _)|(_ & _ & Hc & _)])]; simpl.
    + apply stats_le_refl.
    + rewrite Hc. apply stats_le_refl.
    + rewrite Hc. rewrite <- (addStats_zero_r (carryOverStats st)) at 1.
      apply addStats_mono; [apply stats_le_refl|].
      unfold sessionStats. destruct (sessions st !! eventSid event) eqn:E.
      * by eapply Hnn.
      * apply stats_le_refl.
  - rewrite prune_carry. rewrite <- (addStats_zero_r (carryOverStats st)) at 1.
    apply addStats_mono; [apply stats_le_refl|].
    by apply foldedStats_nonneg, entries_nonneg.
Qed.

Lemma reachable_carry_nonneg st :
  reachable st → stats_le zeroStats (carryOverStats st).
Proof.
  unfold reachable. revert st.
  apply (rtc_ind_r (λ st, stats_le zeroStats (carryOverStats st))).
  - apply stats_le_refl.
  - intros st1 st2 Hreach Hstep IH. eapply stats_le_trans; [exact IH|].
    apply step_carry_le; [|done]. intros sid ss. by apply reachable_sessions_nonneg.
Qed.

(** X16.  In every reachable state all seven counters of every session,
    of the carry-over and of the totals of the public snapshot are
    non-negative, and the totals are at least the carry-over; and no
    operation, event or pruner pass, makes a carry-over counter smaller. *)
Theorem counters_are_nonnegative st :
  reachable st →
  (∀ sid ss, sessions st !! sid = Some ss → stats_le zeroStats (stats ss)) ∧
  stats_le zeroStats (carryOverStats st) ∧
  stats_le (carryOverStats st) (totals st) ∧
  stats_le zeroStats (totals st) ∧
  (∀ st', step st st' → stats_le (carryOverStats st) (carryOverStats st')).
Proof.
  intros Hreach.
  assert (∀ sid ss, sessions st !! sid = Some ss → stats_le zeroStats (stats ss)) as Hs.
  { intros sid ss. by apply reachable_sessions_nonneg. }
  pose proof (reachable_carry_nonneg st Hreach) as Hc.
  assert (stats_le (carryOverStats st) (totals st)) as Ht.
  { rewrite totals_eq. rewrite <- (addStats_zero_r (carryOverStats st)) at 1.
    apply addStats_mono; [apply stats_le_refl|].
    by apply sumStats_nonneg, entries_nonneg. }
  split; [done|]. split; [done|]. split; [done|]. split.
  - by eapply stats_le_trans.
  - intros st'. by apply step_carry_le.
Qed.

Lemma counters_are_nonnegative_witness :
  stats_le zeroStats (carryOverStats stRestarted) ∧
  stats_le (carryOverStats stRestarted) (totals stRestarted) ∧
  toolCalls (carryOverStats stRestarted) = 1.
Proof.
  destruct (counters_are_nonnegative stRestarted) as (_ & Hc & Ht & _).
  - unfold reachable, stRestarted, stRead, stStarted. reach_by_events.
  - split; [exact Hc|]. split; [exact Ht|]. vm_compute. reflexivity.
Defined.

(** ** Agent identifiers *)

(** X17.  In every reachable state every agent identifier is below the
    agent counter, and no identifier is carried by two agents: two agents
    with the same identifier are in the same session at the same
    position. *)
Theorem agent_ids_are_unique st :
  reachable st →
  (∀ sid i a, holdsAgent st sid i a → (a_id a < agentIdCounter st)%nat) ∧
  (∀ sid1 i1 a1 sid2 i2 a2,
     holdsAgent st sid1 i1 a1 → holdsAgent st sid2 i2 a2 →
     a_id a1 = a_id a2 → sid1 = sid2 ∧ i1 = i2).
Proof. intros Hreach. by apply reachable_ids. Qed.

Lemma agent_ids_are_unique_witness :
  (∀ sid i a, holdsAgent stTwoPlatforms sid i a →
              (a_id a < agentIdCounter stTwoPlatforms)%nat) ∧
  agentIdCounter stTwoPlatforms = 2%nat.
Proof.
  split; [|vm_compute; reflexivity].
  apply (agent_ids_are_unique stTwoPlatforms).
  unfold reachable, stTwoPlatforms, stRead, stStarted. reach_by_events.
Defined.

(** ** Pending markers against the tool-call counter *)

Lemma pending_size_le ss :
  pendingRecorded ss →
  (size (pendingToolCalls ss) ≤ length (allToolCalls (agents ss)))%nat.
Proof.
  intros HP. rewrite <- length_map_to_list.
  rewrite <- (length_fmap fst (map_to_list (pendingToolCalls ss))).
  rewrite <- (length_fmap tc_tool (allToolCalls (agents ss))).
  apply submseteq_length, NoDup_submseteq; [apply NoDup_fst_map_to_list|].
  intros tool Hin. apply list_elem_of_fmap in Hin as ([t pid] & -> & Hin).
  apply elem_of_map_to_list in Hin. apply HP in Hin as (tc & Hin & _ & Ht).
  apply list_elem_of_fmap. by exists tc.
Qed.

Lemma activeTools_fold (l : list (string * SessionState)) (n : nat) (c : Stats) :
  Forall (λ e, Z.of_nat (size (pendingToolCalls e.2)) ≤ toolCalls (stats e.2)) l →
  Z.of_nat n ≤ toolCalls c →
  Z.of_nat (foldl (λ n e, (n + size (pendingToolCalls e.2))%nat) n l)
  ≤ toolCalls (foldl (λ acc e, addStats acc (stats e.2)) c l).
Proof.
  intros Hl. revert n c. induction Hl as [|e l He _ IH]; intros n c Hn; [done|].
  cbn [foldl]. apply IH. simpl. lia.
Qed.

(** X18.  In every reachable state the number of pending markers of a
    session is at most its tool-call counter, and the number of active
    tools reported by the public snapshot is at most the total number of
    tool calls it reports. *)
Theorem active_tools_within_tool_calls st :
  reachable st →
  (∀ sid ss, sessions st !! sid = Some ss →
             Z.of_nat (size (pendingToolCalls ss)) ≤ toolCalls (stats ss)) ∧
  Z.of_nat (ps_activeTools (getPublicState st)) ≤ toolCalls (ps_stats (getPublicState st)).
Proof.
  intros Hreach.
  assert (∀ sid ss, sessions st !! sid = Some ss →
                    Z.of_nat (size (pendingToolCalls ss)) ≤ toolCalls (stats ss)) as Hs.
  { intros sid ss Hl.
    destruct (reachable_countersAgree st sid ss Hreach Hl) as [-> _].
    apply inj_le, pending_size_le. by eapply reachable_pendingRecorded. }
  split; [done|]. unfold getPublicState. simpl.
  apply activeTools_fold.
  - apply Forall_forall. intros [k s] Hin. apply elem_of_map_to_list in Hin.
    by eapply Hs.
  - simpl. by destruct (reachable_carry_nonneg st Hreach) as [? _].
Qed.

Lemma active_tools_within_tool_calls_witness :
  ps_activeTools (getPublicState stReadTwice) = 1%nat ∧
  toolCalls (ps_stats (getPublicState stReadTwice)) = 2 ∧
  Z.of_nat (ps_activeTools (getPublicState stReadTwice))
  ≤ toolCalls (ps_stats (getPublicState stReadTwice)).
Proof.
  split; [vm_compute; reflexivity|]. split; [vm_compute; reflexivity|].
  apply (active_tools_within_tool_calls stReadTwice).
  unfold reachable, stReadTwice, stRead, stStarted. reach_by_events.
Defined.

(** ** Names of main agents *)

(** X19.  [pickAgentName] always returns one of the names of
    [AGENT_NAMES] and reserves it, releasing nothing; as long as some name
    of the list is free the name returned was free, and only when all are
    taken is a name reused. *)
Theorem pickAgentName_spec draw used :
  (pickAgentName draw used).1 ∈ AGENT_NAMES ∧
  (pickAgentName draw used).2 = {[ (pickAgentName draw used).1 ]} ∪ used ∧
  (∀ n, n ∈ AGENT_NAMES → n ∉ used → (pickAgentName draw used).1 ∉ used) ∧
  ((pickAgentName draw used).1 ∈ used → ∀ n, n ∈ AGENT_NAMES → n ∈ used).
Proof.
  unfold pickAgentName. cbv zeta. cbn [fst snd].
  set (available := filter (λ n, n ∉ used) AGENT_NAMES).
  set (pool := match available with [] => AGENT_NAMES | _ => available end).
  assert (pool ≠ []) as Hne.
  { unfold pool. by destruct available. }
  assert (∃ name, pool !! (draw mod length pool)%nat = Some name) as [name Hname].
  { apply lookup_lt_is_Some_2, Nat.mod_upper_bound.
    destruct pool; [done|simpl; lia]. }
  rewrite Hname. cbn [default].
  apply list_elem_of_lookup_2 in Hname.
  assert (∀ x, x ∈ available → x ∈ AGENT_NAMES ∧ x ∉ used) as Hav.
  { intros x Hx. apply list_elem_of_filter in Hx. by destruct Hx. }
  assert (∀ n, n ∈ AGENT_NAMES → n ∉ used → name ∉ used) as Hfresh.
  { intros n Hn Hfree. unfold pool in Hname.
    destruct available as [|y l] eqn:E.
    - exfalso. by apply (filter_nil_not_elem_of _ _ n E).
    - by apply Hav. }
  split; [|split; [done|split; [done|]]].
  - unfold pool in Hname. destruct available as [|y l] eqn:E; [done|by apply Hav].
  - intros Hin n Hn. destruct (decide (n ∈ used)) as [|Hfree]; [done|].
    by destruct (Hfresh n Hn Hfree).
Qed.

Lemma pickAgentName_spec_witness :
  (pickAgentName 0 {["Nova"%string]}).1 = "Cipher"%string ∧
  (pickAgentName 0 {["Nova"%string]}).1 ∉ ({["Nova"%string]} : gset string).
Proof.
  split; [vm_compute; reflexivity|].
  apply (proj1 (proj2 (proj2 (pickAgentName_spec 0 {["Nova"%string]}))) "Cipher"%string).
  - apply list_elem_of_further, list_elem_of_here.
  - apply not_elem_of_singleton. discriminate.
Defined.

(** ** Error detection *)

Lemma includes_unfold s pat :
  includes s pat =
  String.prefix pat s || match s with EmptyString => false | String _ r => includes r pat end.
Proof. by destruct s. Qed.

Lemma prefix_append p s : String.prefix p (p +:+ s) = true.
Proof.
  induction p as [|c p IH]; simpl; [by destruct s|].
  by destruct (Ascii.ascii_dec c c).
Qed.

Lemma includes_append pre pat post : includes (pre +:+ pat +:+ post) pat = true.
Proof.
  induction pre as [|c pre IH].
  - change (EmptyString +:+ pat +:+ post) with (pat +:+ post).
    by rewrite includes_unfold, prefix_append.
  - change (String c pre +:+ pat +:+ post) with (String c (pre +:+ pat +:+ post)).
    rewrite includes_unfold, IH. apply orb_true_r.
Qed.

Lemma toLowerCase_append a b :
  toLowerCase (a +:+ b) = toLowerCase a +:+ toLowerCase b.
Proof. induction a as [|c a IH]; simpl; [done|]. by rewrite IH. Qed.

Lemma substring_append a b n :
  (String.length a ≤ n)%nat →
  String.substring 0 n (a +:+ b) = a +:+ String.substring 0 (n - String.length a) b.
Proof.
  revert n. induction a as [|c a IH]; intros n Hn; simpl.
  - by rewrite Nat.sub_0_r.
  - destruct n as [|n]; simpl in *; [lia|]. rewrite IH by lia. done.
Qed.

Lemma append_assoc a b c : (a +:+ b) +:+ c = a +:+ b +:+ c.
Proof.
  induction a as [|x a IH]; [done|].
  change (String x ((a +:+ b) +:+ c) = String x (a +:+ b +:+ c)). by f_equal.
Qed.

Lemma length_append a b :
  String.length (a +:+ b) = (String.length a + String.length b)%nat.
Proof.
  induction a as [|x a IH]; [done|].
  change (S (String.length (a +:+ b)) = S (String.length a + String.length b)).
  by f_equal.
Qed.

(** X20.  [detectError] reports an error for every response carrying a
    structured error flag; without the flag it never reports one for an
    absent response or for a response longer than 2000 characters; and for
    a response of at most 2000 characters it reports one whenever one of
    the five marker texts occurs, in any mix of upper and lower case,
    within the first 500 characters. *)
Theorem detectError_spec :
  detectError None = false ∧
  (∀ r, tr_error_flag r = true → detectError (Some r) = true) ∧
  (∀ r, tr_error_flag r = false → (2000 < String.length (tr_text r))%nat →
        detectError (Some r) = false) ∧
  (∀ r pre m post,
     (String.length (tr_text r) ≤ 2000)%nat →
     tr_text r = pre +:+ m +:+ post →
     (String.length pre + String.length m ≤ 500)%nat →
     toLowerCase m ∈ ERROR_MARKERS →
     detectError (Some r) = true).
Proof.
  split; [done|]. split; [|split].
  - intros r Hf. unfold detectError. by rewrite Hf.
  - intros r Hf Hlen. unfold detectError. rewrite Hf.
    by rewrite (proj2 (Nat.ltb_lt _ _) Hlen).
  - intros r pre m post Hlen Htext Hpos Hm. unfold detectError.
    destruct (tr_error_flag r); [done|].
    rewrite (proj2 (Nat.ltb_ge _ _)) by done.
    cbv zeta. rewrite Htext, <- append_assoc.
    rewrite substring_append by (rewrite length_append; lia).
    rewrite append_assoc, !toLowerCase_append.
    set (lower := toLowerCase pre +:+ toLowerCase m +:+ _).
    assert (includes lower (toLowerCase m) = true) as Hinc by apply includes_append.
    unfold ERROR_MARKERS in Hm. rewrite !elem_of_cons in Hm.
    destruct Hm as [Hm|[Hm|[Hm|[Hm|[Hm|Hm]]]]]; [| | | | |by apply elem_of_nil in Hm];
      rewrite Hm in Hinc; rewrite Hinc; by rewrite ?orb_true_r.
Qed.

Lemma detectError_spec_witness :
  detectError (Some (mkToolResponse false "bash: Exit Code 2" false)) = true.
Proof.
  apply (proj2 (proj2 (proj2 detectError_spec)) (mkToolResponse false "bash: Exit Code 2" false)
           "bash: "%string "Exit Code"%string " 2"%string).
  - vm_compute. lia.
  - reflexivity.
  - vm_compute. lia.
  - apply list_elem_of_further, list_elem_of_here.
Defined.

(** ** What each event adds to the counters *)

Lemma trackLines_net tool inp s :
  let s' := trackLines tool inp s in
  toolCalls s' = toolCalls s ∧ filesAccessed s' = filesAccessed s ∧
  estimatedTokens s' = estimatedTokens s ∧ turns s' = turns s ∧ errors s' = errors s ∧
  linesAdded s ≤ linesAdded s' ∧ linesRemoved s ≤ linesRemoved s' ∧
  (linesAdded s' - linesRemoved s') - (linesAdded s - linesRemoved s) = lineDelta tool inp.
Proof.
  cbv zeta. unfold trackLines, lineDelta. destruct inp as [inp|]; [|simpl; lia].
  pose proof (countLines_nonneg (ti_content inp)).
  repeat case_match; simpl; repeat split; try lia.
Qed.

Lemma recordToolStart_accounting config env event i agent ss :
  summarizeInputThrows (ev_tool_name event) (ev_tool_input event) = false →
  let s := stats ss in
  let s' := stats (recordToolStart config env event i agent ss) in
  toolCalls s' = toolCalls s + 1 ∧
  estimatedTokens s' = estimatedTokens s + estimateTokens (ti_text <$> ev_tool_input event) ∧
  turns s' = turns s ∧ errors s' = errors s ∧
  (filesAccessed s' = filesAccessed s ∨ filesAccessed s' = filesAccessed s + 1) ∧
  linesAdded s ≤ linesAdded s' ∧ linesRemoved s ≤ linesRemoved s' ∧
  (linesAdded s' - linesRemoved s') - (linesAdded s - linesRemoved s)
  = lineDelta (ev_tool_name event) (ev_tool_input event).
Proof.
  intros Hok. cbv zeta. unfold recordToolStart. cbv zeta. rewrite Hok.
  change (stats (addTimelineEvent ?c ?s ?t ?k ?a)) with (stats s).
  unfold trackFileAccess. cbv zeta.
  match goal with |- context [trackLines ?t ?inp ?s0] =>
    pose proof (trackLines_net t inp s0) as Hn; cbv zeta in Hn;
    destruct Hn as (Ht & Hf & He & Htu & Her & Ha & Hr & Hnet);
    set (s1 := trackLines t inp s0) in *
  end.
  simpl in Ht, Hf, He, Htu, Her, Ha, Hr, Hnet.
  destruct (trackedPath _ _) as [p|]; simpl.
  - destruct (files ss !! p); simpl; repeat split; try lia; auto.
  - repeat split; try lia; auto.
Qed.

Lemma processEvent_pre_stats config env event st :
  ev_phase event = Pre →
  ∃ st2 ss4 i agent,
    processEvent config env event st
    = putSession (eventSid event) (recordToolStart config env event i agent ss4) st2 ∧
    stats ss4 = sessionStats st (eventSid event).
Proof.
  intros Hph.
  destruct (processEvent_pre config env event st Hph)
    as (st1 & ss2 & mi & mainAgent & st2 & ss4 & i & agent & Hmain & Hsp & Hfa & ->).
  exists st2, ss4, i, agent. split; [done|].
  pose proof (getOrCreateMainAgent_fields _ _ _ _ _ _ _ Hmain) as Hm.
  destruct Hm as (_ & _ & _ & Hst2 & _).
  pose proof (captureModel_fields (ev_model event) mi mainAgent ss2) as Hc.
  cbv zeta in Hc. destruct Hc as (_ & _ & _ & _ & _ & _ & Hst3 & _).
  destruct (bool_decide (ev_tool_name event = "Task"%string)).
  - destruct Hsp as (st' & ss' & sub & Hsp & -> & ->).
    apply spawn_fields in Hsp.
    destruct Hsp as (_ & _ & _ & _ & _ & _ & _ & _ & _ & _ & _ & _ & _ & Hst' & _).
    simpl. by rewrite Hst', Hst3, Hst2, reactivateIfEnded_stats, getOrCreateSession_stats.
  - destruct Hsp as (-> & ->).
    by rewrite Hst3, Hst2, reactivateIfEnded_stats, getOrCreateSession_stats.
Qed.

Lemma settlePending_accounting event ss :
  stats (settlePending event ss) = stats ss ∨
  (stats (settlePending event ss) = upd_errors (λ n, n + 1) (stats ss) ∧
   detectError (ev_tool_response event) = true).
Proof.
  unfold settlePending. repeat case_match; simpl; auto.
Qed.

Lemma recordToolEnd_accounting config event agent ss :
  settleThrows event ss = false →
  stats (recordToolEnd config event agent ss)
  = upd_estimatedTokens (λ n, n + estimateTokens (tr_text <$> ev_tool_response event))
      (stats (settlePending event ss)).
Proof.
  intros Hok. unfold recordToolEnd. cbv zeta. rewrite Hok.
  change (stats (addTimelineEvent ?c ?s ?t ?k ?a)) with (stats s).
  case_match; [|done]. unfold completeLastSubagent. by case_match.
Qed.

Lemma sessionStats_putSession sid ss st :
  sessionStats (putSession sid ss st) sid = stats ss.
Proof. unfold sessionStats. by rewrite lookup_putSession. Qed.

(** X21.  What one event adds to the counters of its session.  A [pre]
    event that is processed to its end adds one tool call and the token
    estimate of its input, at most one accessed file, and moves the line
    counters by the net line change of a [Write] or [Edit], never
    downwards; turns and errors are untouched.  A [post] event that is
    processed to its end adds the token estimate of the response when the
    session has an agent, and at most one error, and only when the
    response is detected as an error; nothing else moves.  An event on
    which [processEvent] throws ([summarizeInput] for a [pre],
    [summarizeOutput] for a [post]) leaves every counter as it is.  A
    [notification] adds one turn and nothing else.  A [session_end] leaves
    every counter as it is. *)
Theorem event_accounting config env event st :
  let s := sessionStats st (eventSid event) in
  let s' := sessionStats (processEvent config env event st) (eventSid event) in
  (ev_phase event = Pre → processEventThrows event st = false →
     toolCalls s' = toolCalls s + 1 ∧
     estimatedTokens s'
     = estimatedTokens s + estimateTokens (ti_text <$> ev_tool_input event) ∧
     turns s' = turns s ∧ errors s' = errors s ∧
     (filesAccessed s' = filesAccessed s ∨ filesAccessed s' = filesAccessed s + 1) ∧
     linesAdded s ≤ linesAdded s' ∧ linesRemoved s ≤ linesRemoved s' ∧
     (linesAdded s' - linesRemoved s') - (linesAdded s - linesRemoved s)
     = lineDelta (ev_tool_name event) (ev_tool_input event)) ∧
  (ev_phase event = Post → processEventThrows event st = false →
     toolCalls s' = toolCalls s ∧ filesAccessed s' = filesAccessed s ∧
     linesAdded s' = linesAdded s ∧ linesRemoved s' = linesRemoved s ∧
     turns s' = turns s ∧
     estimatedTokens s'
     = estimatedTokens s +
       (if bool_decide (sessionAgents st (eventSid event) = []) then 0
        else estimateTokens (tr_text <$> ev_tool_response event)) ∧
     (errors s' = errors s ∨
      errors s' = errors s + 1 ∧ detectError (ev_tool_response event) = true)) ∧
  (processEventThrows event st = true → s' = s) ∧
  (ev_phase event = Notification → s' = upd_turns (λ n, n + 1) s) ∧
  (ev_phase event = SessionEnd → s' = s).
Proof.
  cbv zeta. split; [|split; [|split; [|split]]].
  - intros Hph Hok. rewrite processEventThrows_pre in Hok by done.
    destruct (processEvent_pre_stats config env event st Hph)
      as (st2 & ss4 & i & agent & -> & <-).
    rewrite sessionStats_putSession. by apply recordToolStart_accounting.
  - intros Hph Hok. rewrite processEventThrows_post in Hok by done.
    rewrite processEvent_post by done. cbv zeta.
    rewrite sessionStats_putSession.
    set (ss1 := reactivateIfEnded _ _) in *.
    assert (stats ss1 = sessionStats st (eventSid event)) as Hs1.
    { unfold ss1. by rewrite reactivateIfEnded_stats, getOrCreateSession_stats. }
    assert (length (agents ss1) = length (sessionAgents st (eventSid event))) as Hlen.
    { unfold ss1.
      pose proof (reactivateIfEnded_fields
                    (getOrCreateSession (eventSid event) (ev_timestamp event)
                       (detectSource event) st) (ev_timestamp event)) as Hr.
      cbv zeta in Hr. destruct Hr as (_ & _ & _ & _ & _ & _ & _ & _ & _ & _ & -> & _).
      pose proof (getOrCreateSession_fields (eventSid event) (ev_timestamp event)
                    (detectSource event) st) as Hg.
      cbv zeta in Hg. destruct Hg as (-> & _). done. }
    rewrite <- Hs1.
    destruct (findActiveAgentAt (agents ss1)) as [[i agent]|] eqn:Hfa.
    + assert (sessionAgents st (eventSid event) ≠ []) as Hne.
      { intros E. rewrite E in Hlen. apply findActiveAgentAt_lookup in Hfa.
        apply lookup_lt_Some in Hfa. rewrite Hlen in Hfa. simpl in Hfa. lia. }
      rewrite (bool_decide_eq_false_2 _ Hne).
      rewrite recordToolEnd_accounting by done.
      destruct (settlePending_accounting event ss1) as [->|[-> Hd]]; simpl;
        repeat split; auto.
    + assert (sessionAgents st (eventSid event) = []) as Hnil.
      { destruct (agents ss1) as [|a l] eqn:E.
        - apply length_zero_iff_nil. by rewrite <- Hlen.
        - destruct (findActiveAgentAt_nonempty (a :: l)) as (i & b & Hfa' & _); [done|].
          by rewrite Hfa' in Hfa. }
      rewrite (bool_decide_eq_true_2 _ Hnil). repeat split; auto; lia.
  - intros Hthrow. destruct (ev_phase event) eqn:Hph;
      try (by unfold processEventThrows in Hthrow; rewrite Hph in Hthrow).
    + assert (ev_phase event = Pre) as Hph' by done.
      rewrite processEventThrows_pre in Hthrow by done.
      destruct (processEvent_pre_stats config env event st Hph')
        as (st2 & ss4 & i & agent & -> & <-).
      by rewrite sessionStats_putSession, recordToolStart_thrown.
    + rewrite processEventThrows_post in Hthrow by done.
      rewrite processEvent_post by done. cbv zeta.
      rewrite sessionStats_putSession.
      set (ss1 := reactivateIfEnded _ _) in *.
      assert (stats ss1 = sessionStats st (eventSid event)) as <-.
      { unfold ss1. by rewrite reactivateIfEnded_stats, getOrCreateSession_stats. }
      destruct (findActiveAgentAt (agents ss1)) as [[i agent]|]; [|done].
      by rewrite recordToolEnd_thrown, settlePending_thrown_stats.
  - intros Hph. unfold processEvent. rewrite Hph, sessionStats_putSession.
    set (ss1 := reactivateIfEnded _ _).
    assert (stats ss1 = sessionStats st (eventSid event)) as <-.
    { unfold ss1. by rewrite reactivateIfEnded_stats, getOrCreateSession_stats. }
    case_match; [|done]. by case_match.
  - intros Hph. unfold processEvent, getSession. rewrite Hph.
    destruct (sessions st !! eventSid event) as [ss|] eqn:E; [|done].
    rewrite sessionStats_putSession. unfold sessionStats. by rewrite E.
Qed.

Lemma event_accounting_witness :
  (sessionStats stReadFile "s1" = mkStats 2 1 7 0 0 0 0 ∧
   toolCalls (sessionStats stReadFile "s1") = toolCalls (sessionStats stRead "s1") + 1) ∧
  sessionStats stValueOf "s1" = sessionStats stRead "s1" ∧
  sessionStats stReadCut "s1" = sessionStats stRead "s1".
Proof.
  split; [split; [vm_compute; reflexivity|]|split].
  - apply (proj1 (event_accounting cfg0 envB
                    (mkEvent Pre (Some 11) (Some "s1"%string) None "Read"%string
                       (Some (fileInput "/src/a.js")) None None) stRead));
      reflexivity.
  - apply (proj1 (proj2 (proj2 (event_accounting cfg0 envB evValueOf stRead)))).
    reflexivity.
  - apply (proj1 (proj2 (proj2 (event_accounting cfg0 envB evReadCut stRead)))).
    vm_compute. reflexivity.
Defined.

(** ** The end of a session *)

(** X22.  A [session_end] event for a known session ends it at the
    event's timestamp and completes, at that timestamp, every agent that
    was active; counters, tool-call records, pending markers and the time
    of last activity are untouched.  The pruner then leaves the session
    alone until its end lies more than two minutes back, and deletes it at
    the first pass after that; a session ended without a timestamp, or at
    timestamp zero, is never removed by the pruner. *)
Theorem session_end_completes_agents config env event st ss :
  ev_phase event = SessionEnd →
  sessions st !! eventSid event = Some ss →
  ∃ ss', sessions (processEvent config env event st) !! eventSid event = Some ss' ∧
    s_status (session ss') = SEnded ∧
    s_endedAt (session ss') = ev_timestamp event ∧
    agents ss' = completeIfActive (ev_timestamp event) <$> agents ss ∧
    Forall (λ a, a_status a = ACompleted) (agents ss') ∧
    stats ss' = stats ss ∧
    allToolCalls (agents ss') = allToolCalls (agents ss) ∧
    pendingToolCalls ss' = pendingToolCalls ss ∧
    lastActivity ss' = lastActivity ss ∧
    (∀ cfg now t, ev_timestamp event = Some t → t ≠ 0 →
       pruneSession cfg now ss' = if bool_decide (t < now - 120000) then None else Some ss') ∧
    (∀ cfg now, ev_timestamp event = None ∨ ev_timestamp event = Some 0 →
       pruneSession cfg now ss' = Some ss').
Proof.
  intros Hph Hl. exists (endSession (ev_timestamp event) ss).
  split.
  { unfold processEvent, getSession. rewrite Hph, Hl. apply lookup_putSession. }
  split; [done|]. split; [done|]. split; [done|]. split.
  { unfold endSession. simpl. apply Forall_fmap, Forall_forall. intros a _. simpl.
    unfold completeIfActive. case_decide; [done|]. by destruct (a_status a). }
  split; [done|]. split.
  { unfold endSession. simpl. apply allToolCalls_fmap_same.
    intros a. unfold completeIfActive. by case_match. }
  split; [done|]. split; [done|].
  unfold pruneSession, retentionDue, ghostDue, staleDue, endSession, js_truthy_lt.
  simpl. split.
  - intros cfg now t -> Ht. assert ((t =? 0) = false) as -> by lia. simpl.
    case_bool_decide; [by rewrite (proj2 (Z.ltb_lt _ _))|].
    by rewrite (proj2 (Z.ltb_ge _ _)) by lia.
  - intros cfg now [->| ->]; done.
Qed.

Lemma session_end_completes_agents_witness :
  ∃ ss', sessions (processEvent cfg0 envB (mkSessionEv SessionEnd (Some 20) "s1") stRead)
           !! "s1"%string = Some ss' ∧
    s_status (session ss') = SEnded ∧ s_endedAt (session ss') = Some 20 ∧
    pruneSession cfg0 125000 ss' = None ∧
    pruneSession cfg0 120020 ss' = Some ss'.
Proof.
  destruct (session_end_completes_agents cfg0 envB
              (mkSessionEv SessionEnd (Some 20) "s1") stRead
              (default (createSessionState "s1" None "x")
                 (sessions stRead !! "s1"%string)))
    as (ss' & Hl & Hs & He & _ & _ & _ & _ & _ & _ & Hp & _).
  - reflexivity.
  - vm_compute. reflexivity.
  - exists ss'. split; [exact Hl|]. split; [exact Hs|]. split; [exact He|].
    split.
    + rewrite (Hp cfg0 125000 20); [reflexivity|reflexivity|discriminate].
    + rewrite (Hp cfg0 120020 20); [reflexivity|reflexivity|discriminate].
Defined.

(** ** Summaries *)

Lemma length_substring_prefix n s :
  String.length (String.substring 0 n s) = (n `min` String.length s)%nat.
Proof.
  revert n. induction s as [|c s IH]; intros [|n]; simpl; try done.
  by rewrite IH.
Qed.

Lemma append_nil_r s : s +:+ EmptyString = s.
Proof.
  induction s as [|c s IH]; [done|].
  change (String c (s +:+ EmptyString) = String c s). by f_equal.
Qed.

Lemma substring_zero s : String.substring 0 0 s = EmptyString.
Proof. by destruct s. Qed.

(** X23.  [truncate] returns nothing for an absent or empty string and
    otherwise a non-empty string of at most [max + 3] characters: the
    string itself when it has at most [max] characters, else its first
    [max] characters followed by three dots.  Truncating the result again
    with the same bound changes nothing. *)
Theorem truncate_spec str max :
  (truncate str max = None ↔ str = None ∨ str = Some EmptyString) ∧
  (∀ s r, str = Some s → truncate str max = Some r →
     (String.length r ≤ max + 3)%nat ∧
     ((String.length s ≤ max)%nat → r = s) ∧
     ((max < String.length s)%nat →
        r = String.substring 0 max s +:+ "..." ∧ String.length r = (max + 3)%nat) ∧
     String.substring 0 max r = String.substring 0 max s ∧
     (r ≠ EmptyString → truncate (Some r) max = Some r)).
Proof.
  unfold truncate. split.
  - unfold truthy_str. destruct str as [s|]; [|by split; [left|]].
    case_decide as He; [subst s; by split; [right|]|].
    split; [done|]. intros [?|[= ->]]; done.
  - intros s r -> Hr. unfold truthy_str in *.
    case_decide as He; [done|]. injection Hr as <-.
    destruct (max <? String.length s)%nat eqn:Hlt.
    + apply Nat.ltb_lt in Hlt.
      assert (String.length (String.substring 0 max s +:+ "...") = (max + 3)%nat) as Hlen.
      { rewrite length_append, length_substring_prefix. simpl. lia. }
      assert (String.substring 0 max (String.substring 0 max s +:+ "...")
              = String.substring 0 max s) as Hpre.
      { rewrite substring_append by (rewrite length_substring_prefix; lia).
        rewrite length_substring_prefix.
        replace (max - max `min` String.length s)%nat with 0%nat by lia.
        by rewrite substring_zero, append_nil_r. }
      split; [lia|]. split; [lia|]. split; [done|]. split; [done|].
      intros Hne. rewrite decide_False by done.
      rewrite (proj2 (Nat.ltb_lt _ _)) by lia. by rewrite Hpre.
    + apply Nat.ltb_ge in Hlt. split; [lia|]. split; [done|]. split; [lia|].
      split; [done|]. intros _. rewrite decide_False by done.
      by rewrite (proj2 (Nat.ltb_ge _ _)).
Qed.

Lemma truncate_spec_witness :
  truncate (Some "npm run build"%string) 7 = Some "npm run..."%string ∧
  truncate (Some "npm run..."%string) 7 = Some "npm run..."%string.
Proof.
  split; [vm_compute; reflexivity|].
  apply (proj2 (truncate_spec (Some "npm run build"%string) 7) "npm run build"%string).
  - reflexivity.
  - vm_compute. reflexivity.
  - discriminate.
Defined.

(** ** The figures of the public snapshot *)

Lemma publicAgent_status ss a : a_status (publicAgent ss a) = a_status a.
Proof. done. Qed.

Lemma publicAgents_elem st a :
  a ∈ publicAgents st ↔
  ∃ sid ss b, sessions st !! sid = Some ss ∧ b ∈ agents ss ∧ a = publicAgent ss b.
Proof.
  unfold publicAgents. rewrite list_elem_of_bind. split.
  - intros ([sid ss] & Hin & Hs). apply list_elem_of_fmap in Hin as (b & -> & Hb).
    apply elem_of_map_to_list in Hs. by exists sid, ss, b.
  - intros (sid & ss & b & Hl & Hb & ->). exists (sid, ss). split.
    + apply list_elem_of_fmap. by exists b.
    + by apply elem_of_map_to_list.
Qed.

Lemma filter_none {A} (P : A → Prop) `{!∀ x, Decision (P x)} (l : list A) :
  (∀ x, x ∈ l → ¬ P x) → filter P l = [].
Proof.
  induction l as [|x l IH]; intros Hall; [done|].
  rewrite filter_cons_False by (apply Hall; apply list_elem_of_here).
  apply IH. intros y Hy. apply Hall. by apply list_elem_of_further.
Qed.

Lemma currentSession_first (l : list SessionInfo) s :
  currentSession l = Some s →
  (∃ l1 l2, l = l1 ++ s :: l2 ∧ s_status s = SActive ∧
            Forall (λ s', s_status s' ≠ SActive) l1) ∨
  (Forall (λ s', s_status s' ≠ SActive) l ∧ last l = Some s).
Proof.
  unfold currentSession.
  destruct (list_find _ l) as [[i s0]|] eqn:Hf.
  - intros [= <-]. apply list_find_Some in Hf as (Hi & Hact & Hbefore).
    left. exists (take i l), (drop (S i) l).
    split; [by rewrite take_drop_middle|]. split; [done|].
    apply Forall_forall. intros y Hy.
    apply list_elem_of_lookup_1 in Hy as [j Hj].
    pose proof (lookup_lt_Some _ _ _ Hj) as Hlt. rewrite length_take in Hlt.
    rewrite lookup_take_lt in Hj by lia. apply (Hbefore j y Hj). lia.
  - intros Hlast. right. split; [|done]. by apply list_find_None in Hf.
Qed.

(** X24.  The figures of the public snapshot.  The session list holds
    the session records of the map; for whichever order they are listed
    in (the source lists them in the insertion order of its [Map]), the
    session shown as current is the first active session of the list when
    there is one, else the last session of the list, and is missing
    exactly when there is no session at all; the session count is the
    length of the list and the count of active sessions the number of its
    active entries.  The counts of active sessions and of active agents
    are at most the counts of sessions and of agents.  In a reachable state
    without an active session no agent is reported active. *)
Theorem snapshot_figures st :
  (∀ l, l ≡ₚ ps_sessions (getPublicState st) →
     (∀ s, s ∈ l ↔ ∃ sid ss, sessions st !! sid = Some ss ∧ s = session ss) ∧
     (currentSession l = None ↔ sessions st = ∅) ∧
     (∀ s, currentSession l = Some s →
        (∃ l1 l2, l = l1 ++ s :: l2 ∧ s_status s = SActive ∧
                  Forall (λ s', s_status s' ≠ SActive) l1) ∨
        (Forall (λ s', s_status s' ≠ SActive) l ∧ last l = Some s)) ∧
     (∀ s, s ∈ l → s_status s = SActive →
        ∃ s', currentSession l = Some s' ∧ s_status s' = SActive) ∧
     ps_sessionCount (getPublicState st) = length l ∧
     activeSessionCount st = length (filter (λ s, s_status s = SActive) l)) ∧
  (activeSessionCount st ≤ ps_sessionCount (getPublicState st))%nat ∧
  (activeAgents st ≤ agentCount st)%nat ∧
  (reachable st → activeSessionCount st = 0%nat → activeAgents st = 0%nat).
Proof.
  assert (ps_sessionCount (getPublicState st) = length (ps_sessions (getPublicState st)))
    as Hcount.
  { unfold getPublicState. simpl. by rewrite length_fmap, length_map_to_list. }
  split; [|split; [|split]].
  - intros l Hperm.
    split; [|split; [|split; [|split; [|split]]]].
    + intros s. rewrite Hperm. apply ps_sessions_elem.
    + unfold currentSession.
      destruct (list_find _ l) as [[i s]|] eqn:Hf.
      * split; [done|]. intros He. apply list_find_Some in Hf as (Hi & _).
        apply list_elem_of_lookup_2 in Hi. rewrite Hperm in Hi.
        apply ps_sessions_elem in Hi as (sid & ss & Hl & _).
        by rewrite He, lookup_empty in Hl.
      * rewrite last_None. split.
        -- intros ->. symmetry in Hperm. apply Permutation_nil_r in Hperm.
           unfold getPublicState in Hperm. simpl in Hperm.
           by apply map_to_list_empty_iff, (fmap_nil_inv (λ e, session e.2)).
        -- intros He. apply Permutation_nil_r. rewrite Hperm.
           unfold getPublicState. simpl. by rewrite He, map_to_list_empty.
    + intros s. apply currentSession_first.
    + intros s Hin Hact. unfold currentSession.
      destruct (list_find_elem_of (λ s, s_status s = SActive) _ s Hin Hact)
        as [[i s'] Hf].
      rewrite Hf. exists s'. split; [done|].
      by apply list_find_Some in Hf as (_ & ? & _).
    + rewrite Hcount. by rewrite Hperm.
    + unfold activeSessionCount. by rewrite Hperm.
  - rewrite Hcount. unfold activeSessionCount. apply length_filter.
  - unfold activeAgents, agentCount. apply length_filter.
  - intros Hreach Hzero. unfold activeAgents. rewrite filter_none; [done|].
    intros a Hin Hact. apply publicAgents_elem in Hin as (sid & ss & b & Hl & Hb & ->).
    rewrite publicAgent_status in Hact.
    assert (s_status (session ss) ≠ SActive) as Hne.
    { intros Hs. unfold activeSessionCount in Hzero.
      apply length_zero_iff_nil in Hzero.
      assert (session ss ∈ filter (λ s, s_status s = SActive)
                           (ps_sessions (getPublicState st))) as Hin.
      { apply list_elem_of_filter. split; [done|].
        apply ps_sessions_elem. by exists sid, ss. }
      rewrite Hzero in Hin. by apply elem_of_nil in Hin. }
    destruct (reachable_statusCoherent st sid ss Hreach Hl) as [Hended _].
    assert (s_status (session ss) = SEnded) as He
      by by destruct (s_status (session ss)).
    specialize (Hended He). rewrite Forall_forall in Hended.
    rewrite (Hended b Hb) in Hact. done.
Qed.

Lemma snapshot_figures_witness :
  let s1 := mkSessionInfo "s1" (Some 5) SEnded (Some 20) "claudecode" None in
  let g1 := mkSessionInfo "g1" (Some 120000) SActive None "claudecode" None in
  activeSessionCount stEnded = 1%nat ∧ ps_sessionCount (getPublicState stEnded) = 2%nat ∧
  currentSession [s1; g1] = Some g1 ∧
  ((∃ l1 l2, [s1; g1] = l1 ++ g1 :: l2 ∧ s_status g1 = SActive ∧
             Forall (λ s', s_status s' ≠ SActive) l1) ∨
   (Forall (λ s', s_status s' ≠ SActive) [s1; g1] ∧ last [s1; g1] = Some g1)).
Proof.
  intros s1 g1.
  split; [vm_compute; reflexivity|]. split; [vm_compute; reflexivity|].
  split; [reflexivity|].
  assert ([s1; g1] ≡ₚ ps_sessions (getPublicState stEnded)) as Hperm.
  { vm_compute. first [reflexivity|apply perm_swap]. }
  destruct (proj1 (snapshot_figures stEnded) [s1; g1] Hperm) as (_ & _ & Hcur & _).
  apply Hcur. reflexivity.
Defined.

(** ** The earliest start time *)

Lemma earlier_fold (l : list (string * SessionState)) (acc : option Z) :
  (∀ m, acc = Some m → m ≠ 0) →
  let r := foldl earlier acc l in
  (∀ m, r = Some m → m ≠ 0) ∧
  (r = None ↔
   acc = None ∧ ∀ e t, e ∈ l → stats_startedAt e.2 = Some t → t = 0) ∧
  (∀ m, r = Some m →
     (acc = Some m ∨ ∃ e, e ∈ l ∧ stats_startedAt e.2 = Some m) ∧
     (∀ a, acc = Some a → m ≤ a) ∧
     (∀ e t, e ∈ l → stats_startedAt e.2 = Some t → t ≠ 0 → m ≤ t)).
Proof.
  revert acc. induction l as [|e l IH]; intros acc Hacc; cbv zeta.
  - simpl. split; [done|]. split.
    + split; [intros ->; split; [done|]|by intros [-> _]].
      intros e t Hin. by apply elem_of_nil in Hin.
    + intros m ->. split; [by left|]. split; [by intros a [= ->]|].
      intros e t Hin. by apply elem_of_nil in Hin.
  - cbn [foldl].
    assert (∀ m, earlier acc e = Some m → m ≠ 0) as Hacc'.
    { intros m. unfold earlier. destruct (stats_startedAt e.2) as [t|]; [|apply Hacc].
      destruct (negb (t =? 0)) eqn:Ht; simpl; [|apply Hacc].
      case_match; [|apply Hacc]. intros [= <-]. apply negb_true_iff in Ht. lia. }
    destruct (IH (earlier acc e) Hacc') as (H1 & H2 & H3). cbv zeta in *.
    split; [done|]. split.
    + rewrite H2. unfold earlier. split.
      * intros [He Hl]. destruct (stats_startedAt e.2) as [t|] eqn:Et.
        -- destruct (negb (t =? 0)) eqn:Ht; simpl in He.
           ++ destruct acc as [a|]; [|done].
              destruct ((a =? 0) || (t <? a)); done.
           ++ split; [done|]. intros e' t' Hin Hs.
              apply elem_of_cons in Hin as [->|Hin]; [|by eapply Hl].
              rewrite Et in Hs. injection Hs as <-.
              apply negb_false_iff in Ht. lia.
        -- split; [done|]. intros e' t' Hin Hs.
           apply elem_of_cons in Hin as [->|Hin]; [congruence|by eapply Hl].
      * intros [-> Hl]. split.
        -- destruct (stats_startedAt e.2) as [t|] eqn:Et; [|done].
           rewrite (Hl e t); [done|apply list_elem_of_here|done].
        -- intros e' t' Hin. apply Hl. by apply list_elem_of_further.
    + intros m Hr. destruct (H3 m Hr) as (Hfrom & Hle & Hall).
      assert (∀ a, acc = Some a → a ≠ 0 → ∀ x, earlier acc e = Some x → x ≤ a) as Hmono.
      { intros a -> Ha x. unfold earlier.
        destruct (stats_startedAt e.2) as [t|]; [|by intros [= ->]].
        destruct (negb (t =? 0)); simpl; [|by intros [= ->]].
        assert ((a =? 0) = false) as -> by lia. simpl.
        destruct (t <? a) eqn:Hlt; intros [= <-]; lia. }
      split; [|split].
      * destruct Hfrom as [Hfrom|(e' & Hin & Hs)].
        -- unfold earlier in Hfrom. destruct (stats_startedAt e.2) as [t|] eqn:Et;
             [|by left].
           destruct (negb (t =? 0) && _); [|by left].
           injection Hfrom as ->. right. exists e. split; [apply list_elem_of_here|done].
        -- right. exists e'. split; [by apply list_elem_of_further|done].
      * intros a Ha.
        destruct (earlier acc e) as [x|] eqn:Ex.
        -- specialize (Hle x eq_refl). specialize (Hmono a Ha (Hacc a Ha) x eq_refl). lia.
        -- exfalso. subst acc. unfold earlier in Ex.
           destruct (stats_startedAt e.2) as [t|]; [|done].
           by destruct (negb (t =? 0) && _).
      * intros e' t Hin Hs Ht. apply elem_of_cons in Hin as [->|Hin]; [|by eapply Hall].
        destruct (earlier acc e) as [x|] eqn:Ex.
        -- specialize (Hle x eq_refl). unfold earlier in Ex. rewrite Hs in Ex.
           assert (negb (t =? 0) = true) as Hnz by (apply negb_true_iff; lia).
           rewrite Hnz in Ex. simpl in Ex.
           destruct acc as [a|].
           ++ pose proof (Hacc a eq_refl) as Ha.
              assert ((a =? 0) = false) as Ha0 by lia. rewrite Ha0 in Ex. simpl in Ex.
              destruct (t <? a) eqn:Hlt; injection Ex as <-; lia.
           ++ injection Ex as <-. lia.
        -- exfalso. unfold earlier in Ex. rewrite Hs in Ex.
           assert (negb (t =? 0) = true) as Hnz by (apply negb_true_iff; lia).
           rewrite Hnz in Ex. simpl in Ex.
           destruct acc as [a|]; [|done].
           by destruct ((a =? 0) || (t <? a)).
Qed.

Lemma reachable_startsAgree st sid ss :
  reachable st → sessions st !! sid = Some ss → startsAgree ss.
Proof.
  intros Hreach. revert sid ss.
  apply (reachable_session_invariant startsAgree); unfold startsAgree; try done.
  - intros ss ts H.
    pose proof (reactivateIfEnded_fields ss ts) as Hf. cbv zeta in Hf.
    destruct Hf as (_ & _ & -> & _ & _ & _ & _ & -> & _). done.
  - intros env st0 ss st' ss' [mi main] H _ Hmain.
    apply getOrCreateMainAgent_fields in Hmain.
    destruct Hmain as (-> & _ & _ & _ & -> & _). done.
  - intros model mi main ss H _ _.
    pose proof (captureModel_fields model mi main ss) as Hc. cbv zeta in Hc.
    destruct Hc as (_ & _ & _ & -> & _ & _ & _ & -> & _). done.
  - intros st0 ss inp st' ss' sub mi main H _ _ Hsp.
    apply spawn_fields in Hsp.
    destruct Hsp as (_ & _ & _ & _ & _ & _ & _ & _ & _ & _ & -> & _ & _ & _ & -> & _).
    done.
  - intros config env event i agent ss Hok H _ _.
    pose proof (recordToolStart_fields config env event i agent ss Hok) as Hf.
    cbv zeta in Hf. destruct Hf as (-> & _ & _ & -> & _). done.
  - intros config event agent ss H _.
    pose proof (recordToolEnd_fields config event agent ss) as Hf.
    cbv zeta in Hf. destruct Hf as (-> & _ & _ & -> & _). done.
Qed.

(** X25.  The earliest start time of the public snapshot does not depend
    on the order in which the sessions are visited: it is missing exactly
    when no live session has a non-zero start time, and otherwise it is the
    least non-zero start time of the live sessions.  In a reachable state
    the start time used is the session's own [startedAt]. *)
Theorem earliestStart_is_least_start st :
  (earliestStart st = None ↔
   ∀ sid ss t, sessions st !! sid = Some ss → stats_startedAt ss = Some t → t = 0) ∧
  (∀ m, earliestStart st = Some m →
     m ≠ 0 ∧
     (∃ sid ss, sessions st !! sid = Some ss ∧ stats_startedAt ss = Some m) ∧
     (∀ sid ss t, sessions st !! sid = Some ss → stats_startedAt ss = Some t →
                  t ≠ 0 → m ≤ t)) ∧
  (reachable st →
   ∀ sid ss, sessions st !! sid = Some ss → stats_startedAt ss = s_startedAt (session ss)).
Proof.
  destruct (earlier_fold (map_to_list (sessions st)) None) as (H1 & H2 & H3); [done|].
  cbv zeta in *. fold (earliestStart st) in H1, H2, H3.
  split; [|split].
  - rewrite H2. split.
    + intros [_ Hl] sid ss t Hs Ht. apply (Hl (sid, ss) t); [|done].
      by apply elem_of_map_to_list.
    + intros Hl. split; [done|]. intros [sid ss] t Hin Ht.
      apply elem_of_map_to_list in Hin. by eapply Hl.
  - intros m Hm. destruct (H3 m Hm) as (Hfrom & _ & Hall).
    split; [by apply H1|]. split.
    + destruct Hfrom as [?|([sid ss] & Hin & Hs)]; [done|].
      apply elem_of_map_to_list in Hin. by exists sid, ss.
    + intros sid ss t Hs Ht Hnz. apply (Hall (sid, ss) t); [|done|done].
      by apply elem_of_map_to_list.
  - intros Hreach sid ss Hs. by apply (reachable_startsAgree st sid ss).
Qed.

Lemma earliestStart_is_least_start_witness :
  earliestStart stEnded = Some 5 ∧
  ∀ sid ss t, sessions stEnded !! sid = Some ss → stats_startedAt ss = Some t →
              t ≠ 0 → 5 ≤ t.
Proof.
  split; [vm_compute; reflexivity|].
  apply (proj1 (proj2 (earliestStart_is_least_start stEnded)) 5).
  vm_compute. reflexivity.
Defined.

(** ** Producers and the worker *)

Lemma getSessionId_nonempty fresh sessionId : getSessionId fresh sessionId ≠ EmptyString.
Proof.
  unfold getSessionId, truthy_str. destruct sessionId as [s|]; [|done].
  by case_decide.
Qed.

Lemma adapter_tag phase now fresh sessionId tool input response :
  detectSource (adapterEvent phase now fresh sessionId tool input response)
  = if String.prefix "oc-" (getSessionId fresh sessionId)
    then "opencode"%string else "claudecode"%string.
Proof.
  unfold detectSource, adapterEvent. cbn [ev_source ev_session_id truthy_str].
  rewrite decide_False by apply getSessionId_nonempty. done.
Qed.

(** X26.  Every event built by a producer carries the clock reading as
    its timestamp.  The worker tags the events of the Claude Code hooks
    ["claudecode"] and those of the [monikhao.js] plugin ["opencode"].  The
    events of the [opencode.js] plugin carry no source: the worker tags
    them ["opencode"] exactly when the session identifier in use starts
    with ["oc-"], which holds for the identifiers the plugin makes up
    itself.  A [pre] event carrying a timestamp leaves its session active
    with that time as last activity, and a session it creates starts at
    that time and carries the event's tag. *)
Theorem producer_events_are_stamped now :
  (∀ phase model d,
     let e := eventHookPayload phase now model d in
     ev_phase e = phase ∧ ev_timestamp e = Some now ∧
     detectSource e = "claudecode"%string) ∧
  (∀ sid,
     let e := stopHookPayload now sid in
     ev_phase e = SessionEnd ∧ ev_timestamp e = Some now ∧
     detectSource e = "claudecode"%string) ∧
  (∀ sid message e,
     notificationHookPayload now sid message = Some e →
     ev_phase e = Notification ∧ ev_timestamp e = Some now ∧
     detectSource e = "claudecode"%string) ∧
  (∀ phase fresh sid model tool input response,
     let e := bootstrapEvent phase now fresh sid model tool input response in
     ev_timestamp e = Some now ∧ detectSource e = "opencode"%string) ∧
  (∀ phase fresh sid tool input response,
     let e := adapterEvent phase now fresh sid tool input response in
     ev_timestamp e = Some now ∧
     eventSid e = getSessionId fresh sid ∧
     detectSource e = (if String.prefix "oc-" (getSessionId fresh sid)
                       then "opencode"%string else "claudecode"%string) ∧
     (truthy_str sid = None → detectSource e = "opencode"%string)) ∧
  (∀ config env e st,
     ev_phase e = Pre → ev_timestamp e = Some now →
     ∃ ss', sessions (processEvent config env e st) !! eventSid e = Some ss' ∧
       s_status (session ss') = SActive ∧ lastActivity ss' = Some now ∧
       (sessions st !! eventSid e = None →
        s_source (session ss') = detectSource e)).
Proof.
  split; [done|]. split; [done|]. split; [|split; [done|split]].
  - intros sid message e. unfold notificationHookPayload.
    destruct (truthy_str message); [|done]. by intros [= <-].
  - intros phase fresh sid tool input response. cbv zeta.
    split; [done|]. split.
    { unfold eventSid, adapterEvent. cbn [ev_session_id truthy_str].
      by rewrite decide_False by apply getSessionId_nonempty. }
    split; [apply adapter_tag|].
    intros Hnone. rewrite adapter_tag. unfold getSessionId. rewrite Hnone.
    by rewrite prefix_append.
  - intros config env e st Hph Hts.
    destruct (pre_session config env e st Hph) as (ss' & Hl & Hact & Hla).
    destruct (processEvent_source config env e st) as (ss2 & Hl2 & Hsrc).
    { rewrite Hph. apply list_elem_of_here. }
    rewrite Hl in Hl2. injection Hl2 as <-.
    exists ss'. split; [done|]. split; [done|]. split; [by rewrite Hla|].
    intros Hnone.
    rewrite Hsrc, getOrCreateSession_source by apply detectSource_nonempty.
    by rewrite Hnone.
Qed.

Lemma producer_events_are_stamped_witness :
  detectSource (adapterEvent Pre 50 "50-ab12cd" None (Some "bash"%string) None None)
  = "opencode"%string ∧
  detectSource (adapterEvent Pre 50 "50-ab12cd" (Some "ses_71f"%string)
                  (Some "bash"%string) None None)
  = "claudecode"%string ∧
  ∃ ss', sessions (processEvent cfg0 envA
                     (eventHookPayload Pre 50 None
                        (mkHookData (Some "s9"%string) (Some "Bash"%string) None None))
                     initialState) !! "s9"%string = Some ss' ∧
         lastActivity ss' = Some 50 ∧ s_source (session ss') = "claudecode"%string.
Proof.
  destruct (producer_events_are_stamped 50) as (_ & _ & _ & _ & Hadapter & Hpre).
  split; [|split].
  - apply (Hadapter Pre "50-ab12cd"%string None). reflexivity.
  - destruct (Hadapter Pre "50-ab12cd"%string (Some "ses_71f"%string)
                (Some "bash"%string) None None) as (_ & _ & -> & _).
    reflexivity.
  - destruct (Hpre cfg0 envA
                (eventHookPayload Pre 50 None
                   (mkHookData (Some "s9"%string) (Some "Bash"%string) None None))
                initialState) as (ss' & Hl & _ & Hla & Hs); [reflexivity|reflexivity|].
    exists ss'. split; [exact Hl|]. split; [exact Hla|].
    rewrite Hs; reflexivity.
Defined.

(** ** Activity and the pruner *)

Lemma processEvent_activity config env event st :
  ev_phase event ∈ [Pre; Post; Notification] →
  ∃ ss', sessions (processEvent config env event st) !! eventSid event = Some ss' ∧
         s_status (session ss') = SActive ∧ lastActivity ss' = ev_timestamp event.
Proof.
  intros Hph. rewrite !elem_of_cons in Hph.
  set (ss0 := getOrCreateSession (eventSid event) (ev_timestamp event)
                (detectSource event) st).
  pose proof (reactivateIfEnded_fields ss0 (ev_timestamp event)) as Hr.
  cbv zeta in Hr. destruct Hr as (_ & _ & _ & Hact & _ & _ & _ & _ & _ & Hla & _).
  destruct Hph as [Hph|[Hph|[Hph|Hph]]]; [| | |by apply elem_of_nil in Hph].
  - destruct (pre_session config env event st Hph) as (ss' & Hl & Hs & Ha).
    by exists ss'.
  - rewrite processEvent_post by done. cbv zeta. fold ss0.
    eexists. split; [apply lookup_putSession|].
    case_match; [|done]. case_match.
    pose proof (recordToolEnd_fields config event a (reactivateIfEnded ss0 (ev_timestamp event)))
      as Hs.
    cbv zeta in Hs. destruct Hs as (-> & -> & _). done.
  - unfold processEvent. rewrite Hph. fold ss0.
    eexists. split; [apply lookup_putSession|].
    case_match; [|done]. by case_match.
Qed.

(** X27.  After a [pre], [post] or [notification] event the session of
    the event is active and its last activity is the event's timestamp,
    whatever its state was before.  A pass of the pruner leaves such a
    session exactly as it is as long as no more than the stale timeout has
    gone by since the event and, if the session has no tool call yet, no
    more than fifteen seconds. *)
Theorem activity_keeps_session_alive config env event st t :
  ev_phase event ∈ [Pre; Post; Notification] →
  ev_timestamp event = Some t →
  ∃ ss', sessions (processEvent config env event st) !! eventSid event = Some ss' ∧
    s_status (session ss') = SActive ∧ lastActivity ss' = Some t ∧
    ∀ cfg now, now - t ≤ STALE_TIMEOUT cfg →
               (now - t ≤ 15000 ∨ toolCalls (stats ss') ≠ 0) →
               pruneSession cfg now ss' = Some ss'.
Proof.
  intros Hph Hts.
  destruct (processEvent_activity config env event st Hph) as (ss' & Hl & Hact & Hla).
  rewrite Hts in Hla. exists ss'. split; [done|]. split; [done|]. split; [done|].
  intros cfg now Hstale Hghost.
  unfold pruneSession, retentionDue, ghostDue, staleDue, js_idle_gt.
  rewrite Hact, Hla. simpl.
  assert ((STALE_TIMEOUT cfg <? now - t) = false) as -> by lia.
  destruct Hghost as [Hg|Hg].
  - assert ((15000 <? now - t) = false) as -> by lia. by rewrite andb_false_r.
  - assert ((toolCalls (stats ss') =? 0) = false) as -> by lia. done.
Qed.

Lemma activity_keeps_session_alive_witness :
  ∃ ss', sessions stReadDone !! "s1"%string = Some ss' ∧
         lastActivity ss' = Some 12 ∧
         pruneSession cfg0 300000 ss' = Some ss'.
Proof.
  destruct (activity_keeps_session_alive cfg0 envB (mkEv Post (Some 12) "s1" "Read")
              stRead 12) as (ss' & Hl & _ & Hla & Hp).
  - apply list_elem_of_further, list_elem_of_here.
  - reflexivity.
  - exists ss'. split; [exact Hl|]. split; [exact Hla|].
    apply Hp; [vm_compute; discriminate|].
    right. vm_compute in Hl. injection Hl as <-. vm_compute. discriminate.
Defined.

(** ** The start of a session *)

Lemma getOrCreateSession_fresh sid ts src st :
  sessions st !! sid = None → src ≠ EmptyString →
  getOrCreateSession sid ts src st
  = mkSessionState (mkSessionInfo sid ts SActive None src None) [] [] ∅ zeroStats ts ∅ ts.
Proof.
  intros Hnone Hne. unfold getOrCreateSession. rewrite Hnone.
  unfold createSessionState, truthy_str. rewrite decide_False by done. simpl.
  case_match; [|done]. unfold with_session, set_source. simpl. done.
Qed.

(** X28.  A [session_start] event always leaves a fresh session under
    its identifier, whether or not one existed: active, started at the
    event's timestamp, tagged with the event's source, with zero counters,
    no file, no pending marker, an empty timeline and a single agent, an
    active main agent that takes the next agent identifier and the name
    drawn by [pickAgentName].  No reserved name is released, and the totals
    of the public snapshot are exactly what they were. *)
Theorem session_start_gives_fresh_session config env event st :
  ev_phase event = SessionStart →
  let st' := processEvent config env event st in
  ∃ ss' main,
    sessions st' !! eventSid event = Some ss' ∧
    session ss' = mkSessionInfo (eventSid event) (ev_timestamp event) SActive None
                    (detectSource event) None ∧
    lastActivity ss' = ev_timestamp event ∧
    stats ss' = zeroStats ∧ files ss' = ∅ ∧ pendingToolCalls ss' = ∅ ∧
    timeline ss' = [] ∧
    agents ss' = [main] ∧
    a_type main = Main ∧ a_status main = AActive ∧ a_toolCalls main = [] ∧
    a_parentId main = None ∧
    a_id main = agentIdCounter st ∧ agentIdCounter st' = S (agentIdCounter st) ∧
    a_name main = (pickAgentName (env_name_draw env) (usedNames st)).1 ∧
    usedNames st' = {[a_name main]} ∪ usedNames st ∧
    totals st' = totals st.
Proof.
  intros Hph. cbv zeta.
  assert (totals (processEvent config env event st) = totals st) as Htot.
  { destruct (processEvent_shape config env event st)
      as [->|(ss' & st2 & -> & [(Hne & _)|(_ & Hs & Hc & Hz)])]; [done|done|].
    rewrite totals_putSession, (totals_split st (eventSid event)), Hs, Hc, Hz.
    rewrite delete_delete_eq. by rewrite addStats_zero_l, <- addStats_assoc. }
  revert Htot. unfold processEvent. rewrite Hph.
  set (st0 := match sessions st !! eventSid event with
              | Some old => _ | None => st end).
  assert (sessions st0 !! eventSid event = None ∧
          agentIdCounter st0 = agentIdCounter st ∧ usedNames st0 = usedNames st)
    as (Hnone & Hctr & Hused).
  { unfold st0. destruct (sessions st !! eventSid event) eqn:E; simpl; [|done].
    by rewrite lookup_delete_eq. }
  rewrite (getOrCreateSession_fresh _ _ _ _ Hnone (detectSource_nonempty event)).
  unfold getOrCreateMainAgent. cbn [agents session s_id s_source].
  change (findMain []) with (@None (nat * Agent)). cbv iota.
  rewrite Hused, Hctr.
  destruct (pickAgentName (env_name_draw env) (usedNames st)) as [name used] eqn:Hpick.
  intros Htot. eexists _, _. split; [apply lookup_putSession|].
  cbn [session lastActivity stats files pendingToolCalls timeline agents with_agents
       a_type a_status a_toolCalls a_parentId a_id a_name app length
       putSession with_sessions agentIdCounter usedNames fst].
  repeat (split; [reflexivity|]).
  split; [|exact Htot].
  unfold pickAgentName in Hpick. by injection Hpick as <- <-.
Qed.

Lemma session_start_gives_fresh_session_witness :
  ∃ ss' main, sessions stRestarted !! "s1"%string = Some ss' ∧
    agents ss' = [main] ∧ a_id main = 1%nat ∧ a_name main = "Cipher"%string ∧
    stats ss' = zeroStats ∧ totals stRestarted = totals stRead.
Proof.
  destruct (session_start_gives_fresh_session cfg0 envB
              (mkSessionEv SessionStart (Some 20) "s1") stRead)
    as (ss' & main & Hl & _ & _ & Hst & _ & _ & _ & Hag & _ & _ & _ & _ & Hid & _ &
        Hname & _ & Htot); [reflexivity|].
  exists ss', main. split; [exact Hl|]. split; [exact Hag|].
  split; [rewrite Hid; vm_compute; reflexivity|].
  split; [rewrite Hname; vm_compute; reflexivity|].
  split; [exact Hst|exact Htot].
Defined.

(** ** The file map *)

Lemma trackedPath_Some tool inp p :
  trackedPath tool inp = Some p → p ≠ EmptyString ∧ tool ∈ FILE_TOOLS.
Proof.
  unfold trackedPath, FILE_TOOLS.
  assert (∀ o, truthy_str o = Some p → p ≠ EmptyString) as Ht.
  { intros o. unfold truthy_str. destruct o as [s|]; [|done].
    case_decide; [done|]. by intros [= <-]. }
  case_bool_decide as H1.
  - intros Hp. split.
    + unfold or_str in Hp. destruct (truthy_str (inp ≫= ti_file_path)) eqn:E.
      * injection Hp as <-. by eapply Ht.
      * by eapply Ht.
    + rewrite !elem_of_cons in H1.
      destruct H1 as [->|[->|[->|H1]]]; [| | |by apply elem_of_nil in H1];
        repeat first [apply list_elem_of_here | apply list_elem_of_further].
  - case_bool_decide as H2.
    + intros Hp. split; [by eapply Ht|]. subst tool.
      repeat first [apply list_elem_of_here | apply list_elem_of_further].
    + case_bool_decide as H3; [|done].
      intros Hp. split; [by eapply Ht|]. subst tool.
      repeat first [apply list_elem_of_here | apply list_elem_of_further].
Qed.

(** The entry of the tracked path after [trackFileAccess], and the rest of
    the map. *)
Lemma trackFileAccess_files ss tool inp ts :
  let ss' := trackFileAccess ss tool inp ts in
  match trackedPath tool inp with
  | None => files ss' = files ss
  | Some p =>
      files ss' !! p
      = Some (match files ss !! p with
              | Some old => mkFileInfo (f_accessCount old + 1) ts (f_tool old)
              | None => mkFileInfo 1 ts tool
              end) ∧
      ∀ q, q ≠ p → files ss' !! q = files ss !! q
  end.
Proof.
  cbv zeta. unfold trackFileAccess. cbv zeta.
  destruct (trackedPath tool inp) as [p|]; [|done]. simpl.
  destruct (files ss !! p) as [old|] eqn:E; simpl.
  - split; [by rewrite lookup_insert_eq|]. intros q Hq. by rewrite lookup_insert_ne.
  - split; [by rewrite lookup_insert_eq|]. intros q Hq. by rewrite lookup_insert_ne.
Qed.

Lemma trackFileAccess_coherent ss tool inp ts :
  filesCoherent ss → filesCoherent (trackFileAccess ss tool inp ts).
Proof.
  intros Hc. pose proof (trackFileAccess_files ss tool inp ts) as Hf. cbv zeta in Hf.
  unfold filesCoherent in *.
  destruct (trackedPath tool inp) as [p|] eqn:Ep; [|by rewrite Hf].
  destruct Hf as [Hp Hq]. destruct (trackedPath_Some _ _ _ Ep) as [Hne Htool].
  intros q fi Hl. destruct (decide (q = p)) as [->|Hqp].
  - rewrite Hp in Hl. injection Hl as <-.
    destruct (files ss !! p) as [old|] eqn:E; simpl.
    + destruct (Hc p old E) as (_ & Hcount & Ht). split; [done|]. split; [lia|done].
    + split; [done|]. split; [lia|done].
  - rewrite Hq in Hl by done. by eapply Hc.
Qed.

Lemma reachable_filesCoherent st sid ss :
  reachable st → sessions st !! sid = Some ss → filesCoherent ss.
Proof.
  intros Hreach. revert sid ss.
  apply (reachable_session_invariant filesCoherent); unfold filesCoherent; try done.
  - intros ss ts H.
    pose proof (reactivateIfEnded_fields ss ts) as Hf. cbv zeta in Hf.
    destruct Hf as (_ & _ & _ & _ & _ & -> & _). done.
  - intros env st0 ss st' ss' [mi main] H _ Hmain.
    apply getOrCreateMainAgent_fields in Hmain.
    destruct Hmain as (_ & _ & -> & _). done.
  - intros model mi main ss H _ _.
    pose proof (captureModel_fields model mi main ss) as Hc. cbv zeta in Hc.
    destruct Hc as (_ & _ & _ & _ & _ & -> & _). done.
  - intros st0 ss inp st' ss' sub mi main H _ _ Hsp.
    apply spawn_fields in Hsp.
    destruct Hsp as (_ & _ & _ & _ & _ & _ & _ & _ & _ & _ & _ & _ & -> & _). done.
  - intros config env event i agent ss Hok H _ _.
    unfold recordToolStart. cbv zeta. rewrite Hok.
    change (files (addTimelineEvent ?c ?s ?t ?k ?a)) with (files s).
    by apply trackFileAccess_coherent.
  - intros config event agent ss H _.
    pose proof (recordToolEnd_fields config event agent ss) as Hf.
    cbv zeta in Hf. destruct Hf as (_ & _ & -> & _). done.
Qed.

(** X29.  [trackFileAccess] files a call of a file tool under its path:
    a path seen for the first time gets an entry with access count one and
    the tool of the call, a path seen before has its count raised by one
    and keeps the tool of its first access, both stamped with the time of
    the call; no other entry changes, and a call without a tracked path
    changes no entry.  In every reachable state every entry has a non-empty
    path, an access count of at least one and one of the five file tools as
    its tool. *)
Theorem file_entries_count_accesses ss tool inp ts :
  let ss' := trackFileAccess ss tool inp ts in
  (trackedPath tool inp = None → files ss' = files ss) ∧
  (∀ p, trackedPath tool inp = Some p →
     p ≠ EmptyString ∧ tool ∈ FILE_TOOLS ∧
     (∀ old, files ss !! p = Some old →
        files ss' !! p = Some (mkFileInfo (f_accessCount old + 1) ts (f_tool old))) ∧
     (files ss !! p = None → files ss' !! p = Some (mkFileInfo 1 ts tool)) ∧
     (∀ q, q ≠ p → files ss' !! q = files ss !! q)) ∧
  (∀ st sid, reachable st → sessions st !! sid = Some ss →
     ∀ p fi, files ss !! p = Some fi →
       p ≠ EmptyString ∧ 1 ≤ f_accessCount fi ∧ f_tool fi ∈ FILE_TOOLS).
Proof.
  cbv zeta. pose proof (trackFileAccess_files ss tool inp ts) as Hf. cbv zeta in Hf.
  split; [|split].
  - intros Hn. by rewrite Hn in Hf.
  - intros p Hp. rewrite Hp in Hf. destruct Hf as [Hl Hq].
    destruct (trackedPath_Some _ _ _ Hp) as [Hne Ht].
    split; [done|]. split; [done|]. split; [|split; [|done]].
    + intros old Ho. by rewrite Hl, Ho.
    + intros Ho. by rewrite Hl, Ho.
  - intros st sid Hreach Hl p fi Hp.
    by apply (reachable_filesCoherent st sid ss Hreach Hl p fi).
Qed.

Lemma file_entries_count_accesses_witness :
  ∃ ss, sessions stReadFile !! "s1"%string = Some ss ∧
    files ss !! "/src/a.js"%string = Some (mkFileInfo 1 (Some 11) "Read") ∧
    files (trackFileAccess ss "Edit" (Some (fileInput "/src/a.js")) (Some 15))
      !! "/src/a.js"%string = Some (mkFileInfo 2 (Some 15) "Read").
Proof.
  eexists. split; [vm_compute; reflexivity|]. split; [vm_compute; reflexivity|].
  apply (proj1 (proj2 (proj2 (proj1 (proj2 (file_entries_count_accesses _ "Edit"
           (Some (fileInput "/src/a.js")) (Some 15))) "/src/a.js"%string eq_refl)))
           (mkFileInfo 1 (Some 11) "Read")).
  vm_compute. reflexivity.
Defined.

(** ** What a pass of the pruner decides *)

(** X30.  A pass of the pruner decides the fate of each session from
    that session alone, whatever the order of the visit and whatever the
    other sessions are: a session past its retention window or a ghost is
    deleted (the ghost test wins over the stale test), a stale session is
    ended in place, any other session is untouched.  The pass creates no
    session, leaves the agent counter alone, reserves no name, and a
    session that survives keeps its identifier, its counters, its
    tool-call records and its pending markers. *)
Theorem pruner_decides_per_session config now st :
  let st' := pruneStaleAndEndedSessions config now st in
  (∀ sid,
     sessions st' !! sid =
     match sessions st !! sid with
     | None => None
     | Some s =>
         if retentionDue now s then None
         else if ghostDue now s then None
         else if staleDue config now s then Some (endSession (Some now) s)
         else Some s
     end) ∧
  agentIdCounter st' = agentIdCounter st ∧
  usedNames st' ⊆ usedNames st ∧
  (∀ sid s', sessions st' !! sid = Some s' →
     ∃ s, sessions st !! sid = Some s ∧
          s_id (session s') = s_id (session s) ∧ stats s' = stats s ∧
          allToolCalls (agents s') = allToolCalls (agents s) ∧
          pendingToolCalls s' = pendingToolCalls s ∧
          length (agents s') = length (agents s)).
Proof.
  cbv zeta.
  assert (∀ sid,
     sessions (pruneStaleAndEndedSessions config now st) !! sid =
     match sessions st !! sid with
     | None => None
     | Some s =>
         if retentionDue now s then None
         else if ghostDue now s then None
         else if staleDue config now s then Some (endSession (Some now) s)
         else Some s
     end) as Hl.
  { intros sid. rewrite prune_lookup. destruct (sessions st !! sid) as [s|]; [|done].
    simpl. unfold pruneSession. by destruct (retentionDue now s), (ghostDue now s). }
  split; [done|]. split; [apply prune_fold_counter|]. split.
  - intros x Hx. unfold pruneStaleAndEndedSessions in Hx.
    by apply prune_fold_usedNames in Hx as [? _].
  - intros sid s' Hs. rewrite Hl in Hs.
    destruct (sessions st !! sid) as [s|]; [|done]. exists s. split; [done|].
    destruct (retentionDue now s); [done|]. destruct (ghostDue now s); [done|].
    destruct (staleDue config now s); injection Hs as <-; [|done].
    split; [done|]. split; [done|]. split; [|split; [done|]].
    + unfold endSession. simpl. apply allToolCalls_fmap_same.
      intros a. unfold completeIfActive. by case_match.
    + unfold endSession. simpl. by rewrite length_fmap.
Qed.

(** ** C3: [pre] followed by its [post] *)

(** C3, as stated for every session state, fails when the identifier drawn
    for the new call ([Date.now()] plus four random characters) repeats one
    already in the session: the [post] then finds the older call first.
    Here the older call is already completed; the [post] stamps it again
    and the call recorded by the [pre] stays in state [executing], so no
    call goes from [executing] to [completed] or [error]. *)
Lemma post_after_repeated_id_completes_nothing :
  tc_id <$> sessionToolCalls stReadAgainSameId "s1" = [(1000, "k3f9"); (1000, "k3f9")] ∧
  tc_status <$> sessionToolCalls stReadAgainSameId "s1" = [Completed; Executing] ∧
  tc_completedAt <$> sessionToolCalls stReadAgainSameId "s1" = [Some 10; None] ∧
  tc_status <$> sessionToolCalls stReadAgainPost "s1" = [Completed; Executing] ∧
  tc_completedAt <$> sessionToolCalls stReadAgainPost "s1" = [Some 11; None].
Proof. vm_compute. done. Qed.

(** A second way for C3 to fail as stated: a [session_start] for the
    session between the [pre] and its [post] deletes the session with its
    call and its marker; the [post] finds a fresh session and completes
    nothing. *)
Lemma session_start_between_pre_and_post :
  tc_status <$> sessionToolCalls stRead "s1" = [Executing] ∧
  sessionToolCalls stRestarted "s1" = [] ∧
  sessionToolCalls stReadRestartedPost "s1" = [].
Proof. vm_compute. done. Qed.

Lemma find_insert_other {A} (P : A → Prop) `{!∀ x, Decision (P x)}
    (a b : list A) (y : A) k x :
  list_find P (a ++ b) = Some (k, x) → ¬ P y →
  ∃ k', list_find P (a ++ y :: b) = Some (k', x).
Proof.
  intros Hf Hy. apply list_find_app_Some in Hf as [Hf|(Hlen & Hnone & Hf)].
  - exists k. by apply list_find_app_l.
  - exists (length a + S (k - length a))%nat.
    apply list_find_app_Some. right. split; [lia|]. split; [done|].
    replace (length a + S (k - length a) - length a)%nat with (S (k - length a)) by lia.
    apply list_find_Some in Hf as (Hk & HP & Hbefore).
    apply list_find_Some. split; [done|]. split; [done|].
    intros j z Hz Hlt. destruct j as [|j]; simpl in Hz.
    + by injection Hz as <-.
    + apply (Hbefore j z Hz). lia.
Qed.

Lemma find_alter_other {A} (P : A → Prop) `{!∀ x, Decision (P x)}
    (g : A → A) (l : list A) k x k' :
  list_find P l = Some (k, x) → (∀ y, P (g y) ↔ P y) → k' ≠ k →
  list_find P (alter g k' l) = Some (k, x).
Proof.
  intros Hf Hg Hne. apply list_find_Some in Hf as (Hk & HP & Hbefore).
  apply list_find_Some. split; [by rewrite list_lookup_alter_ne|]. split; [done|].
  intros j y Hy Hlt. destruct (decide (j = k')) as [->|Hj].
  - rewrite list_lookup_alter_eq in Hy.
    destruct (l !! k') as [y0|] eqn:E; [|done]. simpl in Hy. injection Hy as <-.
    rewrite Hg. by eapply Hbefore.
  - rewrite list_lookup_alter_ne in Hy by done. by eapply Hbefore.
Qed.

(** After its [pre] a call with a fresh identifier is waiting. *)
Lemma pre_starts_waiting config env event st :
  reachable st → ev_phase event = Pre →
  summarizeInputThrows (ev_tool_name event) (ev_tool_input event) = false →
  (∀ c, c ∈ sessionToolCalls st (eventSid event) →
        tc_id c ≠ (env_clock env, env_suffix env)) →
  ∃ k, waiting (eventSid event)
         (mkToolCall (env_clock env, env_suffix env) (ev_tool_name event)
            (ev_timestamp event) None Executing)
         k (processEvent config env event st).
Proof.
  intros Hreach Hph Hok Hfresh.
  destruct (pre_calls config env event st Hph Hok) as (l1 & l2 & E1 & E2).
  exists (length l1). unfold waiting. cbn [tc_tool tc_id].
  rewrite pre_pending by done. split; [apply lookup_insert_eq|]. split.
  - intros T' Hl. destruct (decide (T' = ev_tool_name event)) as [|Hne]; [done|].
    rewrite lookup_insert_ne in Hl by done. exfalso.
    unfold sessionPending in Hl.
    destruct (sessions st !! eventSid event) as [ss|] eqn:E; [|done].
    destruct (reachable_pendingRecorded st _ ss Hreach E _ _ Hl) as (c & Hin & Hid & _).
    apply (Hfresh c); [|done]. unfold sessionToolCalls. by rewrite E.
  - rewrite E2. apply find_fresh_middle; [done|].
    intros c Hc. apply Hfresh. rewrite E1. apply elem_of_app. by left.
Qed.

(** A waiting call keeps waiting while nothing disturbs it. *)
Lemma keepsWaiting_waiting sid tc k st st' :
  keepsWaiting sid (tc_tool tc) (tc_id tc) st st' →
  waiting sid tc k st → ∃ k', waiting sid tc k' st'.
Proof.
  intros Hstep (Hmark & Huniq & Hfind).
  assert (∀ s, sessionToolCalls s sid = sessionToolCalls st sid →
               sessionPending s sid = sessionPending st sid →
               ∃ k', waiting sid tc k' s) as Hsame.
  { intros s Hc Hp. exists k. unfold waiting. by rewrite Hc, Hp. }
  destruct Hstep as [config env event st Hcond|config now st Hkept].
  - destruct (decide (eventSid event = sid)) as [Hsid|Hother].
    + destruct (Hcond Hsid) as (Hstart & Htool & Hid). subst sid.
      destruct (ev_phase event) eqn:Hph.
      * done.
      * destruct (session_end_effect config env event st Hph). by apply Hsame.
      * assert (ev_phase event = Pre) as Hph' by done.
        destruct (summarizeInputThrows (ev_tool_name event) (ev_tool_input event))
          eqn:Hthrow.
        -- destruct (pre_thrown_effect config env event st Hph' Hthrow).
           by apply Hsame.
        -- destruct (pre_calls config env event st Hph' Hthrow) as (l1 & l2 & E1 & E2).
           rewrite E1 in Hfind.
           destruct (find_insert_other _ l1 l2
                       (mkToolCall (env_clock env, env_suffix env) (ev_tool_name event)
                          (ev_timestamp event) None Executing) _ _ Hfind)
             as [k' Hfind']; [by apply Hid|].
           exists k'. unfold waiting. rewrite pre_pending, E2 by done.
           split; [|split; [|done]].
           ++ rewrite lookup_insert_ne; [done|]. apply Htool. by left.
           ++ intros T' Hl. destruct (decide (T' = ev_tool_name event)) as [->|Hne].
              ** rewrite lookup_insert_eq in Hl. injection Hl as Hl.
                 by destruct (Hid eq_refl).
              ** rewrite lookup_insert_ne in Hl by done. by apply Huniq.
      * assert (ev_phase event = Post) as Hph' by done.
        assert (ev_tool_name event ≠ tc_tool tc) as Hne by (apply Htool; by right).
        destruct (post_effect config env event st Hph') as [Hp Hc].
        { intros E. by rewrite E in Hfind. }
        unfold waiting. rewrite Hp, Hc.
        assert (∃ k', list_find (λ c, tc_id c = tc_id tc)
                        match sessionPending st (eventSid event) !! ev_tool_name event with
                        | Some pid =>
                            match list_find (λ c, tc_id c = pid)
                                    (sessionToolCalls st (eventSid event)) with
                            | Some (k0, _) =>
                                alter (settleCall event) k0
                                  (sessionToolCalls st (eventSid event))
                            | None => sessionToolCalls st (eventSid event)
                            end
                        | None => sessionToolCalls st (eventSid event)
                        end = Some (k', tc)) as [k' Hfind'].
        { destruct (sessionPending st (eventSid event) !! ev_tool_name event)
            as [pid'|] eqn:Epid; [|by exists k].
          destruct (list_find (λ c, tc_id c = pid') _) as [[k0 c0]|] eqn:E0; [|by exists k].
          exists k. apply find_alter_other; [done| |].
          - intros y. by destruct (settleCall_id event y) as (-> & _).
          - intros ->. apply list_find_Some in E0 as (E0 & Hid0 & _).
            apply list_find_Some in Hfind as (Hk & _).
            rewrite Hk in E0. injection E0 as <-.
            apply Hne. apply Huniq. by rewrite Hid0. }
        exists k'. split; [by rewrite lookup_delete_ne|]. split; [|done].
        intros T' Hl. apply lookup_delete_Some in Hl as [_ Hl]. by apply Huniq.
      * destruct (notification_effect config env event st Hph). by apply Hsame.
      * unfold processEvent. rewrite Hph. by exists k.
    + apply Hsame.
      * unfold sessionToolCalls. by rewrite processEvent_other.
      * unfold sessionPending. by rewrite processEvent_other.
  - destruct (prune_effect config now st sid Hkept). by apply Hsame.
Qed.

Lemma rtc_keepsWaiting_waiting sid tc st stN :
  rtc (keepsWaiting sid (tc_tool tc) (tc_id tc)) st stN →
  (∃ k, waiting sid tc k st) → ∃ k, waiting sid tc k stN.
Proof.
  intros Hrun Hw. revert stN Hrun.
  apply (rtc_ind_r (λ s, ∃ k, waiting sid tc k s)); [done|].
  intros y z _ Hstep [k Hk]. by eapply keepsWaiting_waiting.
Qed.

(** C3, amended.  Take a [pre] of tool [T] that is processed to its end
    in a reachable state, the identifier drawn for its call being carried
    by no call already in the session, and the next [post] of [T] for the
    same session.  In between, anything may happen to other sessions; the
    session itself may see any event but a [session_start], a [pre] of [T]
    or a [pre] for which the same identifier is drawn again, and the
    pruner may pass as long as it does not delete the session.  Then the
    [post] changes exactly one call of the session, the one the [pre]
    recorded, which was still [executing] and unstamped: it stamps it with
    the timestamp of the [post] and turns it to [completed] or [error];
    every other call is untouched.  The exception is a response on which
    [summarizeOutput] throws: [processEvent] then throws, after the call
    has been stamped and before its status is set, so that the call stays
    [executing].  A [post] of a tool with no pending marker leaves the
    recorded calls of every session as they were and does not throw. *)
Theorem pre_post_round_trip config :
  (∀ env1 env2 preEv postEv st stN,
     reachable st →
     ev_phase preEv = Pre → ev_phase postEv = Post →
     eventSid postEv = eventSid preEv →
     ev_tool_name postEv = ev_tool_name preEv →
     summarizeInputThrows (ev_tool_name preEv) (ev_tool_input preEv) = false →
     let sid := eventSid preEv in
     let T := ev_tool_name preEv in
     let pid := (env_clock env1, env_suffix env1) in
     (∀ c, c ∈ sessionToolCalls st sid → tc_id c ≠ pid) →
     rtc (keepsWaiting sid T pid) (processEvent config env1 preEv st) stN →
     let st2 := processEvent config env2 postEv stN in
     ∃ l1 l2,
       sessionToolCalls stN sid
       = l1 ++ mkToolCall pid T (ev_timestamp preEv) None Executing :: l2 ∧
       (∀ c, c ∈ l1 → tc_id c ≠ pid) ∧
       sessionToolCalls st2 sid
       = l1 ++ mkToolCall pid T (ev_timestamp preEv) (ev_timestamp postEv)
                 (if summarizeOutputThrows (ev_tool_response postEv) then Executing
                  else if detectError (ev_tool_response postEv) then Error
                  else Completed)
            :: l2 ∧
       sessionPending st2 sid !! T = None ∧
       processEventThrows postEv stN = summarizeOutputThrows (ev_tool_response postEv)) ∧
  (∀ env postEv st,
     ev_phase postEv = Post →
     (∀ ss, sessions st !! eventSid postEv = Some ss →
            pendingToolCalls ss !! ev_tool_name postEv = None) →
     (∀ sid, sessionToolCalls (processEvent config env postEv st) sid
             = sessionToolCalls st sid) ∧
     processEventThrows postEv st = false).
Proof.
  split.
  - intros env1 env2 preEv postEv st stN Hreach Hpre Hpost Hsid Htool Hok
      sid T pid Hfresh Hrun st2.
    set (tc := mkToolCall pid T (ev_timestamp preEv) None Executing).
    destruct (rtc_keepsWaiting_waiting sid tc _ stN Hrun) as [k (Hmark & _ & Hfind)].
    { by apply pre_starts_waiting. }
    cbn [tc_tool tc_id tc] in Hmark, Hfind.
    assert (sessionToolCalls stN (eventSid postEv) ≠ []) as Hne.
    { rewrite Hsid. fold sid. intros E. by rewrite E in Hfind. }
    destruct (post_effect config env2 postEv stN Hpost Hne) as [Hp Hc].
    fold st2 in Hp, Hc. rewrite Hsid, Htool in Hp, Hc. fold sid T in Hp, Hc.
    rewrite Hmark, Hfind in Hc.
    pose proof Hfind as Hfind'.
    apply list_find_Some in Hfind' as (Hk & _ & Hbefore).
    pose proof (take_drop_middle _ _ _ Hk) as Hsplit.
    pose proof (lookup_lt_Some _ _ _ Hk) as Hlt.
    exists (take k (sessionToolCalls stN sid)), (drop (S k) (sessionToolCalls stN sid)).
    split; [done|]. split; [|split; [|split]].
    + intros c Hc'. apply list_elem_of_lookup_1 in Hc' as [j Hj].
      pose proof (lookup_lt_Some _ _ _ Hj) as Hlt'. rewrite length_take in Hlt'.
      rewrite lookup_take_lt in Hj by lia. apply (Hbefore j c Hj). lia.
    + rewrite Hc. rewrite <- Hsplit at 1.
      assert (length (take k (sessionToolCalls stN sid)) = k) as Hlen
        by (rewrite length_take; lia).
      rewrite <- Hlen at 1. rewrite <- (Nat.add_0_r (length _)), alter_app_r.
      simpl. unfold settleCall.
      destruct (summarizeOutputThrows (ev_tool_response postEv)); [done|].
      unfold completeCall. simpl. by destruct (detectError _).
    + rewrite Hp. apply lookup_delete_eq.
    + destruct (summarizeOutputThrows (ev_tool_response postEv)) eqn:Hthrow.
      * apply post_throws; [done|]. split; [done|]. exists pid.
        rewrite Hsid, Htool. fold sid T. by rewrite Hfind.
      * destruct (processEventThrows postEv stN) eqn:E; [|done].
        apply post_throws in E as [E _]; [|done]. congruence.
  - intros env postEv st Hpost Hnone. split.
    + intros sid. destruct (decide (sid = eventSid postEv)) as [->|Hne].
      * destruct (post_calls config env postEv st Hpost) as (ss2 & Hss2 & Hcalls).
        unfold sessionToolCalls. rewrite Hss2, Hcalls.
        destruct (sessions st !! eventSid postEv) as [ss|] eqn:E; [|done].
        rewrite (Hnone _ eq_refl). by destruct (agents ss).
      * unfold sessionToolCalls. by rewrite processEvent_other.
    + destruct (processEventThrows postEv st) eqn:E; [|done].
      apply post_throws in E as (_ & pid & Hl & _); [|done].
      unfold sessionPending in Hl.
      destruct (sessions st !! eventSid postEv) as [ss|] eqn:Es; [|done].
      by rewrite (Hnone _ eq_refl) in Hl.
Qed.

Lemma pre_post_round_trip_witness :
  (∃ l1 l2,
     sessionToolCalls stReadBashTurn "s1"
     = l1 ++ mkToolCall (1000, "k3f9"%string) "Read" (Some 10) None Executing :: l2 ∧
     (∀ c, c ∈ l1 → tc_id c ≠ (1000, "k3f9"%string)) ∧
     sessionToolCalls stReadBashDone "s1"
     = l1 ++ mkToolCall (1000, "k3f9"%string) "Read" (Some 10) (Some 13) Completed :: l2 ∧
     sessionPending stReadBashDone "s1" !! "Read"%string = None ∧
     processEventThrows (mkEv Post (Some 13) "s1" "Read") stReadBashTurn = false) ∧
  (∃ l1 l2,
     sessionToolCalls stRead "s1"
     = l1 ++ mkToolCall (1000, "k3f9"%string) "Read" (Some 10) None Executing :: l2 ∧
     (∀ c, c ∈ l1 → tc_id c ≠ (1000, "k3f9"%string)) ∧
     sessionToolCalls stReadCut "s1"
     = l1 ++ mkToolCall (1000, "k3f9"%string) "Read" (Some 10) (Some 12) Executing :: l2 ∧
     sessionPending stReadCut "s1" !! "Read"%string = None ∧
     processEventThrows evReadCut stRead = true) ∧
  (∀ sid, sessionToolCalls
            (processEvent cfg0 envB (mkEv Post (Some 6) "s1" "Bash") stStarted) sid
          = sessionToolCalls stStarted sid) ∧
  processEventThrows (mkEv Post (Some 6) "s1" "Bash") stStarted = false.
Proof.
  split; [|split].
  - apply (proj1 (pre_post_round_trip cfg0) envA envC
             (mkEv Pre (Some 10) "s1" "Read") (mkEv Post (Some 13) "s1" "Read")
             stStarted stReadBashTurn);
      [|reflexivity|reflexivity|reflexivity|reflexivity|reflexivity| |].
    + unfold reachable, stStarted. reach_by_events.
    + intros c Hc. vm_compute in Hc. by apply elem_of_nil in Hc.
    + unfold stReadBashTurn, stReadBash, stRead.
      eapply rtc_r; [eapply rtc_r; [apply rtc_refl|]|]; apply waiting_event; intros _.
      * split; [discriminate|]. split; [intros _; discriminate|].
        intros _. discriminate.
      * split; [discriminate|]. split; [intros [?|?]; discriminate|].
        intros ?; discriminate.
  - apply (proj1 (pre_post_round_trip cfg0) envA envB
             (mkEv Pre (Some 10) "s1" "Read") evReadCut stStarted stRead);
      [|reflexivity|reflexivity|reflexivity|reflexivity|reflexivity| |apply rtc_refl].
    + unfold reachable, stStarted. reach_by_events.
    + intros c Hc. vm_compute in Hc. by apply elem_of_nil in Hc.
  - apply (proj2 (pre_post_round_trip cfg0) envB
             (mkEv Post (Some 6) "s1" "Bash") stStarted); [reflexivity|].
    intros ss Hss. vm_compute in Hss. injection Hss as <-. reflexivity.
Defined.

(** ** C8: timestamps of an event *)




